(** * Documentation organizer and Markdown link checker

    A shallow embedding of [scripts/organize-docs.py] and
    [scripts/verify-markdown-links.py].

    Conventions of the embedding.
    - A Python [str] is a [string]; the characters that the scripts inspect
      ([/], [.], [#], [?], [:], [%], ASCII letters, ASCII white space) are
      ASCII, and [upper] changes the ASCII letters only.
    - A [pathlib.Path] that is absolute and rooted at [/] is the list of its
      components below [/]; [ROOT] is such a path.
    - The file system is a tree of directories and regular files; the order of
      the entries of a directory is the order in which the directory is
      listed.  Symbolic links are not modelled.
    - A Python exception is a value of [exn]; a computation that may raise
      returns a [res].  The exceptions modelled are those of the scripts and
      of the file operations on such a tree; the [ValueError] of [urlparse]
      for a bracketed host, that of [resolve()] for a NUL character and the
      [OSError] of [exists()] for an over-long name are not, and a statement
      about every link is made where they cannot occur. *)

From Stdlib Require Import String Ascii List Bool Arith Lia Permutation.
From Stdlib Require Import DecimalString.
Import ListNotations.
Local Open Scope list_scope.
Local Open Scope string_scope.

(** ** Python string operations *)

Module Str.

(** [s.startswith(pre)] *)
Fixpoint startswith (pre s : string) : bool :=
  match pre, s with
  | EmptyString, _ => true
  | String a pre', String b s' => Ascii.eqb a b && startswith pre' s'
  | String _ _, EmptyString => false
  end.

(** [s.endswith(suf)] *)
Fixpoint endswith (suf s : string) : bool :=
  (s =? suf) ||
  match s with
  | EmptyString => false
  | String _ s' => endswith suf s'
  end.

(** [needle in hay] *)
Fixpoint contains (needle hay : string) : bool :=
  startswith needle hay ||
  match hay with
  | EmptyString => false
  | String _ hay' => contains needle hay'
  end.

Definition is_lower (c : ascii) : bool :=
  let n := nat_of_ascii c in (97 <=? n)%nat && (n <=? 122)%nat.

Definition is_upper (c : ascii) : bool :=
  let n := nat_of_ascii c in (65 <=? n)%nat && (n <=? 90)%nat.

Definition is_digit (c : ascii) : bool :=
  let n := nat_of_ascii c in (48 <=? n)%nat && (n <=? 57)%nat.

Definition upper_char (c : ascii) : ascii :=
  if is_lower c then ascii_of_nat (nat_of_ascii c - 32) else c.

Definition lower_char (c : ascii) : ascii :=
  if is_upper c then ascii_of_nat (nat_of_ascii c + 32) else c.

Fixpoint map_chars (f : ascii -> ascii) (s : string) : string :=
  match s with
  | EmptyString => EmptyString
  | String c s' => String (f c) (map_chars f s')
  end.

(** [s.upper()] and [s.lower()] of a string of ASCII characters: the letters
    [a-z] and [A-Z] change, every other character is kept.  (Python also
    changes letters outside ASCII; a statement that depends on the case of
    letters is made for ASCII strings.) *)
Definition upper : string -> string := map_chars upper_char.
Definition lower : string -> string := map_chars lower_char.

(** Drops the first [n] characters. *)
Fixpoint drop (n : nat) (s : string) : string :=
  match n, s with
  | S k, String _ s' => drop k s'
  | _, _ => s
  end.

(** [s.find(c)] for a character [c]: [None] stands for [-1]. *)
Fixpoint find_char (c : ascii) (s : string) : option nat :=
  match s with
  | EmptyString => None
  | String d s' =>
      if Ascii.eqb c d then Some 0
      else option_map S (find_char c s')
  end.

(** [s.rfind(c)] *)
Fixpoint rfind_char (c : ascii) (s : string) : option nat :=
  match s with
  | EmptyString => None
  | String d s' =>
      match rfind_char c s' with
      | Some i => Some (S i)
      | None => if Ascii.eqb c d then Some 0 else None
      end
  end.

(** [s.split(sep)] for a one-character separator. *)
Fixpoint split (sep : ascii) (s : string) : list string :=
  match s with
  | EmptyString => [EmptyString]
  | String c s' =>
      if Ascii.eqb c sep then EmptyString :: split sep s'
      else match split sep s' with
           | [] => [String c EmptyString]
           | w :: ws => String c w :: ws
           end
  end.

(** [s.split(sep, 1)[0]] *)
Fixpoint before (sep : ascii) (s : string) : string :=
  match s with
  | EmptyString => EmptyString
  | String c s' => if Ascii.eqb c sep then EmptyString else String c (before sep s')
  end.

(** [sep.join(ws)] *)
Fixpoint join (sep : string) (ws : list string) : string :=
  match ws with
  | [] => EmptyString
  | [w] => w
  | w :: ws' => w ++ sep ++ join sep ws'
  end.

(** [s.replace(old, new)] for a non-empty [old]: the occurrences are taken
    from the left and do not overlap.  [skip] counts the characters of the
    current occurrence that are still to be dropped. *)
Fixpoint replace_from (old new : string) (skip : nat) (s : string) : string :=
  match s with
  | EmptyString => EmptyString
  | String c s' =>
      match skip with
      | S k => replace_from old new k s'
      | O =>
          if startswith old s
          then new ++ replace_from old new (String.length old - 1) s'
          else String c (replace_from old new 0 s')
      end
  end.

(** With an empty [old], Python puts [new] before every character and at
    the end. *)
Fixpoint interleave (new s : string) : string :=
  match s with
  | EmptyString => new
  | String c s' => new ++ String c (interleave new s')
  end.

Definition replace (old new s : string) : string :=
  match old with
  | EmptyString => interleave new s
  | _ => replace_from old new 0 s
  end.

(** White space among the ASCII characters, as removed by [str.strip()].
    (Python also removes the white space outside ASCII.) *)
Definition is_space (c : ascii) : bool :=
  let n := nat_of_ascii c in
  ((9 <=? n)%nat && (n <=? 13)%nat) || ((28 <=? n)%nat && (n <=? 32)%nat).

Fixpoint lstrip_by (p : ascii -> bool) (s : string) : string :=
  match s with
  | EmptyString => EmptyString
  | String c s' => if p c then lstrip_by p s' else s
  end.

Fixpoint rstrip_by (p : ascii -> bool) (s : string) : string :=
  match s with
  | EmptyString => EmptyString
  | String c s' =>
      match rstrip_by p s' with
      | EmptyString => if p c then EmptyString else String c EmptyString
      | t => String c t
      end
  end.

(** [s.strip()] of a string whose white space is ASCII. *)
Definition strip (s : string) : string := rstrip_by is_space (lstrip_by is_space s).

Fixpoint filter_chars (p : ascii -> bool) (s : string) : string :=
  match s with
  | EmptyString => EmptyString
  | String c s' => if p c then String c (filter_chars p s') else filter_chars p s'
  end.

Fixpoint all_chars (p : ascii -> bool) (s : string) : bool :=
  match s with
  | EmptyString => true
  | String c s' => p c && all_chars p s'
  end.

(** [str(n)] for a natural number. *)
Definition of_nat (n : nat) : string := NilEmpty.string_of_uint (Nat.to_uint n).

End Str.

(** ** Exceptions and results *)

Inductive exn : Type :=
| SystemExit (msg : string)
| FileExistsError
| FileNotFoundError
| NotADirectoryError
| IsADirectoryError
| ShutilError
| ValueError.

Inductive res (A : Type) : Type :=
| Ok (a : A)
| Raise (e : exn).

Arguments Ok {A} a.
Arguments Raise {A} e.

Definition bind {A B : Type} (r : res A) (k : A -> res B) : res B :=
  match r with
  | Ok a => k a
  | Raise e => Raise e
  end.

Notation "x <- r ;; k" := (bind r (fun x => k))
  (at level 61, r at next level, right associativity).

(** ** Paths *)

(** An absolute path: its components below [/]. *)
Definition path : Type := list string.

Module Path.

(** The components of a path written as a string: [pathlib] drops empty
    components and [.] and keeps [..]. *)
Definition parts (s : string) : list string :=
  filter (fun c => negb (c =? "") && negb (c =? ".")) (Str.split "/" s).

(** The root of a parsed path: relative, [/], or [//] (exactly two leading
    slashes, which POSIX keeps apart). *)
Inductive anchor : Type := Relative | Slash | TwoSlashes.

Definition anchor_of (s : string) : anchor :=
  if Str.startswith "///" s then Slash
  else if Str.startswith "//" s then TwoSlashes
  else if Str.startswith "/" s then Slash
  else Relative.

(** [str(p)] *)
Definition to_str (p : path) : string := "/" ++ Str.join "/" p.

(** [p / s] for an absolute [p] and a string [s] that does not start
    with [//]. *)
Definition join (p : path) (s : string) : path :=
  match anchor_of s with
  | Relative => (p ++ parts s)%list
  | _ => parts s
  end.

(** [p.name]: the last component, empty for [/]. *)
Definition name (p : path) : string := last p "".

(** [p / n] for a name [n] taken from a path: a single component, or the
    empty name of [/]. *)
Definition child (p : path) (n : string) : path :=
  if n =? "" then p else (p ++ [n])%list.

(** [p.parent]; the parent of [/] is [/]. *)
Definition parent (p : path) : path := removelast p.

(** [p.parents]: the proper ancestors, nearest first. *)
Fixpoint ancestors (n : nat) (p : path) : list path :=
  match n with
  | O => []
  | S k => removelast p :: ancestors k (removelast p)
  end.

Definition parents (p : path) : list path := ancestors (List.length p) p.

(** [p.stem]: the name without its last suffix. *)
Definition stem_of_name (n : string) : string :=
  match Str.rfind_char "." n with
  | Some i =>
      if (0 <? i)%nat && (i <? String.length n - 1)%nat
      then String.substring 0 i n
      else n
  | None => n
  end.

Definition stem (p : path) : string := stem_of_name (name p).

Definition eqb (p q : path) : bool :=
  if list_eq_dec String.string_dec p q then true else false.

(** [p.relative_to(base)]: the components of [p] below [base]; [None] is
    the [ValueError] raised when [p] is not [base] or below it. *)
Fixpoint relative_to (p base : path) {struct base} : option (list string) :=
  match base with
  | [] => Some p
  | b :: base' =>
      match p with
      | [] => None
      | c :: p' => if c =? b then relative_to p' base' else None
      end
  end.

(** [p.is_relative_to(base)] *)
Definition is_relative_to (p base : path) : bool :=
  match relative_to p base with
  | Some _ => true
  | None => false
  end.

(** [as_posix()] of a relative path given by its components. *)
Definition as_posix (r : list string) : string :=
  match r with
  | [] => "."
  | _ => Str.join "/" r
  end.

(** [resolve()] of an absolute path in the absence of symbolic links: [..]
    steps up, and stays at [/] there.  [acc] holds the components reached
    so far, innermost first. *)
Fixpoint resolve_from (acc : list string) (cs : list string) : path :=
  match cs with
  | [] => rev acc
  | c :: cs' =>
      if c =? ".." then resolve_from (tl acc) cs'
      else resolve_from (c :: acc) cs'
  end.

Definition resolve (p : path) : path := resolve_from [] p.

(** [os.path.relpath(p, start)] for two normalized absolute paths, as
    components: one [..] for every component of [start] below the common
    prefix, then what is left of [p]. *)
Fixpoint relpath_parts (p start : path) : list string :=
  match p, start with
  | c :: p', d :: start' =>
      if c =? d then relpath_parts p' start'
      else (repeat ".." (List.length start) ++ p)%list
  | _, _ => (repeat ".." (List.length start) ++ p)%list
  end.

(** [pathlib.Path(os.path.relpath(p, start)).as_posix()] *)
Definition relpath (p start : path) : string := as_posix (relpath_parts p start).

End Path.

(** ** The file system *)

Module FS.

(** What [read_text(encoding="utf-8")] finds in a regular file: text, or
    bytes that do not decode. *)
Inductive content : Type :=
| Text (s : string)
| Binary.

#[warnings="-register-all"]
Inductive node : Type :=
| File (c : content)
| Dir (entries : list (string * node)).

Definition entries : Type := list (string * node).

Fixpoint assoc (c : string) (es : entries) : option node :=
  match es with
  | [] => None
  | (d, x) :: es' => if c =? d then Some x else assoc c es'
  end.

(** Replaces the entry named [c], or adds it at the end of the listing. *)
Fixpoint set_entry (c : string) (x : node) (es : entries) : entries :=
  match es with
  | [] => [(c, x)]
  | (d, y) :: es' => if c =? d then (d, x) :: es' else (d, y) :: set_entry c x es'
  end.

Fixpoint del_entry (c : string) (es : entries) : entries :=
  match es with
  | [] => []
  | (d, y) :: es' => if c =? d then del_entry c es' else (d, y) :: del_entry c es'
  end.

Fixpoint lookup (n : node) (p : path) : option node :=
  match p with
  | [] => Some n
  | c :: p' =>
      match n with
      | File _ => None
      | Dir es =>
          match assoc c es with
          | Some x => lookup x p'
          | None => None
          end
      end
  end.

(** [p.exists()], [p.is_file()], [p.is_dir()] *)
Definition exists_ (fs : node) (p : path) : bool :=
  match lookup fs p with Some _ => true | None => false end.

Definition is_file (fs : node) (p : path) : bool :=
  match lookup fs p with Some (File _) => true | _ => false end.

Definition is_dir (fs : node) (p : path) : bool :=
  match lookup fs p with Some (Dir _) => true | _ => false end.

(** A chain of new, empty directories. *)
Fixpoint fresh_dirs (p : path) : node :=
  match p with
  | [] => Dir []
  | c :: p' => Dir [(c, fresh_dirs p')]
  end.

(** [p.mkdir(parents=True, exist_ok=True)]: an existing directory is left
    alone, missing directories are created from the top, a regular file
    in the way raises. *)
Fixpoint mkdir_p (n : node) (p : path) : res node :=
  match p with
  | [] =>
      match n with
      | Dir _ => Ok n
      | File _ => Raise FileExistsError
      end
  | c :: p' =>
      match n with
      | File _ => Raise NotADirectoryError
      | Dir es =>
          match assoc c es with
          | Some x =>
              x' <- mkdir_p x p' ;;
              Ok (Dir (set_entry c x' es))
          | None => Ok (Dir (set_entry c (fresh_dirs p') es))
          end
      end
  end.

(** Takes the entry at [p] out of the tree. *)
Fixpoint remove (n : node) (p : path) : node :=
  match p with
  | [] => n
  | c :: p' =>
      match n with
      | File _ => n
      | Dir es =>
          match p' with
          | [] => Dir (del_entry c es)
          | _ =>
              match assoc c es with
              | Some x => Dir (set_entry c (remove x p') es)
              | None => n
              end
          end
      end
  end.

(** Puts [x] at [p], in place of what is there if anything; the parent of
    [p] has to be a directory. *)
Fixpoint put (n : node) (p : path) (x : node) : option node :=
  match p with
  | [] => None
  | c :: p' =>
      match n with
      | File _ => None
      | Dir es =>
          match p' with
          | [] => Some (Dir (set_entry c x es))
          | _ =>
              match assoc c es with
              | Some y =>
                  match put y p' x with
                  | Some y' => Some (Dir (set_entry c y' es))
                  | None => None
                  end
              | None => None
              end
          end
      end
  end.

(** [os.rename(src, dst)]: the entry at [src] goes to [dst] and replaces
    what is there. *)
Definition rename (fs : node) (src dst : path) : res node :=
  match lookup fs src with
  | None => Raise FileNotFoundError
  | Some x =>
      match put (remove fs src) dst x with
      | Some fs' => Ok fs'
      | None => Raise FileNotFoundError
      end
  end.

(** [shutil.move(src, dst)] on one device: into [dst] when [dst] is a
    directory, refusing to replace an entry there; a directory is not moved
    into itself, nor onto a regular file; otherwise [os.rename]. *)
Definition shutil_move (fs : node) (src dst : path) : res node :=
  match lookup fs src with
  | None => Raise FileNotFoundError
  | Some x =>
      match lookup fs dst with
      | Some (Dir _) =>
          let real_dst := Path.child dst (Path.name src) in
          if exists_ fs real_dst then Raise ShutilError
          else if Path.is_relative_to real_dst src then Raise ShutilError
          else rename fs src real_dst
      | Some (File _) =>
          match x with
          | Dir _ => Raise FileExistsError
          | File _ => rename fs src dst
          end
      | None =>
          if Path.is_relative_to dst src then Raise ShutilError
          else rename fs src dst
      end
  end.

(** [p.write_text(text)] *)
Definition write_text (fs : node) (p : path) (text : string) : res node :=
  match lookup fs p with
  | Some (Dir _) => Raise IsADirectoryError
  | _ =>
      match put fs p (File (Text text)) with
      | Some fs' => Ok fs'
      | None => Raise FileNotFoundError
      end
  end.

(** The paths, relative to the directory [n], that [rglob] yields for a
    name pattern [m]: the matching entries of the directory, then the same
    for each of its subdirectories in listing order. *)
Fixpoint rglob_from (m : string -> bool) (n : node) : list (list string) :=
  match n with
  | File _ => []
  | Dir es =>
      (map (fun e => [fst e]) (filter (fun e => m (fst e)) es)
       ++ flat_map (fun e => map (cons (fst e)) (rglob_from m (snd e))) es)%list
  end.

(** [p.rglob(pattern)] *)
Definition rglob (m : string -> bool) (fs : node) (p : path) : list path :=
  match lookup fs p with
  | Some n => map (app p) (rglob_from m n)
  | None => []
  end.

(** [p.glob(pattern)] for a pattern without a separator: the matching
    entries of the directory [p]. *)
Definition glob (m : string -> bool) (fs : node) (p : path) : list path :=
  match lookup fs p with
  | Some (Dir es) => map (fun e => (p ++ [fst e])%list) (filter (fun e => m (fst e)) es)
  | _ => []
  end.

End FS.

(** The patterns [*.md] and [*]. *)
Definition pat_md (name : string) : bool := Str.endswith ".md" name.
Definition pat_any (name : string) : bool := true.

Definition nl : string := String (ascii_of_nat 10) EmptyString.

(** The truth value of a Python list. *)
Definition truthy {A : Type} (l : list A) : bool :=
  match l with
  | [] => false
  | _ :: _ => true
  end.

Definition mem_string (x : string) (l : list string) : bool :=
  existsb (String.eqb x) l.

Definition mem_path (x : path) (l : list path) : bool :=
  existsb (Path.eqb x) l.

(** ** [organize-docs.py] *)

Module Organize.
Section Organize.

(** [ROOT]: the parent of the directory that holds the script, resolved. *)
Variable ROOT : path.

(** The order in which Python enumerates a set built from the given
    elements; it depends on the hashes of the strings. *)
Variable set_iter : list string -> list string.

Definition SKIP_DIRS : list string :=
  [ "node_modules"; "vendor"; "storage"; "public"; "bootstrap";
    ".git"; ".idea"; ".vscode"; "vendor-bin" ].

Definition ALLOWED_ROOT_FILES : list path := [ Path.join ROOT "README.md" ].

Definition ALLOWED_PREFIXES : list path :=
  [ Path.join ROOT "docs";
    Path.join ROOT "tests";
    Path.join (Path.join ROOT "resources") "markdown";
    Path.join ROOT ".github";
    Path.join ROOT ".kiro" ].

Definition TEXT_SUFFIXES : list string :=
  [ ".md"; ".mdx"; ".php"; ".blade.php"; ".js"; ".ts"; ".tsx"; ".json";
    ".yaml"; ".yml"; ".neon"; ".xml"; ".html"; ".css"; ".scss"; ".txt" ].

Definition should_skip (p : path) : bool :=
  existsb (fun part => mem_string part SKIP_DIRS) p.

Definition is_allowed (p : path) : bool :=
  if mem_path p ALLOWED_ROOT_FILES then true
  else existsb (fun prefix => mem_path prefix (Path.parents p) || Path.eqb p prefix)
               ALLOWED_PREFIXES.

Definition find_markdown (fs : FS.node) : list path :=
  filter (fun p => negb (should_skip p)) (FS.rglob pat_md fs ROOT).

Definition find_stray_markdown (fs : FS.node) : list path :=
  filter (fun p => negb (is_allowed p)) (find_markdown fs).

Definition patterns : list (list string * string) :=
  [ (["NEWS"; "SECURITY"], "docs/news/security");
    (["NEWS"], "docs/news");
    (["ADMIN"], "docs/admin");
    (["COMMENT"], "docs/comments");
    (["DESIGN"; "TOKEN"], "docs/design-tokens");
    (["ACCESS"], "docs/accessibility");
    (["INTERFACE"], "docs/interface");
    (["OPTIMISTIC"], "docs/optimistic-ui");
    (["SCOPE"], "docs/query-scopes");
    (["SECURITY"], "docs/security");
    (["VALIDATION"], "docs/validation");
    (["REQUEST"], "docs/validation");
    (["ROUTE"], "docs/routing");
    (["UI"], "docs/ui-ux");
    (["UX"], "docs/ui-ux");
    (["TAILWIND"], "docs/ui-ux");
    (["MODAL"], "docs/ui-ux");
    (["PROJECT"], "docs/project");
    (["PLAN"], "docs/planning");
    (["TODO"], "docs/planning");
    (["TASK"], "docs/planning");
    (["DOCUMENTATION"], "docs/documentation");
    (["I18N"], "docs/i18n");
    (["LOCALE"], "docs/i18n");
    (["LIVEWIRE"], "docs/livewire");
    (["VOLT"], "docs/volt");
    (["API"], "docs/api") ].

(** [all(keyword in name for keyword in keywords)] *)
Definition rule_matches (name : string) (keywords : list string) : bool :=
  forallb (fun keyword => Str.contains keyword name) keywords.

(** The loop over the rules: the folder of the first rule that matches. *)
Fixpoint first_match (name : string) (rules : list (list string * string))
  : option string :=
  match rules with
  | [] => None
  | (keywords, folder) :: rules' =>
      if rule_matches name keywords then Some folder
      else first_match name rules'
  end.

Definition guess_target_folder (filename : string) : path :=
  let name := Str.upper filename in
  match first_match name patterns with
  | Some folder => Path.join ROOT folder
  | None => Path.join ROOT "docs/misc"
  end.

Definition move : Type := (path * path)%type.

Definition conflict_message (destination : path) : string :=
  "Refusing to overwrite existing file: " ++ Path.to_str destination ++ ". "
  ++ "Resolve the conflict and rerun the command.".

(** The loop of [move_stray_files]; [moves] is the list built so far.  The
    result carries the file system as the loop leaves it. *)
Fixpoint move_loop (fs : FS.node) (moves : list move) (stray_files : list path)
  : FS.node * res (list move) :=
  match stray_files with
  | [] => (fs, Ok moves)
  | source :: rest =>
      let target_dir := guess_target_folder (Path.stem source) in
      match FS.mkdir_p fs target_dir with
      | Raise e => (fs, Raise e)
      | Ok fs1 =>
          let destination := Path.child target_dir (Path.name source) in
          if FS.exists_ fs1 destination
          then (fs1, Raise (SystemExit (conflict_message destination)))
          else
            match FS.shutil_move fs1 source destination with
            | Raise e => (fs1, Raise e)
            | Ok fs2 => move_loop fs2 (moves ++ [(source, destination)])%list rest
            end
      end
  end.

Definition move_stray_files (fs : FS.node) (stray_files : list path)
  : FS.node * res (list move) :=
  move_loop fs [] stray_files.

Definition iter_text_files (fs : FS.node) : list path :=
  filter (fun p =>
            FS.is_file fs p
            && negb (should_skip p)
            && existsb (fun suffix => Str.endswith suffix (Path.to_str p)) TEXT_SUFFIXES)
         (FS.rglob pat_any fs ROOT).

(** A [dict] with string keys, in insertion order: a later value for a key
    takes the place of the earlier one. *)
Fixpoint dict_set (k : string) (v : path) (d : list (string * path))
  : list (string * path) :=
  match d with
  | [] => [(k, v)]
  | (k', v') :: d' => if k =? k' then (k', v) :: d' else (k', v') :: dict_set k v d'
  end.

(** The dictionary comprehension of [update_links]; [relative_to] raises
    for a source that is not below [ROOT]. *)
Fixpoint build_mapping (d : list (string * path)) (moves : list move)
  : res (list (string * path)) :=
  match moves with
  | [] => Ok d
  | (src, dst) :: moves' =>
      match Path.relative_to src ROOT with
      | None => Raise ValueError
      | Some rel => build_mapping (dict_set (Path.as_posix rel) dst d) moves'
      end
  end.

(** [for needle in candidates: if needle in text: text = text.replace(...)] *)
Fixpoint replace_needles (new_rel : string) (needles : list string) (text : string)
  : string :=
  match needles with
  | [] => text
  | needle :: needles' =>
      replace_needles new_rel needles'
        (if Str.contains needle text then Str.replace needle new_rel text else text)
  end.

Definition candidates (file_path : path) (old_rel : string) : list string :=
  let old_rel_from_file :=
    Path.relpath (Path.join ROOT old_rel) (Path.parent file_path) in
  set_iter [ old_rel; "./" ++ old_rel; old_rel_from_file; "./" ++ old_rel_from_file ].

(** The loop over [mapping.items()] for one file. *)
Fixpoint rewrite_text (file_path : path) (mapping : list (string * path)) (text : string)
  : string :=
  match mapping with
  | [] => text
  | (old_rel, new_abs) :: mapping' =>
      let new_rel := Path.relpath new_abs (Path.parent file_path) in
      rewrite_text file_path mapping'
        (replace_needles new_rel (candidates file_path old_rel) text)
  end.

(** The loop over [iter_text_files()]. *)
Fixpoint update_loop (fs : FS.node) (mapping : list (string * path))
  (updated : list path) (files : list path) : FS.node * res (list path) :=
  match files with
  | [] => (fs, Ok updated)
  | file_path :: files' =>
      match FS.lookup fs file_path with
      | Some (FS.File (FS.Text original)) =>
          let text := rewrite_text file_path mapping original in
          if text =? original then update_loop fs mapping updated files'
          else
            match FS.write_text fs file_path text with
            | Raise e => (fs, Raise e)
            | Ok fs' => update_loop fs' mapping (updated ++ [file_path])%list files'
            end
      | Some (FS.File FS.Binary) => update_loop fs mapping updated files'
      | Some (FS.Dir _) => (fs, Raise IsADirectoryError)
      | None => (fs, Raise FileNotFoundError)
      end
  end.

Definition update_links (fs : FS.node) (moves : list move) : FS.node * res (list path) :=
  match moves with
  | [] => (fs, Ok [])
  | _ =>
      match build_mapping [] moves with
      | Raise e => (fs, Raise e)
      | Ok mapping => update_loop fs mapping [] (iter_text_files fs)
      end
  end.

(** [str(p.relative_to(ROOT))] for a path found below [ROOT]. *)
Definition rel_str (p : path) : string :=
  match Path.relative_to p ROOT with
  | Some rel => Path.as_posix rel
  | None => Path.to_str p
  end.

Definition bullet_list (ps : list path) : string :=
  Str.join nl (map (fun p => " - " ++ rel_str p) ps).

Definition docs_root_offenders (fs : FS.node) : list path :=
  filter (fun p => negb (Path.name p =? "README.md"))
         (FS.glob pat_md fs (Path.join ROOT "docs")).

Definition docs_root_message (root_md : list path) : string :=
  "Docs root should only contain docs/README.md. Move these files into function folders:"
  ++ nl ++ bullet_list root_md.

Definition ensure_docs_root_only_index (fs : FS.node) : res unit :=
  let root_md := docs_root_offenders fs in
  if truthy root_md then Raise (SystemExit (docs_root_message root_md))
  else Ok tt.

Definition found_message (n : nat) : string :=
  "Found " ++ Str.of_nat n ++ " Markdown file(s) outside docs/. "
  ++ "Re-run with --fix to move them automatically.".

Definition remaining_message (stray_after : list path) : string :=
  "Some Markdown files are still outside docs/ after attempting to fix:"
  ++ nl ++ bullet_list stray_after.

(** The end of [main], from the docs-root check on. *)
Definition finish (fix_ : bool) (fs : FS.node) (out : list string)
  : FS.node * list string * res unit :=
  match ensure_docs_root_only_index fs with
  | Raise e => (fs, out, Raise e)
  | Ok _ =>
      let stray_after := if fix_ then find_stray_markdown fs else [] in
      if truthy stray_after
      then (fs, out, Raise (SystemExit (remaining_message stray_after)))
      else (fs, (out ++ ["Docs verification complete."])%list, Ok tt)
  end.

(** [main]: the file system at the end, the lines printed, and how the run
    ends; [fix_] is the [--fix] flag. *)
Definition main (fix_ : bool) (fs : FS.node) : FS.node * list string * res unit :=
  let stray := find_stray_markdown fs in
  if fix_ && truthy stray then
    let out1 := ["Moving " ++ Str.of_nat (List.length stray)
                 ++ " Markdown file(s) into docs/... folders"] in
    match move_stray_files fs stray with
    | (fs1, Raise e) => (fs1, out1, Raise e)
    | (fs1, Ok moves) =>
        match update_links fs1 moves with
        | (fs2, Raise e) => (fs2, out1, Raise e)
        | (fs2, Ok updated) =>
            let out2 :=
              if truthy updated
              then (out1 ++ [("Updated links in " ++ Str.of_nat (List.length updated)
                              ++ " file(s)")%string])%list
              else out1 in
            finish fix_ fs2 out2
        end
    end
  else if truthy stray then
    (fs, [], Raise (SystemExit (found_message (List.length stray))))
  else finish fix_ fs ["No stray Markdown files found."].

End Organize.
End Organize.

(** ** [urllib.parse] *)

Module Url.

Record parsed : Type := Parsed
  { scheme : string; netloc : string; path : string; params : string;
    query : string; fragment : string }.

Definition is_alpha (c : ascii) : bool := Str.is_lower c || Str.is_upper c.

(** [scheme_chars]: letters, digits, [+], [-] and [.]. *)
Definition is_scheme_char (c : ascii) : bool :=
  is_alpha c || Str.is_digit c
  || Ascii.eqb c "+" || Ascii.eqb c "-" || Ascii.eqb c ".".

(** The C0 control characters and the space, which [urlsplit] strips from
    the left. *)
Definition is_c0_or_space (c : ascii) : bool := (nat_of_ascii c <=? 32)%nat.

(** Tab, line feed and carriage return, which [urlsplit] removes. *)
Definition is_unsafe (c : ascii) : bool :=
  let n := nat_of_ascii c in (n =? 9)%nat || (n =? 10)%nat || (n =? 13)%nat.

(** Splits at the first character that satisfies [p], which stays with the
    second part. *)
Fixpoint break_at (p : ascii -> bool) (s : string) : string * string :=
  match s with
  | EmptyString => (EmptyString, EmptyString)
  | String c s' =>
      if p c then (EmptyString, s)
      else let (a, b) := break_at p s' in (String c a, b)
  end.

(** [s.split(sep, 1)] as a pair; the second part is empty when [sep] does
    not occur. *)
Definition split1 (sep : ascii) (s : string) : string * string :=
  let (a, b) := break_at (Ascii.eqb sep) s in (a, Str.drop 1 b).

Definition head_is (p : ascii -> bool) (s : string) : bool :=
  match s with
  | EmptyString => false
  | String c _ => p c
  end.

(** The scheme of [url], if it starts with one, and the rest. *)
Definition split_scheme (url : string) : string * string :=
  match Str.find_char ":" url with
  | Some i =>
      if (0 <? i)%nat && head_is is_alpha url
         && Str.all_chars is_scheme_char (String.substring 0 i url)
      then (Str.lower (String.substring 0 i url), Str.drop (S i) url)
      else (EmptyString, url)
  | None => (EmptyString, url)
  end.

Definition is_delim (c : ascii) : bool :=
  Ascii.eqb c "/" || Ascii.eqb c "?" || Ascii.eqb c "#".

(** The network location after a leading [//], and the rest. *)
Definition split_netloc (url : string) : string * string :=
  if Str.startswith "//" url then break_at is_delim (Str.drop 2 url)
  else (EmptyString, url).

Definition uses_params : list string :=
  [ ""; "ftp"; "hdl"; "prospero"; "http"; "imap"; "https"; "shttp"; "rtsp";
    "rtspu"; "sip"; "sips"; "mms"; "sftp"; "tel" ].

(** [_splitparams]: the parameters follow the first [;] of the last
    segment. *)
Definition splitparams (url : string) : string * string :=
  match Str.rfind_char "/" url with
  | Some j =>
      let (a, b) := break_at (Ascii.eqb ";") (Str.drop j url) in
      match b with
      | EmptyString => (url, EmptyString)
      | _ => (String.substring 0 j url ++ a, Str.drop 1 b)
      end
  | None => split1 ";" url
  end.

(** [urllib.parse.urlparse(url)] where it returns.  The library raises
    [ValueError] for a network location with an unbalanced or ill-formed
    bracketed host, and for one with characters outside ASCII that normalize
    to a separator; these checks are left out, so a statement about every
    url is made for the urls without brackets and within ASCII. *)
Definition urlparse (url : string) : parsed :=
  let url := Str.filter_chars (fun c => negb (is_unsafe c))
               (Str.lstrip_by is_c0_or_space url) in
  let (scheme, url) := split_scheme url in
  let (netloc, url) := split_netloc url in
  let (url, fragment) := split1 "#" url in
  let (url, query) := split1 "?" url in
  let (url, params) :=
    if mem_string scheme uses_params && Str.contains ";" url
    then splitparams url else (url, EmptyString) in
  Parsed scheme netloc url params query fragment.

Definition hex_value (c : ascii) : option nat :=
  let n := nat_of_ascii c in
  if Str.is_digit c then Some (n - 48)
  else if (97 <=? n)%nat && (n <=? 102)%nat then Some (n - 87)
  else if (65 <=? n)%nat && (n <=? 70)%nat then Some (n - 55)
  else None.

(** The byte written by the two hexadecimal digits at the head of [s]. *)
Definition hex_byte (s : string) : option ascii :=
  match s with
  | String h (String l _) =>
      match hex_value h, hex_value l with
      | Some a, Some b => Some (ascii_of_nat (16 * a + b))
      | _, _ => None
      end
  | _ => None
  end.

(** [urllib.parse.unquote(s)]: every [%XX] with two hexadecimal digits
    stands for one byte.  The bytes are kept as they are, which is what the
    library yields when they are UTF-8 (it replaces a sequence that is not).
    [skip] counts the digits still to be dropped. *)
Fixpoint unquote_from (skip : nat) (s : string) : string :=
  match s with
  | EmptyString => EmptyString
  | String c s' =>
      match skip with
      | S k => unquote_from k s'
      | O =>
          match (if Ascii.eqb c "%" then hex_byte s' else None) with
          | Some b => String b (unquote_from 2 s')
          | None => String c (unquote_from 0 s')
          end
      end
  end.

Definition unquote (s : string) : string := unquote_from 0 s.

End Url.

(** ** [verify-markdown-links.py] *)

Module Verify.
Section Verify.

Variable ROOT : path.

Definition SKIP_DIRS : list string :=
  [ "node_modules"; "vendor"; "storage"; "public"; "bootstrap";
    ".git"; ".idea"; ".vscode"; "vendor-bin" ].

Definition SKIP_SCHEMES : list string := [ "http"; "https"; "mailto"; "tel" ].

(** [LINK_RE] at the head of [s]: an opening bracket, the longest run of
    characters other than a closing bracket (at least one), a closing
    bracket and an opening parenthesis, the longest run of characters other
    than a closing parenthesis (at least one) and a closing parenthesis.
    The result is group 1 and the length of the match. *)
Definition match_link (s : string) : option (string * nat) :=
  match s with
  | String "[" s1 =>
      let (label, s2) := Url.break_at (Ascii.eqb "]") s1 in
      match label, s2 with
      | String _ _, String _ (String "(" s3) =>
          let (href, s4) := Url.break_at (Ascii.eqb ")") s3 in
          match href, s4 with
          | String _ _, String _ _ =>
              Some (href, 4 + String.length label + String.length href)
          | _, _ => None
          end
      | _, _ => None
      end
  | _ => None
  end.

(** [LINK_RE.finditer(text)], as the list of the groups 1: matches are
    taken from the left and do not overlap.  [skip] counts the characters of
    the current match still to be passed. *)
Fixpoint finditer_from (skip : nat) (text : string) : list string :=
  match text with
  | EmptyString => []
  | String _ text' =>
      match skip with
      | S k => finditer_from k text'
      | O =>
          match match_link text with
          | Some (href, len) => href :: finditer_from (len - 1) text'
          | None => finditer_from 0 text'
          end
      end
  end.

Definition finditer (text : string) : list string := finditer_from 0 text.

Definition iter_markdown (fs : FS.node) : list path :=
  filter (fun p => negb (existsb (fun part => mem_string part SKIP_DIRS) p))
         (FS.rglob pat_md fs ROOT).

Definition should_check (href : string) : bool :=
  let href := Str.strip href in
  if (href =? "") || Str.startswith "#" href || Str.startswith "//" href then false
  else
    let parsed := Url.urlparse href in
    if mem_string (Url.scheme parsed) SKIP_SCHEMES then false
    else Str.endswith ".md" (Url.path parsed).

(** The first part of [resolve_target]: the path of the link, taken from
    the directory of [current_file] or from [ROOT], and normalized.  The
    [ValueError] of [relative_to("/")] for a path that starts with exactly
    two slashes is not caught.  ([resolve()] also raises [ValueError] for a
    path that holds a NUL character; that case is left out.) *)
Definition target_path (current_file : path) (href : string) : res path :=
  let parsed := Url.urlparse href in
  let path := Url.unquote (Url.path parsed) in
  let path := Str.before "?" (Str.before "#" path) in
  match Path.anchor_of path with
  | Path.Relative =>
      Ok (Path.resolve (Path.parent current_file ++ Path.parts path)%list)
  | Path.Slash => Ok (Path.resolve (ROOT ++ Path.parts path)%list)
  | Path.TwoSlashes => Raise ValueError
  end.

(** [resolve_target]: [Ok None] is the [None] returned for a target outside
    [ROOT]. *)
Definition resolve_target (current_file : path) (href : string) : res (option path) :=
  target <- target_path current_file href ;;
  match Path.relative_to target ROOT with
  | None => Ok None
  | Some _ => Ok (Some target)
  end.

(** [md_file.read_text(encoding="utf-8")] with the [UnicodeDecodeError]
    caught: [Ok None] stands for the [continue]. *)
Definition read_text (fs : FS.node) (p : path) : res (option string) :=
  match FS.lookup fs p with
  | Some (FS.File (FS.Text text)) => Ok (Some text)
  | Some (FS.File FS.Binary) => Ok None
  | Some (FS.Dir _) => Raise IsADirectoryError
  | None => Raise FileNotFoundError
  end.

Definition rel_str (p : path) : string :=
  match Path.relative_to p ROOT with
  | Some rel => Path.as_posix rel
  | None => Path.to_str p
  end.

Definition error_line (md_file : path) (href : string) : string :=
  rel_str md_file ++ " -> " ++ href.

(** The loop over the links of one file.  ([exists()] raises [OSError] for
    a name longer than the file system allows; that case is left out.) *)
Fixpoint check_links (fs : FS.node) (md_file : path) (errors : list string)
  (hrefs : list string) : res (list string) :=
  match hrefs with
  | [] => Ok errors
  | href :: hrefs' =>
      if negb (should_check href) then check_links fs md_file errors hrefs'
      else
        target <- resolve_target md_file href ;;
        match target with
        | Some t =>
            if FS.exists_ fs t then check_links fs md_file errors hrefs'
            else check_links fs md_file (errors ++ [error_line md_file href])%list hrefs'
        | None => check_links fs md_file (errors ++ [error_line md_file href])%list hrefs'
        end
  end.

(** The loop over [iter_markdown()]. *)
Fixpoint check_files (fs : FS.node) (errors : list string) (files : list path)
  : res (list string) :=
  match files with
  | [] => Ok errors
  | md_file :: files' =>
      text <- read_text fs md_file ;;
      match text with
      | None => check_files fs errors files'
      | Some text =>
          errors' <- check_links fs md_file errors (finditer text) ;;
          check_files fs errors' files'
      end
  end.

(** [main]: the lines printed and the exit code returned, or the exception
    that ends the run. *)
Definition main (fs : FS.node) : res (list string * nat) :=
  errors <- check_files fs [] (iter_markdown fs) ;;
  if truthy errors then
    Ok (["Broken Markdown links found:"]
        ++ map (fun err => (" - " ++ err)%string) errors
        ++ [(nl ++ "Fix or remove the broken links above.")%string], 1)%list
  else Ok (["Markdown link check passed."], 0).

End Verify.
End Verify.

(** ** Vocabulary of the statements *)

(** Every keyword occurs in [name]. *)
Definition all_occur (keywords : list string) (name : string) : Prop :=
  forall k, In k keywords -> exists a b, name = a ++ k ++ b.

(** The destination that [move_stray_files] computes for [source]. *)
Definition destination_of (ROOT : path) (source : path) : path :=
  Path.child (Organize.guess_target_folder ROOT (Path.stem source)) (Path.name source).

(** [folder] is written as a relative path that starts with [docs/]. *)
Definition under_docs (folder : string) : bool :=
  match Path.anchor_of folder, Path.parts folder with
  | Path.Relative, c :: _ => (c =? "docs") && Str.startswith "docs/" folder
  | _, _ => false
  end.

(** The names listed in the directory [p], in order; none when [p] is not a
    directory. *)
Definition names (fs : FS.node) (p : path) : list string :=
  match FS.lookup fs p with
  | Some (FS.Dir es) => map fst es
  | _ => []
  end.

(** The names in [p] that match [*.md]. *)
Definition md_names (fs : FS.node) (p : path) : list string :=
  filter pat_md (names fs p).

(** The second component of every folder of the table, and of the default,
    does not match [*.md]. *)
Definition plain_subfolder (folder : string) : bool :=
  match Path.anchor_of folder, Path.parts folder with
  | Path.Relative, c :: d :: _ => (c =? "docs") && negb (pat_md d)
  | _, _ => false
  end.

(** [p] holds a regular file with content [c]. *)
Definition file_at (fs : FS.node) (p : path) (c : FS.content) : Prop :=
  FS.lookup fs p = Some (FS.File c).

(** [href] is a link of the scanned file [md_file] that is in scope: the
    file is among those [iter_markdown] yields, its text decodes, the pattern
    finds [href] there, and [should_check] keeps it. *)
Definition scanned_link (ROOT : path) (fs : FS.node) (md_file : path) (href : string)
  : Prop :=
  In md_file (Verify.iter_markdown ROOT fs)
  /\ exists text,
       file_at fs md_file (FS.Text text)
       /\ In href (Verify.finditer text)
       /\ Verify.should_check href = true.

(** [href], read in [md_file], resolves to a path within [ROOT] that
    exists. *)
Definition resolves (ROOT : path) (fs : FS.node) (md_file : path) (href : string)
  : Prop :=
  exists target,
    Verify.resolve_target ROOT md_file href = Ok (Some target)
    /\ FS.exists_ fs target = true.

(** [href], read in [md_file], is reported. *)
Definition broken (ROOT : path) (fs : FS.node) (md_file : path) (href : string) : bool :=
  match Verify.resolve_target ROOT md_file href with
  | Ok (Some target) => negb (FS.exists_ fs target)
  | _ => true
  end.

(** The links to report, file by file and in the order of the text. *)
Definition broken_links_of (ROOT : path) (fs : FS.node) (md_file : path)
  (hrefs : list string) : list (path * string) :=
  map (pair md_file)
      (filter (fun href => Verify.should_check href && broken ROOT fs md_file href) hrefs).

Definition broken_links (ROOT : path) (fs : FS.node) : list (path * string) :=
  flat_map (fun md_file =>
              match FS.lookup fs md_file with
              | Some (FS.File (FS.Text text)) =>
                  broken_links_of ROOT fs md_file (Verify.finditer text)
              | _ => []
              end)
           (Verify.iter_markdown ROOT fs).

Definition error_lines (ROOT : path) (pairs : list (path * string)) : list string :=
  map (fun pr => Verify.error_line ROOT (fst pr) (snd pr)) pairs.

Definition report (ROOT : path) (pairs : list (path * string)) : list string :=
  (["Broken Markdown links found:"]
   ++ map (fun pr => (" - " ++ Verify.error_line ROOT (fst pr) (snd pr))%string) pairs
   ++ [(nl ++ "Fix or remove the broken links above.")%string])%list.

(** [set_iter] enumerates a set: the elements given, each once, in some
    order. *)
Definition enumerates_sets (set_iter : list string -> list string) : Prop :=
  forall l, Permutation (nodup string_dec l) (set_iter l).



(** The characters of ASCII. *)
Definition is_ascii (c : ascii) : bool := (nat_of_ascii c <? 128)%nat.

(** The characters of ASCII other than the brackets of a bracketed host. *)
Definition plain_url_char (c : ascii) : bool :=
  is_ascii c && negb (Ascii.eqb c "[") && negb (Ascii.eqb c "]").

(** ** Trees used in the examples *)

Module Scenario.

Import FS.

(** The repository is at [/srv/repo]. *)
Definition R0 : path := ["srv"; "repo"].

Definition at_R0 (repo : entries) : node := Dir [("srv", Dir [("repo", Dir repo)])].

Definition x_md : path := (R0 ++ ["x.md"])%list.
Definition y_md : path := (R0 ++ ["y.md"])%list.
Definition b_md : path := (R0 ++ ["a"; "b.md"])%list.
Definition misc_x_md : path := (R0 ++ ["docs"; "misc"; "x.md"])%list.

(** [x.md] was moved to [docs/misc]; [a/b.md] holds [b_text]. *)
Definition rewrite_tree (b_text : string) : node :=
  at_R0 [ ("a", Dir [("b.md", File (Text b_text))]);
          ("docs", Dir [("misc", Dir [("x.md", File (Text "moved"))])]) ].

(** A stray [x.md] whose destination [docs/misc/x.md] exists. *)
Definition conflict_tree : node :=
  at_R0 [ ("x.md", File (Text "new"));
          ("docs", Dir [("misc", Dir [("x.md", File (Text "old"))])]) ].

(** The same, with one more stray that can be moved. *)
Definition conflict_tree_2 : node :=
  at_R0 [ ("y.md", File (Text "why"));
          ("x.md", File (Text "new"));
          ("docs", Dir [("misc", Dir [("x.md", File (Text "old"))])]) ].

(** A stray, and a file that does not belong in the docs root. *)
Definition stray_and_extra_tree : node :=
  at_R0 [ ("x.md", File (Text "stray"));
          ("docs", Dir [("README.md", File (Text "index"));
                        ("EXTRA.md", File (Text "extra"))]) ].

(** A stray with a link to it, to be fixed. *)
Definition fixable_tree : node :=
  at_R0 [ ("README.md", File (Text "See [notes](notes.md)."));
          ("notes.md", File (Text "Notes."));
          ("docs", Dir [("README.md", File (Text "index"))]) ].

(** Markdown files with links, two of them broken. *)
Definition linked_tree : node :=
  at_R0 [ ("README.md",
           File (Text "[a](docs/a.md) [web](https://example.com/x.md) [gone](gone.md)"));
          ("docs", Dir [("a.md", File (Text "[b](./b.md) [up](../../outside.md) [top](#top)"));
                        ("b.md", File (Text "b"))]) ].

Definition sound_tree : node :=
  at_R0 [ ("README.md", File (Text "[a](docs/a.md) [web](https://example.com/x.md)"));
          ("docs", Dir [("a.md", File (Text "[r](../README.md)"))]) ].

End Scenario.

(** ** Well-formed trees *)

(** No string occurs twice in [l]. *)
Fixpoint unique (l : list string) : bool :=
  match l with
  | [] => true
  | x :: l' => negb (mem_string x l') && unique l'
  end.

(** No directory of the tree lists a name twice. *)
Fixpoint well_formed (n : FS.node) : bool :=
  match n with
  | FS.File _ => true
  | FS.Dir es => unique (map fst es) && forallb (fun e => well_formed (snd e)) es
  end.

(** The spellings of [old_rel] that the rewriter looks for in [file_path],
    as they are written in the source. *)
Definition spellings (ROOT : path) (file_path : path) (old_rel : string) : list string :=
  let old_rel_from_file :=
    Path.relpath (Path.join ROOT old_rel) (Path.parent file_path) in
  [ old_rel; "./" ++ old_rel; old_rel_from_file; "./" ++ old_rel_from_file ].

(** [text] holds none of the spellings of a key of [mapping]. *)
Definition mentions_none (ROOT : path) (file_path : path)
  (mapping : list (string * path)) (text : string) : Prop :=
  forall old_rel new_abs needle,
    In (old_rel, new_abs) mapping ->
    In needle (spellings ROOT file_path old_rel) ->
    Str.contains needle text = false.

(** [p] is neither at or below [docs] nor above it. *)
Definition away_from_docs (ROOT p : path) : Prop :=
  Path.is_relative_to p (ROOT ++ ["docs"])%list = false
  /\ Path.is_relative_to (ROOT ++ ["docs"])%list p = false.

(** What [update_links] leaves in a regular file at [p] that held [c]:
    the text of a file among [files] is rewritten, everything else is kept. *)
Definition rewritten_content (ROOT : path) (set_iter : list string -> list string)
  (mapping : list (string * path)) (files : list path) (p : path) (c : FS.content)
  : FS.content :=
  match c with
  | FS.Text t =>
      if mem_path p files
      then FS.Text (Organize.rewrite_text ROOT set_iter p mapping t)
      else c
  | FS.Binary => c
  end.

(** The rewriting changes the text of [f]. *)
Definition text_changes (ROOT : path) (set_iter : list string -> list string)
  (mapping : list (string * path)) (fs : FS.node) (f : path) : bool :=
  match FS.lookup fs f with
  | Some (FS.File (FS.Text t)) =>
      negb (Organize.rewrite_text ROOT set_iter f mapping t =? t)
  | _ => false
  end.

(** The characters of a name that a link can spell as it is: not one that
    [urlparse] removes or splits at, nor [%], nor the separator. *)
Definition link_char (c : ascii) : bool :=
  negb (Url.is_unsafe c)
  && negb (existsb (Ascii.eqb c) ["/"; ":"; "?"; "#"; ";"; "%"]%char).

(** A name made of such characters that is not empty, [.] or [..] and
    does not start with a space or a control character. *)
Definition plain_name (n : string) : bool :=
  negb (n =? "") && negb (n =? ".") && negb (n =? "..")
  && Str.all_chars link_char n
  && negb (Url.head_is Url.is_c0_or_space n).

(** ** More trees for the examples *)

Module Cases.

Import FS.

(** A repository below a directory named [vendor], with a stray. *)
Definition vendor_root : path := ["srv"; "vendor"].

Definition vendor_root_tree : node :=
  Dir [("srv", Dir [("vendor", Dir [("x.md", File (Text "stray"))])])].

Definition notes_md : path := (Scenario.R0 ++ ["notes.md"])%list.
Definition misc_notes_md : path := (Scenario.R0 ++ ["docs"; "misc"; "notes.md"])%list.


(** A stray whose folder cannot be made: [docs/misc] is a regular file. *)
Definition blocked_tree : node :=
  Scenario.at_R0
    [ ("notes.md", File (Text "Notes."));
      ("docs", Dir [("misc", File (Text "in the way"))]) ].

(** A directory that is named like a Markdown file. *)
Definition directory_named_md : node := Scenario.at_R0 [("notes.md", Dir [])].

(** A file with a link to a missing file, followed by a link whose path,
    once unquoted, starts with two slashes. *)
Definition unreported_text : string := "[g](gone.md) [l](%2F%2Fa.md)".

Definition unreported_tree : node :=
  Scenario.at_R0 [("README.md", File (Text unreported_text))].

End Cases.

(** * Properties *)

(** ** Strings *)

Lemma startswith_app (a b : string) : Str.startswith a (a ++ b) = true.
Proof.
  induction a as [|c a IH]; simpl; [reflexivity|].
  now rewrite Ascii.eqb_refl.
Qed.

Lemma startswith_split (a s : string) :
  Str.startswith a s = true -> exists b, s = a ++ b.
Proof.
  revert s; induction a as [|c a IH]; intros s H.
  - now exists s.
  - destruct s as [|d s]; simpl in H; [discriminate|].
    apply andb_true_iff in H as [E H]. apply Ascii.eqb_eq in E as ->.
    destruct (IH _ H) as [b ->]. now exists b.
Qed.

Lemma startswith_spec (a s : string) :
  Str.startswith a s = true <-> exists b, s = a ++ b.
Proof.
  split; [apply startswith_split|].
  intros [b ->]. apply startswith_app.
Qed.

(** [Str.contains] is the occurrence of [needle] somewhere in [hay]. *)
Lemma contains_spec (needle hay : string) :
  Str.contains needle hay = true <-> exists a b, hay = a ++ needle ++ b.
Proof.
  split.
  - induction hay as [|c hay IH]; simpl; intros H.
    + rewrite orb_false_r in H. destruct (startswith_split _ _ H) as [b Hb].
      now exists EmptyString, b.
    + apply orb_true_iff in H as [H|H].
      * destruct (startswith_split _ _ H) as [b Hb]. now exists EmptyString, b.
      * destruct (IH H) as (a & b & ->). now exists (String c a), b.
  - intros (a & b & ->). induction a as [|c a IH].
    + change (EmptyString ++ needle ++ b) with (needle ++ b).
      destruct (needle ++ b) eqn:E; simpl.
      * destruct needle; [reflexivity|discriminate].
      * rewrite <- E, startswith_app. reflexivity.
    + simpl. rewrite IH. apply orb_true_r.
Qed.

Lemma endswith_eq (suf s : string) :
  Str.endswith suf s =
  (s =? suf) || match s with
                | EmptyString => false
                | String _ s' => Str.endswith suf s'
                end.
Proof. destruct s; reflexivity. Qed.

Lemma endswith_spec (suf s : string) :
  Str.endswith suf s = true <-> exists a, s = a ++ suf.
Proof.
  split.
  - induction s as [|c s IH]; rewrite endswith_eq; intros H;
      apply orb_true_iff in H as [H|H]; try discriminate.
    + apply String.eqb_eq in H. now exists EmptyString.
    + apply String.eqb_eq in H. now exists EmptyString.
    + destruct (IH H) as [a ->]. now exists (String c a).
  - intros [a ->]. induction a as [|c a IH].
    + change (EmptyString ++ suf) with suf.
      rewrite endswith_eq. now rewrite String.eqb_refl.
    + change (String c a ++ suf) with (String c (a ++ suf)).
      rewrite endswith_eq in IH. rewrite endswith_eq. cbv beta iota.
      rewrite (endswith_eq suf (a ++ suf)), IH. apply orb_true_r.
Qed.

Lemma upper_char_idem (c : ascii) : Str.upper_char (Str.upper_char c) = Str.upper_char c.
Proof.
  destruct c as [[] [] [] [] [] [] [] []]; reflexivity.
Qed.

Lemma upper_lower_char (c : ascii) : Str.upper_char (Str.lower_char c) = Str.upper_char c.
Proof.
  destruct c as [[] [] [] [] [] [] [] []]; reflexivity.
Qed.

Lemma upper_idem (s : string) : Str.upper (Str.upper s) = Str.upper s.
Proof.
  induction s as [|c s IH]; simpl; [reflexivity|].
  unfold Str.upper in *; simpl. now rewrite upper_char_idem, IH.
Qed.

Lemma upper_lower (s : string) : Str.upper (Str.lower s) = Str.upper s.
Proof.
  induction s as [|c s IH]; simpl; [reflexivity|].
  unfold Str.upper, Str.lower in *; simpl. now rewrite upper_lower_char, IH.
Qed.

Lemma str_app_assoc (a b c : string) : (a ++ b) ++ c = a ++ b ++ c.
Proof.
  induction a as [|x a IH]; simpl; [reflexivity|]. now rewrite IH.
Qed.

Lemma str_app_nil_r (a : string) : a ++ "" = a.
Proof.
  induction a as [|x a IH]; simpl; [reflexivity|]. now rewrite IH.
Qed.

(** A string joined with others occurs in the result. *)
Lemma join_occurs (sep w : string) (ws : list string) :
  In w ws -> exists a b, Str.join sep ws = a ++ w ++ b.
Proof.
  induction ws as [|v ws IH]; intros H; [contradiction|].
  destruct H as [->|H].
  - destruct ws as [|v' ws].
    + exists "", "". simpl. now rewrite str_app_nil_r.
    + exists "", (sep ++ Str.join sep (v' :: ws)). reflexivity.
  - destruct (IH H) as (a & b & E).
    destruct ws as [|v' ws]; [contradiction|].
    exists (v ++ sep ++ a), b.
    change (Str.join sep (v :: v' :: ws)) with (v ++ sep ++ Str.join sep (v' :: ws)).
    now rewrite E, !str_app_assoc.
Qed.

(** ** Paths *)

Lemma path_eqb_eq (p q : path) : Path.eqb p q = true <-> p = q.
Proof.
  unfold Path.eqb. destruct (list_eq_dec string_dec p q); split; congruence.
Qed.

Lemma path_eqb_refl (p : path) : Path.eqb p p = true.
Proof. now apply path_eqb_eq. Qed.

Lemma mem_path_In (x : path) (l : list path) : mem_path x l = true <-> In x l.
Proof.
  unfold mem_path. rewrite existsb_exists. split.
  - intros (y & Hy & E). apply path_eqb_eq in E. now subst.
  - intros H. exists x. split; [assumption|apply path_eqb_refl].
Qed.

Lemma relative_to_app (base r : path) :
  Path.relative_to (base ++ r)%list base = Some r.
Proof.
  induction base as [|b base IH]; simpl; [reflexivity|].
  now rewrite String.eqb_refl.
Qed.

Lemma relative_to_split (p base r : path) :
  Path.relative_to p base = Some r -> p = (base ++ r)%list.
Proof.
  revert p; induction base as [|b base IH]; intros p H; simpl in *.
  - congruence.
  - destruct p as [|c p]; [discriminate|].
    destruct (String.eqb_spec c b) as [->|]; [|discriminate].
    now rewrite (IH _ H).
Qed.

Lemma is_relative_to_spec (p base : path) :
  Path.is_relative_to p base = true <-> exists r, p = (base ++ r)%list.
Proof.
  unfold Path.is_relative_to. split.
  - destruct (Path.relative_to p base) eqn:E; [|discriminate].
    intros _. eexists. eapply relative_to_split; eassumption.
  - intros [r ->]. now rewrite relative_to_app.
Qed.

Lemma parents_snoc (p : path) (x : string) :
  Path.parents (p ++ [x])%list = p :: Path.parents p.
Proof.
  unfold Path.parents. rewrite length_app, Nat.add_comm. simpl.
  now rewrite removelast_last.
Qed.

Lemma parents_app (base r : path) :
  r <> [] -> In base (Path.parents (base ++ r)%list).
Proof.
  induction r as [|x r IH] using rev_ind; intros H; [congruence|].
  rewrite app_assoc, parents_snoc.
  destruct r as [|y r].
  - left. now rewrite app_nil_r.
  - right. apply IH. discriminate.
Qed.

(** [prefix in p.parents or p == prefix] holds of every path at or below
    [prefix]. *)
Lemma below_prefix (p prefix : path) :
  Path.is_relative_to p prefix = true ->
  mem_path prefix (Path.parents p) || Path.eqb p prefix = true.
Proof.
  intros H. apply is_relative_to_spec in H as [r ->].
  destruct r as [|x r].
  - rewrite app_nil_r, path_eqb_refl. apply orb_true_r.
  - apply orb_true_iff. left. apply mem_path_In, parents_app. discriminate.
Qed.

(** ** The classifier *)

Section Classifier.

Variable ROOT : path.

Lemma rule_matches_spec (name : string) (keywords : list string) :
  Organize.rule_matches name keywords = true <-> all_occur keywords name.
Proof.
  unfold Organize.rule_matches, all_occur. rewrite forallb_forall.
  split; intros H k Hk.
  - apply contains_spec, H, Hk.
  - apply contains_spec, H, Hk.
Qed.

Lemma rule_matches_false (name : string) (keywords : list string) :
  ~ all_occur keywords name -> Organize.rule_matches name keywords = false.
Proof.
  intros H. destruct (Organize.rule_matches name keywords) eqn:E; [|reflexivity].
  now apply rule_matches_spec in E.
Qed.

Lemma first_match_split name pre keywords folder post :
  (forall r, In r pre -> ~ all_occur (fst r) name) ->
  all_occur keywords name ->
  Organize.first_match name (pre ++ (keywords, folder) :: post)%list = Some folder.
Proof.
  intros Hpre Hk. induction pre as [|[kws f] pre IH]; simpl.
  - apply rule_matches_spec in Hk. now rewrite Hk.
  - pose proof (Hpre (kws, f) (or_introl eq_refl)) as Hn. simpl in Hn.
    rewrite (rule_matches_false _ _ Hn).
    apply IH. intros r Hr. apply Hpre. now right.
Qed.

Lemma first_match_none name rules :
  (forall r, In r rules -> ~ all_occur (fst r) name) ->
  Organize.first_match name rules = None.
Proof.
  induction rules as [|[kws f] rules IH]; intros H; simpl; [reflexivity|].
  pose proof (H (kws, f) (or_introl eq_refl)) as Hn. simpl in Hn.
  rewrite (rule_matches_false _ _ Hn).
  apply IH. intros r Hr. apply H. now right.
Qed.

Lemma first_match_in name rules folder :
  Organize.first_match name rules = Some folder -> In folder (map snd rules).
Proof.
  induction rules as [|[kws f] rules IH]; simpl; [discriminate|].
  destruct (Organize.rule_matches name kws).
  - intros [= ->]. now left.
  - intros H. right. now apply IH.
Qed.

(** Every folder of the table, and the default, is under [docs]. *)
Lemma folders_under_docs :
  forallb under_docs ("docs/misc" :: map snd Organize.patterns) = true.
Proof. vm_compute. reflexivity. Qed.

Lemma under_docs_join (folder : string) :
  under_docs folder = true ->
  exists rest, Path.join ROOT folder = (ROOT ++ "docs" :: rest)%list.
Proof.
  unfold under_docs, Path.join.
  destruct (Path.anchor_of folder); try discriminate.
  destruct (Path.parts folder) as [|c rest]; [discriminate|].
  intros H. apply andb_true_iff in H as [H _]. apply String.eqb_eq in H as ->.
  now exists rest.
Qed.

Lemma guess_target_folder_under_docs (stem : string) :
  exists rest, Organize.guess_target_folder ROOT stem = (ROOT ++ "docs" :: rest)%list.
Proof.
  pose proof folders_under_docs as H. rewrite forallb_forall in H.
  unfold Organize.guess_target_folder.
  destruct (Organize.first_match (Str.upper stem) Organize.patterns) as [folder|] eqn:E.
  - apply under_docs_join, H. right. eapply first_match_in; eassumption.
  - apply under_docs_join, H. now left.
Qed.

Lemma docs_prefix_allowed (p : path) :
  Path.is_relative_to p (ROOT ++ ["docs"])%list = true ->
  Organize.is_allowed ROOT p = true.
Proof.
  intros H. unfold Organize.is_allowed.
  destruct (mem_path p (Organize.ALLOWED_ROOT_FILES ROOT)); [reflexivity|].
  apply existsb_exists. exists (ROOT ++ ["docs"])%list. split.
  - left. reflexivity.
  - now apply below_prefix.
Qed.

Lemma destination_allowed (source : path) :
  Organize.is_allowed ROOT (destination_of ROOT source) = true.
Proof.
  apply docs_prefix_allowed, is_relative_to_spec.
  unfold destination_of, Path.child.
  destruct (guess_target_folder_under_docs (Path.stem source)) as [rest ->].
  destruct (Path.name source =? "").
  - exists rest. now rewrite <- app_assoc.
  - exists (rest ++ [Path.name source])%list. now rewrite <- !app_assoc.
Qed.

Lemma allowed_not_stray (fs : FS.node) (p : path) :
  Organize.is_allowed ROOT p = true -> ~ In p (Organize.find_stray_markdown ROOT fs).
Proof.
  unfold Organize.find_stray_markdown. intros H Hin.
  apply filter_In in Hin as [_ Hin]. now rewrite H in Hin.
Qed.

(** The moves recorded by the loop are those it was given and, after
    them, one per source, to the destination computed for it. *)
Lemma move_loop_moves fs acc strays fs' moves :
  Organize.move_loop ROOT fs acc strays = (fs', Ok moves) ->
  moves = (acc ++ map (fun s => (s, destination_of ROOT s)) strays)%list.
Proof.
  revert fs acc. induction strays as [|s strays IH]; intros fs acc H; simpl in H.
  - injection H as _ <-. now rewrite app_nil_r.
  - destruct (FS.mkdir_p fs _) as [fs1|e]; [|discriminate].
    destruct (FS.exists_ fs1 _); [discriminate|].
    destruct (FS.shutil_move fs1 s _) as [fs2|e]; [|discriminate].
    apply IH in H. subst moves. now rewrite <- app_assoc.
Qed.

End Classifier.

Section ClassifierClaims.

Variable ROOT : path.

(** C3.  For a stem of ASCII characters, on which [Str.upper] is
    [str.upper()]: [guess_target_folder] is a function of the uppercased
    stem alone (so of the stem up to the case of its letters).  It returns
    the folder of the first rule of [patterns] all of whose keywords occur in
    the uppercased stem, and [docs/misc] when no rule has all its keywords
    there; a stem whose uppercase form holds both NEWS and SECURITY goes to
    [docs/news/security], which is not [docs/news]. *)
Theorem guess_target_folder_first_rule (stem : string) :
  Str.all_chars is_ascii stem = true ->
  (forall pre keywords folder post,
      Organize.patterns = (pre ++ (keywords, folder) :: post)%list ->
      (forall r, In r pre -> ~ all_occur (fst r) (Str.upper stem)) ->
      all_occur keywords (Str.upper stem) ->
      Organize.guess_target_folder ROOT stem = Path.join ROOT folder)
  /\ ((forall r, In r Organize.patterns -> ~ all_occur (fst r) (Str.upper stem)) ->
      Organize.guess_target_folder ROOT stem = (ROOT ++ ["docs"; "misc"])%list)
  /\ (all_occur ["NEWS"; "SECURITY"] (Str.upper stem) ->
      Organize.guess_target_folder ROOT stem = (ROOT ++ ["docs"; "news"; "security"])%list
      /\ Organize.guess_target_folder ROOT stem <> (ROOT ++ ["docs"; "news"])%list)
  /\ (forall stem', Str.all_chars is_ascii stem' = true ->
      Str.upper stem' = Str.upper stem ->
      Organize.guess_target_folder ROOT stem' = Organize.guess_target_folder ROOT stem)
  /\ Organize.guess_target_folder ROOT (Str.lower stem) = Organize.guess_target_folder ROOT stem
  /\ Organize.guess_target_folder ROOT (Str.upper stem) = Organize.guess_target_folder ROOT stem.
Proof.
  intros _.
  repeat split.
  - intros pre keywords folder post Hp Hpre Hk.
    unfold Organize.guess_target_folder. rewrite Hp.
    now rewrite (first_match_split _ pre keywords folder post Hpre Hk).
  - intros Hnone. unfold Organize.guess_target_folder.
    now rewrite (first_match_none _ _ Hnone).
  - unfold Organize.guess_target_folder.
    apply rule_matches_spec in H.
    change Organize.patterns with
      ((["NEWS"; "SECURITY"], "docs/news/security") :: tl Organize.patterns).
    cbn [Organize.first_match]. now rewrite H.
  - unfold Organize.guess_target_folder.
    apply rule_matches_spec in H.
    change Organize.patterns with
      ((["NEWS"; "SECURITY"], "docs/news/security") :: tl Organize.patterns).
    cbn [Organize.first_match]. rewrite H.
    change (Path.join ROOT "docs/news/security")
      with (ROOT ++ ["docs"; "news"; "security"])%list.
    intros E. apply app_inv_head in E. discriminate.
  - intros stem' _ E. unfold Organize.guess_target_folder. now rewrite E.
  - unfold Organize.guess_target_folder. now rewrite upper_lower.
  - unfold Organize.guess_target_folder. now rewrite upper_idem.
Qed.

(** C9.  Every folder of the rule table and the default are written
    [docs/...]; the folder computed for any stem is below [ROOT/docs], which
    is one of [ALLOWED_PREFIXES]; so the destination computed for any source
    is allowed and is never among the strays, and this holds of the
    destination of every move that [move_stray_files] records. *)
Theorem destination_never_stray (stem : string) :
  forallb under_docs ("docs/misc" :: map snd Organize.patterns) = true
  /\ Path.is_relative_to (Organize.guess_target_folder ROOT stem) (ROOT ++ ["docs"])%list = true
  /\ In (ROOT ++ ["docs"])%list (Organize.ALLOWED_PREFIXES ROOT)
  /\ (forall source,
        Organize.is_allowed ROOT (destination_of ROOT source) = true
        /\ forall fs, ~ In (destination_of ROOT source) (Organize.find_stray_markdown ROOT fs))
  /\ (forall fs strays fs' moves,
        Organize.move_stray_files ROOT fs strays = (fs', Ok moves) ->
        forall src dst, In (src, dst) moves ->
          Organize.is_allowed ROOT dst = true
          /\ forall fs'', ~ In dst (Organize.find_stray_markdown ROOT fs'')).
Proof.
  split; [apply folders_under_docs|].
  split.
  { apply is_relative_to_spec.
    destruct (guess_target_folder_under_docs ROOT stem) as [rest ->].
    exists rest. now rewrite <- app_assoc. }
  split; [now left|].
  split.
  { intros source. split; [apply destination_allowed|].
    intros fs. apply allowed_not_stray, destination_allowed. }
  intros fs strays fs' moves H src dst Hin.
  apply move_loop_moves in H. subst moves. simpl in Hin.
  apply in_map_iff in Hin as (s & [= <- <-] & _).
  split; [apply destination_allowed|].
  intros fs''. apply allowed_not_stray, destination_allowed.
Qed.

End ClassifierClaims.

(** ** The file system *)

Section FileSystem.

Import FS.

Lemma assoc_set_entry_same c x es : assoc c (set_entry c x es) = Some x.
Proof.
  induction es as [|[d y] es IH]; simpl.
  - now rewrite String.eqb_refl.
  - destruct (String.eqb_spec c d) as [->|Hn]; simpl.
    + now rewrite String.eqb_refl.
    + destruct (String.eqb_spec c d); [contradiction|assumption].
Qed.

Lemma assoc_set_entry_other c d x es :
  d <> c -> assoc d (set_entry c x es) = assoc d es.
Proof.
  intros Hn. induction es as [|[e y] es IH]; simpl.
  - destruct (String.eqb_spec d c); [contradiction|reflexivity].
  - destruct (String.eqb_spec c e) as [->|Hce]; simpl.
    + destruct (String.eqb_spec d e); [contradiction|reflexivity].
    + destruct (String.eqb_spec d e); [reflexivity|assumption].
Qed.

Lemma set_entry_id c x es : assoc c es = Some x -> set_entry c x es = es.
Proof.
  induction es as [|[d y] es IH]; simpl; [discriminate|].
  destruct (String.eqb_spec c d) as [->|Hn].
  - now intros [= ->].
  - intros H. now rewrite IH.
Qed.

Lemma assoc_del_entry_same c es : assoc c (del_entry c es) = None.
Proof.
  induction es as [|[d y] es IH]; simpl; [reflexivity|].
  destruct (String.eqb_spec c d) as [->|Hn]; [assumption|].
  simpl. destruct (String.eqb_spec c d); [contradiction|assumption].
Qed.

Lemma assoc_del_entry_other c d es :
  d <> c -> assoc d (del_entry c es) = assoc d es.
Proof.
  intros Hn. induction es as [|[e y] es IH]; simpl; [reflexivity|].
  destruct (String.eqb_spec c e) as [->|Hce]; simpl.
  - destruct (String.eqb_spec d e); [contradiction|assumption].
  - destruct (String.eqb_spec d e); [reflexivity|assumption].
Qed.

Lemma map_fst_set_entry_id c x y es :
  assoc c es = Some y -> map fst (set_entry c x es) = map fst es.
Proof.
  induction es as [|[d z] es IH]; simpl; [discriminate|].
  destruct (String.eqb_spec c d) as [->|Hn]; simpl; [reflexivity|].
  intros H. now rewrite IH.
Qed.

Lemma lookup_app fs p q :
  lookup fs (p ++ q)%list =
  match lookup fs p with
  | Some n => lookup n q
  | None => None
  end.
Proof.
  revert fs. induction p as [|c p IH]; intros fs; simpl; [reflexivity|].
  destruct fs as [|es]; [reflexivity|].
  destruct (assoc c es); [apply IH|reflexivity].
Qed.

(** What lies below an entry that exists lies in a directory. *)
Lemma lookup_below_is_dir fs p c q x :
  lookup fs (p ++ c :: q)%list = Some x -> is_dir fs p = true.
Proof.
  unfold is_dir. rewrite lookup_app.
  destruct (lookup fs p) as [[|es]|]; simpl; try discriminate. reflexivity.
Qed.

Lemma relative_to_cons c p d base :
  Path.is_relative_to (c :: p) (d :: base) = (c =? d) && Path.is_relative_to p base.
Proof.
  unfold Path.is_relative_to. simpl. now destruct (c =? d).
Qed.

Lemma fresh_dirs_no_file p q c : lookup (fresh_dirs p) q <> Some (File c).
Proof.
  revert q. induction p as [|d p IH]; intros [|e q]; simpl; try discriminate.
  destruct (e =? d); [apply IH|discriminate].
Qed.

Lemma fresh_dirs_is_dir p : is_dir (fresh_dirs p) p = true.
Proof.
  unfold is_dir. induction p as [|d p IH]; simpl; [reflexivity|].
  now rewrite String.eqb_refl.
Qed.

(** [mkdir_p] leaves the tree as it is when the directory exists. *)
Lemma mkdir_p_noop fs p : is_dir fs p = true -> mkdir_p fs p = Ok fs.
Proof.
  unfold is_dir. revert fs. induction p as [|c p IH]; intros fs; simpl.
  - destruct fs; [discriminate|reflexivity].
  - destruct fs as [|es]; [discriminate|].
    destruct (assoc c es) as [x|] eqn:E; [|discriminate].
    intros H. rewrite (IH _ H). simpl. now rewrite (set_entry_id _ _ _ E).
Qed.

Lemma mkdir_p_is_dir fs p fs' : mkdir_p fs p = Ok fs' -> is_dir fs' p = true.
Proof.
  unfold is_dir. revert fs fs'. induction p as [|c p IH]; intros fs fs'; simpl.
  - destruct fs; [discriminate|]. now intros [= <-].
  - destruct fs as [|es]; [discriminate|].
    destruct (assoc c es) as [x|] eqn:E.
    + destruct (mkdir_p x p) as [x'|] eqn:M; simpl; [|discriminate].
      intros [= <-]. rewrite assoc_set_entry_same. now apply (IH x).
    + intros [= <-]. rewrite assoc_set_entry_same. apply fresh_dirs_is_dir.
Qed.

(** [mkdir_p] neither adds, removes nor changes a regular file. *)
Lemma mkdir_p_files fs d fs' p c :
  mkdir_p fs d = Ok fs' -> (file_at fs p c <-> file_at fs' p c).
Proof.
  unfold file_at. revert fs fs' p. induction d as [|e d IH]; intros fs fs' p; simpl.
  - destruct fs; [discriminate|]. now intros [= <-].
  - destruct fs as [|es]; [discriminate|].
    destruct (assoc e es) as [x|] eqn:E.
    + destruct (mkdir_p x d) as [x'|] eqn:M; simpl; [|discriminate].
      intros [= <-]. destruct p as [|a p]; simpl; [split; discriminate|].
      destruct (String.eqb_spec a e) as [->|Hn].
      * rewrite assoc_set_entry_same, E. now apply IH.
      * now rewrite assoc_set_entry_other.
    + intros [= <-]. destruct p as [|a p]; simpl; [split; discriminate|].
      destruct (String.eqb_spec a e) as [->|Hn].
      * rewrite assoc_set_entry_same, E. split; [discriminate|].
        intros H. now apply fresh_dirs_no_file in H.
      * now rewrite assoc_set_entry_other.
Qed.

(** [remove] keeps the regular files that are not at or below [src], and
    brings no regular file. *)
Lemma remove_keeps fs src p c :
  file_at fs p c -> Path.is_relative_to p src = false -> file_at (remove fs src) p c.
Proof.
  unfold file_at. revert fs p. induction src as [|e src IH]; intros fs p H R.
  - discriminate.
  - simpl. destruct fs as [|es]; [assumption|].
    destruct p as [|a p]; [discriminate|].
    rewrite relative_to_cons in R. simpl in H.
    destruct src as [|e' src].
    + simpl. destruct (String.eqb_spec a e) as [->|Hn].
      * now destruct p.
      * now rewrite assoc_del_entry_other.
    + destruct (assoc e es) as [x|] eqn:E; [|assumption].
      simpl. destruct (String.eqb_spec a e) as [->|Hn].
      * rewrite assoc_set_entry_same. rewrite E in H. now apply IH.
      * now rewrite assoc_set_entry_other.
Qed.

Lemma remove_brings_nothing fs src p c :
  file_at (remove fs src) p c -> file_at fs p c.
Proof.
  unfold file_at. revert fs p. induction src as [|e src IH]; intros fs p; simpl.
  - trivial.
  - destruct fs as [|es]; [trivial|].
    destruct src as [|e' src].
    + destruct p as [|a p]; simpl; [discriminate|].
      destruct (String.eqb_spec a e) as [->|Hn].
      * now rewrite assoc_del_entry_same.
      * now rewrite assoc_del_entry_other.
    + destruct (assoc e es) as [x|] eqn:E; [|trivial].
      destruct p as [|a p]; simpl; [discriminate|].
      destruct (String.eqb_spec a e) as [->|Hn].
      * rewrite assoc_set_entry_same, E. apply IH.
      * now rewrite assoc_set_entry_other.
Qed.

(** [put] keeps the regular files that are not at or below [dst], and the
    regular files it brings are at or below [dst]. *)
Lemma put_keeps fs dst x fs' p c :
  put fs dst x = Some fs' ->
  file_at fs p c -> Path.is_relative_to p dst = false -> file_at fs' p c.
Proof.
  unfold file_at. revert fs fs' p. induction dst as [|e dst IH]; intros fs fs' p; simpl.
  - discriminate.
  - destruct fs as [|es]; [discriminate|].
    destruct p as [|a p]; [discriminate|].
    rewrite relative_to_cons. simpl.
    destruct dst as [|e' dst].
    + intros [= <-]. simpl. destruct (String.eqb_spec a e) as [->|Hn].
      * intros _ R. now destruct p.
      * now rewrite assoc_set_entry_other.
    + destruct (assoc e es) as [y|] eqn:E; [|discriminate].
      destruct (put y (e' :: dst) x) as [y'|] eqn:P; [|discriminate].
      intros [= <-]. simpl. destruct (String.eqb_spec a e) as [->|Hn].
      * rewrite assoc_set_entry_same, E. now apply IH.
      * now rewrite assoc_set_entry_other.
Qed.

Lemma put_brings fs dst x fs' p c :
  put fs dst x = Some fs' ->
  file_at fs' p c -> file_at fs p c \/ Path.is_relative_to p dst = true.
Proof.
  unfold file_at. revert fs fs' p. induction dst as [|e dst IH]; intros fs fs' p; simpl.
  - discriminate.
  - destruct fs as [|es]; [discriminate|].
    destruct dst as [|e' dst].
    + intros [= <-]. destruct p as [|a p]; simpl; [discriminate|].
      rewrite relative_to_cons.
      destruct (String.eqb_spec a e) as [->|Hn].
      * intros _. right. now destruct p.
      * rewrite assoc_set_entry_other by assumption. now left.
    + destruct (assoc e es) as [y|] eqn:E; [|discriminate].
      destruct (put y (e' :: dst) x) as [y'|] eqn:P; [|discriminate].
      intros [= <-]. destruct p as [|a p]; simpl; [discriminate|].
      rewrite relative_to_cons.
      destruct (String.eqb_spec a e) as [->|Hn].
      * rewrite assoc_set_entry_same, E. now apply IH.
      * rewrite assoc_set_entry_other by assumption. now left.
Qed.

Lemma put_deeper es c d rest x :
  put (Dir es) (c :: d :: rest) x =
  match assoc c es with
  | Some y =>
      match put y (d :: rest) x with
      | Some y' => Some (Dir (set_entry c y' es))
      | None => None
      end
  | None => None
  end.
Proof. reflexivity. Qed.

Lemma is_dir_spec fs p : is_dir fs p = true <-> exists es, lookup fs p = Some (Dir es).
Proof.
  unfold is_dir. destruct (lookup fs p) as [[c|es]|]; split;
    try discriminate; try (intros [es' [=]]); eauto.
Qed.

Lemma is_dir_cons es a p :
  is_dir (Dir es) (a :: p) =
  match assoc a es with
  | Some x => is_dir x p
  | None => false
  end.
Proof. unfold is_dir. simpl. now destruct (assoc a es). Qed.

Lemma is_dir_nil es : is_dir (Dir es) [] = true.
Proof. reflexivity. Qed.

Lemma fresh_dirs_chain d p x :
  lookup (fresh_dirs d) p = Some x -> Path.is_relative_to d p = true.
Proof.
  revert p. induction d as [|e d IH]; intros [|a p]; simpl; try reflexivity.
  - discriminate.
  - rewrite relative_to_cons. rewrite (String.eqb_sym e a).
    destruct (a =? e); [apply IH|discriminate].
Qed.

(** [mkdir_p] keeps the directories, and those it brings are the directory
    asked for and the directories above it. *)
Lemma mkdir_p_keeps_dir fs d fs' p :
  mkdir_p fs d = Ok fs' -> is_dir fs p = true -> is_dir fs' p = true.
Proof.
  revert fs fs' p. induction d as [|e d IH]; intros fs fs' p; simpl.
  - destruct fs; [discriminate|]. now intros [= <-].
  - destruct fs as [|es]; [discriminate|].
    destruct (assoc e es) as [x|] eqn:E.
    + destruct (mkdir_p x d) as [x'|] eqn:M; simpl; [|discriminate].
      intros [= <-]. destruct p as [|a p]; [reflexivity|].
      rewrite !is_dir_cons. destruct (String.eqb_spec a e) as [->|Hn].
      * rewrite assoc_set_entry_same, E. now apply IH.
      * now rewrite assoc_set_entry_other.
    + intros [= <-]. destruct p as [|a p]; [reflexivity|].
      rewrite !is_dir_cons. destruct (String.eqb_spec a e) as [->|Hn].
      * rewrite E. discriminate.
      * now rewrite assoc_set_entry_other.
Qed.

Lemma mkdir_p_brings_dir fs d fs' p :
  mkdir_p fs d = Ok fs' ->
  is_dir fs' p = true -> is_dir fs p = true \/ Path.is_relative_to d p = true.
Proof.
  revert fs fs' p. induction d as [|e d IH]; intros fs fs' p; simpl.
  - destruct fs; [discriminate|]. intros [= <-]. now left.
  - destruct fs as [|es]; [discriminate|].
    destruct (assoc e es) as [x|] eqn:E.
    + destruct (mkdir_p x d) as [x'|] eqn:M; simpl; [|discriminate].
      intros [= <-]. destruct p as [|a p]; [now left|].
      rewrite !is_dir_cons, relative_to_cons.
      destruct (String.eqb_spec a e) as [->|Hn].
      * rewrite assoc_set_entry_same, E, String.eqb_refl. now apply IH.
      * rewrite assoc_set_entry_other by assumption. now left.
    + intros [= <-]. destruct p as [|a p]; [now left|].
      rewrite !is_dir_cons, relative_to_cons.
      destruct (String.eqb_spec a e) as [->|Hn].
      * rewrite assoc_set_entry_same, String.eqb_refl. intros H. right.
        apply is_dir_spec in H as [es' H]. eapply fresh_dirs_chain. eassumption.
      * rewrite assoc_set_entry_other by assumption. now left.
Qed.

Lemma remove_keeps_dir fs src p :
  is_dir fs p = true -> Path.is_relative_to p src = false ->
  is_dir (remove fs src) p = true.
Proof.
  revert fs p. induction src as [|e src IH]; intros fs p H R.
  - discriminate.
  - destruct fs as [|es]; [assumption|].
    destruct p as [|a p].
    + cbn [remove]. destruct src; [reflexivity|]. now destruct (assoc e es).
    + rewrite relative_to_cons in R. rewrite is_dir_cons in H.
      destruct src as [|e' src]; cbn [remove].
      * rewrite is_dir_cons. destruct (String.eqb_spec a e) as [->|Hn].
        -- now destruct p.
        -- now rewrite assoc_del_entry_other.
      * destruct (assoc e es) as [x|] eqn:E; [|now rewrite is_dir_cons].
        rewrite is_dir_cons. destruct (String.eqb_spec a e) as [->|Hn].
        -- rewrite assoc_set_entry_same. rewrite E in H. now apply IH.
        -- now rewrite assoc_set_entry_other.
Qed.

Lemma remove_brings_no_dir fs src p :
  is_dir (remove fs src) p = true -> is_dir fs p = true.
Proof.
  revert fs p. induction src as [|e src IH]; intros fs p; [trivial|].
  destruct fs as [|es]; [trivial|].
  destruct p as [|a p]; [reflexivity|].
  destruct src as [|e' src]; cbn [remove].
  - rewrite !is_dir_cons. destruct (String.eqb_spec a e) as [->|Hn].
    + now rewrite assoc_del_entry_same.
    + now rewrite assoc_del_entry_other.
  - destruct (assoc e es) as [x|] eqn:E; [|trivial].
    rewrite !is_dir_cons. destruct (String.eqb_spec a e) as [->|Hn].
    + rewrite assoc_set_entry_same, E. apply IH.
    + now rewrite assoc_set_entry_other.
Qed.

Lemma put_keeps_dir fs dst x fs' p :
  put fs dst x = Some fs' ->
  is_dir fs p = true -> Path.is_relative_to p dst = false -> is_dir fs' p = true.
Proof.
  revert fs fs' p. induction dst as [|e dst IH]; intros fs fs' p; [discriminate|].
  destruct fs as [|es]; [discriminate|].
  destruct dst as [|e' dst].
  - cbn [put]. intros [= <-]. destruct p as [|a p]; [reflexivity|].
    rewrite !is_dir_cons, relative_to_cons.
    destruct (String.eqb_spec a e) as [->|Hn].
    + intros _ R. now destruct p.
    + now rewrite assoc_set_entry_other.
  - rewrite put_deeper.
    destruct (assoc e es) as [y|] eqn:E; [|discriminate].
    destruct (put y (e' :: dst) x) as [y'|] eqn:P; [|discriminate].
    intros [= <-]. destruct p as [|a p]; [reflexivity|].
    rewrite !is_dir_cons, relative_to_cons.
    destruct (String.eqb_spec a e) as [->|Hn].
    + rewrite assoc_set_entry_same, E. now apply IH.
    + now rewrite assoc_set_entry_other.
Qed.

Lemma put_brings_dir fs dst x fs' p :
  put fs dst x = Some fs' ->
  is_dir fs' p = true -> is_dir fs p = true \/ Path.is_relative_to p dst = true.
Proof.
  revert fs fs' p. induction dst as [|e dst IH]; intros fs fs' p; [discriminate|].
  destruct fs as [|es]; [discriminate|].
  destruct dst as [|e' dst].
  - cbn [put]. intros [= <-]. destruct p as [|a p]; [now left|].
    rewrite !is_dir_cons, relative_to_cons.
    destruct (String.eqb_spec a e) as [->|Hn].
    + intros _. right. now destruct p.
    + rewrite assoc_set_entry_other by assumption. now left.
  - rewrite put_deeper.
    destruct (assoc e es) as [y|] eqn:E; [|discriminate].
    destruct (put y (e' :: dst) x) as [y'|] eqn:P; [|discriminate].
    intros [= <-]. destruct p as [|a p]; [now left|].
    rewrite !is_dir_cons, relative_to_cons.
    destruct (String.eqb_spec a e) as [->|Hn].
    + rewrite assoc_set_entry_same, E. now apply IH.
    + rewrite assoc_set_entry_other by assumption. now left.
Qed.

Lemma fresh_dirs_empty d c q : lookup (fresh_dirs d) (d ++ c :: q)%list = None.
Proof.
  induction d as [|e d IH]; simpl; [reflexivity|].
  now rewrite String.eqb_refl.
Qed.

(** What is found below a directory right after [mkdir_p] made sure of it
    was there before, with the directory. *)
Lemma mkdir_p_child_exists fs d fs' c q x :
  mkdir_p fs d = Ok fs' ->
  lookup fs' (d ++ c :: q)%list = Some x -> is_dir fs d = true.
Proof.
  revert fs fs'. induction d as [|e d IH]; intros fs fs'; simpl.
  - destruct fs; [discriminate|]. reflexivity.
  - destruct fs as [|es]; [discriminate|].
    rewrite is_dir_cons.
    destruct (assoc e es) as [y|] eqn:E.
    + destruct (mkdir_p y d) as [y'|] eqn:M; simpl; [|discriminate].
      intros [= <-]. cbn [lookup]. rewrite assoc_set_entry_same. now apply IH.
    + intros [= <-]. cbn [lookup]. rewrite assoc_set_entry_same.
      now rewrite fresh_dirs_empty.
Qed.

Lemma map_fst_set_entry_new c x es :
  assoc c es = None -> map fst (set_entry c x es) = (map fst es ++ [c])%list.
Proof.
  induction es as [|[d z] es IH]; simpl; [reflexivity|].
  destruct (String.eqb_spec c d) as [->|Hn]; [discriminate|].
  intros H. simpl. now rewrite IH.
Qed.

Lemma names_cons es c p :
  names (Dir es) (c :: p) =
  match assoc c es with
  | Some x => names x p
  | None => []
  end.
Proof. unfold names. simpl. now destruct (assoc c es). Qed.

Lemma md_names_fresh_dirs p c rest :
  pat_md c = false -> md_names (fresh_dirs (p ++ c :: rest)%list) p = [].
Proof.
  intros H. unfold md_names. induction p as [|d p IH]; simpl.
  - unfold names. simpl. now rewrite H.
  - rewrite names_cons. simpl. now rewrite String.eqb_refl.
Qed.

(** [mkdir_p] of a directory below [p] adds to [p] at most the first
    component below [p]. *)
Lemma mkdir_p_md_names fs p c rest fs' :
  pat_md c = false ->
  mkdir_p fs (p ++ c :: rest)%list = Ok fs' ->
  md_names fs' p = md_names fs p.
Proof.
  intros Hc. unfold md_names.
  revert fs fs'. induction p as [|d p IH]; intros fs fs'; simpl.
  - destruct fs as [|es]; [discriminate|].
    destruct (assoc c es) as [x|] eqn:E.
    + destruct (mkdir_p x rest) as [x'|]; simpl; [|discriminate].
      intros [= <-]. unfold names. simpl.
      now rewrite (map_fst_set_entry_id c x' x es E).
    + intros [= <-]. unfold names. simpl.
      rewrite (map_fst_set_entry_new c _ es E), filter_app. simpl.
      rewrite Hc. apply app_nil_r.
  - destruct fs as [|es]; [discriminate|].
    destruct (assoc d es) as [x|] eqn:E.
    + destruct (mkdir_p x (p ++ c :: rest)%list) as [x'|] eqn:M; simpl; [|discriminate].
      intros [= <-]. rewrite !names_cons, assoc_set_entry_same, E. now apply (IH x).
    + intros [= <-]. rewrite !names_cons, assoc_set_entry_same, E.
      now apply md_names_fresh_dirs.
Qed.

(** [remove] at a place that is neither at or below [p] nor above it leaves
    [p] as it is. *)
Lemma remove_elsewhere fs src p :
  Path.is_relative_to src p = false ->
  Path.is_relative_to p src = false ->
  lookup (remove fs src) p = lookup fs p.
Proof.
  revert fs p. induction src as [|e src IH]; intros fs p H1 H2; [reflexivity|].
  destruct p as [|a p]; [discriminate|].
  rewrite relative_to_cons in H1, H2.
  destruct fs as [|es]; [reflexivity|].
  destruct (String.eqb_spec a e) as [->|Hn].
  - rewrite String.eqb_refl in H1. simpl in H1, H2.
    destruct src as [|e' src]; [discriminate|].
    cbn [remove]. destruct (assoc e es) as [x|] eqn:E; [|reflexivity].
    cbn [lookup]. rewrite assoc_set_entry_same, E. now apply IH.
  - destruct src as [|e' src]; cbn [remove].
    + cbn [lookup]. now rewrite assoc_del_entry_other.
    + destruct (assoc e es) as [x|] eqn:E; [|reflexivity].
      cbn [lookup]. now rewrite assoc_set_entry_other.
Qed.

(** [put] two levels or more below [p] leaves the names of [p]. *)
Lemma put_deep_names fs p c d rest x fs' :
  put fs (p ++ c :: d :: rest)%list x = Some fs' -> names fs' p = names fs p.
Proof.
  revert fs fs'. induction p as [|a p IH]; intros fs fs'.
  - destruct fs as [|es]; [discriminate|].
    change ([] ++ c :: d :: rest)%list with (c :: d :: rest). rewrite put_deeper.
    destruct (assoc c es) as [y|] eqn:E; [|discriminate].
    destruct (put y (d :: rest) x) as [y'|]; [|discriminate].
    intros [= <-]. unfold names. simpl. now rewrite (map_fst_set_entry_id c y' y es E).
  - destruct fs as [|es]; [discriminate|].
    change ((a :: p) ++ c :: d :: rest)%list with (a :: (p ++ c :: d :: rest))%list.
    assert (Q : exists b q, (p ++ c :: d :: rest)%list = b :: q)
      by (destruct p; simpl; eauto).
    destruct Q as (b & q & Q). rewrite Q, put_deeper.
    destruct (assoc a es) as [y|] eqn:E; [|discriminate].
    destruct (put y (b :: q) x) as [y'|] eqn:P; [|discriminate].
    intros [= <-]. rewrite !names_cons, assoc_set_entry_same, E.
    apply (IH y). now rewrite Q.
Qed.

(** [put] of a regular file in place of a regular file leaves all names. *)
Lemma put_file_names fs f c x fs' p :
  lookup fs f = Some (File c) ->
  put fs f (File x) = Some fs' -> names fs' p = names fs p.
Proof.
  revert fs fs' p. induction f as [|a f IH]; intros fs fs' p; simpl; [discriminate|].
  destruct fs as [|es]; simpl; [discriminate|].
  destruct (assoc a es) as [y|] eqn:E; [|discriminate].
  destruct f as [|b f].
  - simpl. intros [= ->] [= <-].
    destruct p as [|a' p].
    + unfold names. simpl. now rewrite (map_fst_set_entry_id a _ _ es E).
    + rewrite !names_cons. destruct (String.eqb_spec a' a) as [->|Hn].
      * rewrite assoc_set_entry_same, E. unfold names. now destruct p.
      * now rewrite assoc_set_entry_other.
  - intros L. destruct (put y (b :: f) (File x)) as [y'|] eqn:P; [|discriminate].
    intros [= <-]. destruct p as [|a' p].
    + unfold names. simpl. now rewrite (map_fst_set_entry_id a _ _ es E).
    + rewrite !names_cons. destruct (String.eqb_spec a' a) as [->|Hn].
      * rewrite assoc_set_entry_same, E. now apply (IH y).
      * now rewrite assoc_set_entry_other.
Qed.

Lemma rglob_from_nonempty m n r : In r (rglob_from m n) -> r <> [].
Proof.
  destruct n as [|es]; simpl; [contradiction|].
  intros H. apply in_app_or in H as [H|H].
  - apply in_map_iff in H as (e & <- & _). discriminate.
  - apply in_flat_map in H as (e & _ & H).
    apply in_map_iff in H as (q & <- & _). discriminate.
Qed.

Lemma rglob_below m fs p q :
  In q (rglob m fs p) -> exists r, r <> [] /\ q = (p ++ r)%list.
Proof.
  unfold rglob. destruct (lookup fs p) as [n|]; [|contradiction].
  intros H. apply in_map_iff in H as (r & <- & H).
  exists r. split; [|reflexivity]. eapply rglob_from_nonempty; eassumption.
Qed.

Lemma glob_names m fs p :
  glob m fs p = map (fun n => (p ++ [n])%list) (filter m (names fs p)).
Proof.
  unfold glob, names. destruct (lookup fs p) as [[|es]|]; try reflexivity.
  induction es as [|[c x] es IH]; simpl; [reflexivity|].
  destruct (m c); simpl; now rewrite IH.
Qed.

End FileSystem.

(** ** The mover *)

Section Mover.

Variable ROOT : path.

Lemma not_below_missing fs dst p c :
  FS.exists_ fs dst = false -> file_at fs p c -> Path.is_relative_to p dst = false.
Proof.
  unfold FS.exists_, file_at. intros Hd Hp.
  destruct (Path.is_relative_to p dst) eqn:R; [|reflexivity].
  apply is_relative_to_spec in R as [r ->].
  rewrite lookup_app in Hp. destruct (FS.lookup fs dst); discriminate.
Qed.

(** [shutil.move] to a destination that does not exist. *)
Lemma shutil_move_fresh fs src dst :
  FS.exists_ fs dst = false ->
  FS.shutil_move fs src dst =
  match FS.lookup fs src with
  | None => Raise FileNotFoundError
  | Some _ =>
      if Path.is_relative_to dst src then Raise ShutilError
      else FS.rename fs src dst
  end.
Proof.
  unfold FS.exists_, FS.shutil_move. intros H.
  destruct (FS.lookup fs src); [|reflexivity].
  destruct (FS.lookup fs dst); [discriminate|reflexivity].
Qed.

Lemma shutil_move_keeps fs src dst fs' p c :
  FS.exists_ fs dst = false ->
  FS.shutil_move fs src dst = Ok fs' ->
  file_at fs p c -> Path.is_relative_to p src = false -> file_at fs' p c.
Proof.
  intros Hd. rewrite (shutil_move_fresh _ _ _ Hd). unfold FS.rename.
  destruct (FS.lookup fs src) as [x|]; [|discriminate].
  destruct (Path.is_relative_to dst src); [discriminate|].
  destruct (FS.put (FS.remove fs src) dst x) as [fs2|] eqn:P; [|discriminate].
  intros [= <-] Hp R.
  eapply put_keeps; [eassumption| |].
  - now apply remove_keeps.
  - eapply not_below_missing; eassumption.
Qed.

Lemma shutil_move_brings fs src dst fs' p c :
  FS.exists_ fs dst = false ->
  FS.shutil_move fs src dst = Ok fs' ->
  file_at fs' p c -> file_at fs p c \/ Path.is_relative_to p dst = true.
Proof.
  intros Hd. rewrite (shutil_move_fresh _ _ _ Hd). unfold FS.rename.
  destruct (FS.lookup fs src) as [x|]; [|discriminate].
  destruct (Path.is_relative_to dst src); [discriminate|].
  destruct (FS.put (FS.remove fs src) dst x) as [fs2|] eqn:P; [|discriminate].
  intros [= <-] Hp.
  destruct (put_brings _ _ _ _ _ _ P Hp) as [H|H]; [left|now right].
  eapply remove_brings_nothing; eassumption.
Qed.

Lemma destination_of_named s :
  Path.name s <> "" ->
  destination_of ROOT s =
  (Organize.guess_target_folder ROOT (Path.stem s) ++ [Path.name s])%list.
Proof.
  unfold destination_of, Path.child. intros H.
  destruct (String.eqb_spec (Path.name s) ""); [contradiction|reflexivity].
Qed.

(** A destination that exists lies in a directory that exists, which
    [mkdir_p] leaves alone. *)
Lemma mkdir_p_before_conflict fs s :
  Path.name s <> "" ->
  FS.exists_ fs (destination_of ROOT s) = true ->
  FS.mkdir_p fs (Organize.guess_target_folder ROOT (Path.stem s)) = Ok fs.
Proof.
  intros Hn. rewrite (destination_of_named _ Hn). unfold FS.exists_.
  destruct (FS.lookup fs _) as [x|] eqn:E; [|discriminate]. intros _.
  apply mkdir_p_noop. eapply lookup_below_is_dir. eassumption.
Qed.

Lemma move_loop_cons fs acc s rest :
  Organize.move_loop ROOT fs acc (s :: rest) =
  match FS.mkdir_p fs (Organize.guess_target_folder ROOT (Path.stem s)) with
  | Raise e => (fs, Raise e)
  | Ok fs1 =>
      if FS.exists_ fs1 (destination_of ROOT s)
      then (fs1, Raise (SystemExit (Organize.conflict_message (destination_of ROOT s))))
      else
        match FS.shutil_move fs1 s (destination_of ROOT s) with
        | Raise e => (fs1, Raise e)
        | Ok fs2 =>
            Organize.move_loop ROOT fs2 (acc ++ [(s, destination_of ROOT s)])%list rest
        end
  end.
Proof. reflexivity. Qed.

(** When the destination is found after [mkdir_p], [mkdir_p] has changed
    nothing. *)
Lemma mkdir_p_then_conflict fs s fs1 :
  Path.name s <> "" ->
  FS.mkdir_p fs (Organize.guess_target_folder ROOT (Path.stem s)) = Ok fs1 ->
  FS.exists_ fs1 (destination_of ROOT s) = true ->
  fs1 = fs.
Proof.
  intros Hn M. rewrite (destination_of_named _ Hn). unfold FS.exists_.
  destruct (FS.lookup fs1 _) as [x|] eqn:E; [|discriminate]. intros _.
  pose proof (mkdir_p_child_exists _ _ _ _ _ _ M E) as Hd.
  rewrite (mkdir_p_noop _ _ Hd) in M. congruence.
Qed.

Lemma move_loop_conflict fs acc s rest :
  Path.name s <> "" ->
  FS.exists_ fs (destination_of ROOT s) = true ->
  Organize.move_loop ROOT fs acc (s :: rest) =
  (fs, Raise (SystemExit (Organize.conflict_message (destination_of ROOT s)))).
Proof.
  intros Hn He. rewrite move_loop_cons, (mkdir_p_before_conflict _ _ Hn He).
  now rewrite He.
Qed.

Lemma move_loop_app fs acc pre rest :
  Organize.move_loop ROOT fs acc (pre ++ rest)%list =
  match Organize.move_loop ROOT fs acc pre with
  | (fs1, Ok moves) => Organize.move_loop ROOT fs1 moves rest
  | (fs1, Raise e) => (fs1, Raise e)
  end.
Proof.
  revert fs acc. induction pre as [|s pre IH]; intros fs acc; simpl; [reflexivity|].
  destruct (FS.mkdir_p fs _) as [fs1|e]; [|reflexivity].
  destruct (FS.exists_ fs1 _); [reflexivity|].
  destruct (FS.shutil_move fs1 s _) as [fs2|e]; [|reflexivity].
  apply IH.
Qed.

(** A conflict at [s], met after the sources [pre] were moved, ends the
    run in the state that the moves of [pre] left. *)
Lemma move_stray_files_conflict fs pre s post fs1 moves :
  Organize.move_stray_files ROOT fs pre = (fs1, Ok moves) ->
  Path.name s <> "" ->
  FS.exists_ fs1 (destination_of ROOT s) = true ->
  Organize.move_stray_files ROOT fs (pre ++ s :: post)%list =
  (fs1, Raise (SystemExit (Organize.conflict_message (destination_of ROOT s)))).
Proof.
  unfold Organize.move_stray_files. intros Hpre Hn He.
  rewrite move_loop_app, Hpre. now apply move_loop_conflict.
Qed.

(** Whatever the outcome, the loop keeps every regular file that is not
    at or below one of the sources. *)
Lemma move_loop_keeps fs acc strays fs' r p c :
  Organize.move_loop ROOT fs acc strays = (fs', r) ->
  file_at fs p c ->
  (forall s, In s strays -> Path.is_relative_to p s = false) ->
  file_at fs' p c.
Proof.
  revert fs acc. induction strays as [|s strays IH]; intros fs acc H Hp Hs; simpl in H.
  - now injection H as <- _.
  - destruct (FS.mkdir_p fs _) as [fs1|e] eqn:M.
    2:{ now injection H as <- _. }
    apply (mkdir_p_files _ _ _ p c M) in Hp.
    destruct (FS.exists_ fs1 _) eqn:X.
    { now injection H as <- _. }
    destruct (FS.shutil_move fs1 s _) as [fs2|e] eqn:S.
    2:{ now injection H as <- _. }
    eapply IH; [eassumption| |].
    + eapply shutil_move_keeps; [exact X|exact S|exact Hp|].
      apply Hs. now left.
    + intros s' Hs'. apply Hs. now right.
Qed.

(** Whatever the outcome, a regular file found after the loop was there
    before it, or is at or below the destination of one of the sources. *)
Lemma move_loop_brings fs acc strays fs' r p c :
  Organize.move_loop ROOT fs acc strays = (fs', r) ->
  file_at fs' p c ->
  file_at fs p c
  \/ exists s, In s strays /\ Path.is_relative_to p (destination_of ROOT s) = true.
Proof.
  revert fs acc. induction strays as [|s strays IH]; intros fs acc H Hp; simpl in H.
  - injection H as <- _. now left.
  - destruct (FS.mkdir_p fs _) as [fs1|e] eqn:M.
    2:{ injection H as <- _. now left. }
    destruct (FS.exists_ fs1 _) eqn:X.
    { injection H as <- _. left. now apply (mkdir_p_files _ _ _ p c M). }
    destruct (FS.shutil_move fs1 s _) as [fs2|e] eqn:S.
    2:{ injection H as <- _. left. now apply (mkdir_p_files _ _ _ p c M). }
    destruct (IH _ _ H Hp) as [H2|(s' & Hs' & R)].
    + destruct (shutil_move_brings _ _ _ _ _ _ X S H2) as [H1|R].
      * left. now apply (mkdir_p_files _ _ _ p c M).
      * right. exists s. split; [now left|exact R].
    + right. exists s'. split; [now right|exact R].
Qed.

Lemma dir_not_below_missing fs dst p :
  FS.exists_ fs dst = false -> FS.is_dir fs p = true -> Path.is_relative_to p dst = false.
Proof.
  unfold FS.exists_. intros Hd Hp. apply is_dir_spec in Hp as [es Hp].
  destruct (Path.is_relative_to p dst) eqn:R; [|reflexivity].
  apply is_relative_to_spec in R as [r ->].
  rewrite lookup_app in Hp. destruct (FS.lookup fs dst); discriminate.
Qed.

Lemma shutil_move_keeps_dir fs src dst fs' p :
  FS.exists_ fs dst = false ->
  FS.shutil_move fs src dst = Ok fs' ->
  FS.is_dir fs p = true -> Path.is_relative_to p src = false -> FS.is_dir fs' p = true.
Proof.
  intros Hd. rewrite (shutil_move_fresh _ _ _ Hd). unfold FS.rename.
  destruct (FS.lookup fs src) as [x|]; [|discriminate].
  destruct (Path.is_relative_to dst src); [discriminate|].
  destruct (FS.put (FS.remove fs src) dst x) as [fs2|] eqn:P; [|discriminate].
  intros [= <-] Hp R.
  eapply put_keeps_dir; [eassumption| |].
  - now apply remove_keeps_dir.
  - eapply dir_not_below_missing; eassumption.
Qed.

Lemma shutil_move_brings_dir fs src dst fs' p :
  FS.exists_ fs dst = false ->
  FS.shutil_move fs src dst = Ok fs' ->
  FS.is_dir fs' p = true -> FS.is_dir fs p = true \/ Path.is_relative_to p dst = true.
Proof.
  intros Hd. rewrite (shutil_move_fresh _ _ _ Hd). unfold FS.rename.
  destruct (FS.lookup fs src) as [x|]; [|discriminate].
  destruct (Path.is_relative_to dst src); [discriminate|].
  destruct (FS.put (FS.remove fs src) dst x) as [fs2|] eqn:P; [|discriminate].
  intros [= <-] Hp.
  destruct (put_brings_dir _ _ _ _ _ P Hp) as [H|H]; [left|now right].
  eapply remove_brings_no_dir; eassumption.
Qed.

(** Whatever the outcome, the loop keeps every directory that is not at or
    below one of the sources. *)
Lemma move_loop_keeps_dir fs acc strays fs' r p :
  Organize.move_loop ROOT fs acc strays = (fs', r) ->
  FS.is_dir fs p = true ->
  (forall s, In s strays -> Path.is_relative_to p s = false) ->
  FS.is_dir fs' p = true.
Proof.
  revert fs acc. induction strays as [|s strays IH]; intros fs acc H Hp Hs.
  - simpl in H. now injection H as <- _.
  - rewrite move_loop_cons in H.
    destruct (FS.mkdir_p fs _) as [fs1|e] eqn:M.
    2:{ now injection H as <- _. }
    apply (mkdir_p_keeps_dir _ _ _ p M) in Hp.
    destruct (FS.exists_ fs1 _) eqn:X.
    { now injection H as <- _. }
    destruct (FS.shutil_move fs1 s _) as [fs2|e] eqn:S.
    2:{ now injection H as <- _. }
    eapply IH; [eassumption| |].
    + eapply shutil_move_keeps_dir; [exact X|exact S|exact Hp|].
      apply Hs. now left.
    + intros s' Hs'. apply Hs. now right.
Qed.

(** Whatever the outcome, a directory found after the loop was there before
    it, or is the folder computed for one of the sources or a directory above
    that folder, or is at or below the destination of one of the sources. *)
Lemma move_loop_brings_dir fs acc strays fs' r p :
  Organize.move_loop ROOT fs acc strays = (fs', r) ->
  FS.is_dir fs' p = true ->
  FS.is_dir fs p = true
  \/ exists s, In s strays
       /\ (Path.is_relative_to (Organize.guess_target_folder ROOT (Path.stem s)) p = true
           \/ Path.is_relative_to p (destination_of ROOT s) = true).
Proof.
  revert fs acc. induction strays as [|s strays IH]; intros fs acc H Hp.
  - simpl in H. injection H as <- _. now left.
  - rewrite move_loop_cons in H.
    assert (Hmk : forall fs1,
               FS.mkdir_p fs (Organize.guess_target_folder ROOT (Path.stem s)) = Ok fs1 ->
               FS.is_dir fs1 p = true ->
               FS.is_dir fs p = true
               \/ exists s0, In s0 (s :: strays)
                    /\ (Path.is_relative_to
                          (Organize.guess_target_folder ROOT (Path.stem s0)) p = true
                        \/ Path.is_relative_to p (destination_of ROOT s0) = true)).
    { intros fs1 M H1. destruct (mkdir_p_brings_dir _ _ _ _ M H1) as [Hd|Hd].
      - now left.
      - right. exists s. split; [now left|now left]. }
    destruct (FS.mkdir_p fs _) as [fs1|e] eqn:M.
    2:{ injection H as <- _. now left. }
    destruct (FS.exists_ fs1 _) eqn:X.
    { injection H as <- _. now apply (Hmk fs1). }
    destruct (FS.shutil_move fs1 s _) as [fs2|e] eqn:S.
    2:{ injection H as <- _. now apply (Hmk fs1). }
    destruct (IH _ _ H Hp) as [H2|(s' & Hs' & R)].
    + destruct (shutil_move_brings_dir _ _ _ _ _ X S H2) as [H1|R].
      * now apply (Hmk fs1).
      * right. exists s. split; [now left|now right].
    + right. exists s'. split; [now right|exact R].
Qed.

End Mover.

Section MoverClaims.

Variable ROOT : path.

(** C1.  Let the sources [pre] be moved without error, and let the
    destination computed for the next source [s] exist then.  The run ends
    with the [SystemExit] whose message holds the destination as it is
    printed; it ends in the state that the moves of [pre] left, so neither
    [s] nor a later source is moved and the entry at the destination is
    what it was.  And whatever list is given and however the run ends, a
    regular file that is not at or below one of the sources keeps its
    place and its content. *)
Theorem conflict_is_fatal_and_overwrites_nothing fs pre s post fs1 moves :
  Organize.move_stray_files ROOT fs pre = (fs1, Ok moves) ->
  Path.name s <> "" ->
  FS.exists_ fs1 (destination_of ROOT s) = true ->
  let destination := destination_of ROOT s in
  let run := Organize.move_stray_files ROOT fs (pre ++ s :: post)%list in
  snd run = Raise (SystemExit (Organize.conflict_message destination))
  /\ (exists a b, Organize.conflict_message destination
                  = a ++ Path.to_str destination ++ b)
  /\ fst run = fs1
  /\ FS.lookup (fst run) destination = FS.lookup fs1 destination
  /\ (forall strays fs' r p c,
        Organize.move_stray_files ROOT fs strays = (fs', r) ->
        file_at fs p c ->
        (forall q, In q strays -> Path.is_relative_to p q = false) ->
        file_at fs' p c).
Proof.
  intros Hpre Hn He destination run.
  assert (Hrun : run = (fs1, Raise (SystemExit (Organize.conflict_message destination))))
    by (subst run destination; now apply move_stray_files_conflict with (moves := moves)).
  rewrite Hrun. simpl. repeat split.
  - exists "Refusing to overwrite existing file: ",
      ". Resolve the conflict and rerun the command.".
    reflexivity.
  - intros strays fs' r p c H Hp Hs.
    eapply move_loop_keeps; eassumption.
Qed.

(** C8, as the code has it.  The error raised on a conflict is made of the
    destination alone: it is the fixed text around the destination as it is
    printed, whatever moves were made before.  Two runs that stop at the
    same destination raise the same error, also when they made different
    numbers of moves. *)
Theorem conflict_message_names_destination_only fs pre s post fs1 moves :
  Organize.move_stray_files ROOT fs pre = (fs1, Ok moves) ->
  Path.name s <> "" ->
  FS.exists_ fs1 (destination_of ROOT s) = true ->
  snd (Organize.move_stray_files ROOT fs (pre ++ s :: post)%list)
  = Raise (SystemExit ("Refusing to overwrite existing file: "
                       ++ Path.to_str (destination_of ROOT s)
                       ++ ". Resolve the conflict and rerun the command."))
  /\ (forall fs' pre' s' post' fs1' moves',
        Organize.move_stray_files ROOT fs' pre' = (fs1', Ok moves') ->
        Path.name s' <> "" ->
        FS.exists_ fs1' (destination_of ROOT s') = true ->
        destination_of ROOT s' = destination_of ROOT s ->
        snd (Organize.move_stray_files ROOT fs' (pre' ++ s' :: post')%list)
        = snd (Organize.move_stray_files ROOT fs (pre ++ s :: post)%list)).
Proof.
  intros Hpre Hn He.
  rewrite (move_stray_files_conflict ROOT fs pre s post fs1 moves Hpre Hn He).
  split; [reflexivity|].
  intros fs' pre' s' post' fs1' moves' Hpre' Hn' He' Hd.
  rewrite (move_stray_files_conflict ROOT fs' pre' s' post' fs1' moves' Hpre' Hn' He').
  simpl. now rewrite Hd.
Qed.

(** C10, as the code has it.  For each source the loop first runs [mkdir_p]
    on the folder computed for it: an exception of [mkdir_p] ends the run
    there; a directory that exists is left as it is; otherwise the folder is a
    directory afterwards, with the directories and regular files that were
    there.  Only then is the destination looked up; when it is found, the
    folder was there before and [mkdir_p] has changed nothing, so a run that
    stops on a conflict at [s] stops in the very state that the moves before
    [s] left.  Whatever the outcome, a regular file or directory that is not
    at or below a source is kept; a regular file found at the end was there at
    the start or is at or below the destination of one of the sources; a
    directory found at the end was there at the start, or is the folder
    computed for a source or above it, or is at or below the destination of a
    source. *)
Theorem mover_frame fs strays fs' r :
  Organize.move_stray_files ROOT fs strays = (fs', r) ->
  (forall pre s post fs1 moves,
      strays = (pre ++ s :: post)%list ->
      Organize.move_stray_files ROOT fs pre = (fs1, Ok moves) ->
      let target_dir := Organize.guess_target_folder ROOT (Path.stem s) in
      (forall e, FS.mkdir_p fs1 target_dir = Raise e -> fs' = fs1 /\ r = Raise e)
      /\ (FS.is_dir fs1 target_dir = true -> FS.mkdir_p fs1 target_dir = Ok fs1)
      /\ (forall fs2, FS.mkdir_p fs1 target_dir = Ok fs2 ->
            FS.is_dir fs2 target_dir = true
            /\ (forall p c, file_at fs1 p c <-> file_at fs2 p c)
            /\ (forall p, FS.is_dir fs1 p = true -> FS.is_dir fs2 p = true)
            /\ (Path.name s <> "" ->
                FS.exists_ fs2 (destination_of ROOT s) = true ->
                fs2 = fs1
                /\ fs' = fs1
                /\ r = Raise (SystemExit
                                (Organize.conflict_message (destination_of ROOT s))))))
  /\ (forall p c,
        file_at fs p c ->
        (forall q, In q strays -> Path.is_relative_to p q = false) ->
        file_at fs' p c)
  /\ (forall p,
        FS.is_dir fs p = true ->
        (forall q, In q strays -> Path.is_relative_to p q = false) ->
        FS.is_dir fs' p = true)
  /\ (forall p c,
        file_at fs' p c ->
        file_at fs p c
        \/ exists q, In q strays
                     /\ Path.is_relative_to p (destination_of ROOT q) = true)
  /\ (forall p,
        FS.is_dir fs' p = true ->
        FS.is_dir fs p = true
        \/ exists q, In q strays
             /\ (Path.is_relative_to
                   (Organize.guess_target_folder ROOT (Path.stem q)) p = true
                 \/ Path.is_relative_to p (destination_of ROOT q) = true)).
Proof.
  intros H. split; [|split; [|split; [|split]]].
  - intros pre s post fs1 moves -> Hpre target_dir.
    unfold Organize.move_stray_files in H, Hpre.
    rewrite move_loop_app, Hpre, move_loop_cons in H.
    fold target_dir in H.
    split; [|split].
    + intros e M. rewrite M in H. now injection H as <- <-.
    + apply mkdir_p_noop.
    + intros fs2 M. rewrite M in H.
      split; [now apply (mkdir_p_is_dir fs1)|].
      split; [intros p c; now apply (mkdir_p_files fs1 target_dir)|].
      split; [intros p; now apply (mkdir_p_keeps_dir fs1 target_dir)|].
      intros Hn X. rewrite X in H. injection H as <- <-.
      pose proof (mkdir_p_then_conflict ROOT fs1 s fs2 Hn M X) as E. auto.
  - intros p c Hp Hs. eapply move_loop_keeps; eassumption.
  - intros p Hp Hs. eapply move_loop_keeps_dir; eassumption.
  - intros p c Hp. eapply move_loop_brings; eassumption.
  - intros p Hp. eapply move_loop_brings_dir; eassumption.
Qed.

End MoverClaims.

(** ** The organizer's [main] *)

Section OrganizerMain.

Variable ROOT : path.
Variable set_iter : list string -> list string.

Lemma truthy_false {A : Type} (l : list A) : truthy l = false <-> l = [].
Proof. destruct l; simpl; split; congruence. Qed.

Lemma ensure_docs_root_ok fs :
  Organize.ensure_docs_root_only_index ROOT fs = Ok tt
  <-> Organize.docs_root_offenders ROOT fs = [].
Proof.
  unfold Organize.ensure_docs_root_only_index.
  destruct (Organize.docs_root_offenders ROOT fs); simpl; split; congruence.
Qed.

Lemma ensure_docs_root_raises fs :
  Organize.docs_root_offenders ROOT fs <> [] ->
  Organize.ensure_docs_root_only_index ROOT fs =
  Raise (SystemExit (Organize.docs_root_message ROOT (Organize.docs_root_offenders ROOT fs))).
Proof.
  unfold Organize.ensure_docs_root_only_index.
  destruct (Organize.docs_root_offenders ROOT fs); simpl; congruence.
Qed.

(** The message of the docs-root check holds a line for every path. *)
Lemma docs_root_message_lists root_md p :
  In p root_md ->
  exists a b, Organize.docs_root_message ROOT root_md
              = a ++ (" - " ++ Organize.rel_str ROOT p) ++ b.
Proof.
  intros H. unfold Organize.docs_root_message, Organize.bullet_list.
  destruct (join_occurs nl (" - " ++ Organize.rel_str ROOT p)
              (map (fun q => " - " ++ Organize.rel_str ROOT q) root_md))
    as (a & b & E).
  { apply in_map_iff. now exists p. }
  rewrite E.
  exists ("Docs root should only contain docs/README.md. Move these files into function folders:"
          ++ nl ++ a), b.
  now rewrite !str_app_assoc.
Qed.

(** The offenders are the entries of [ROOT/docs] whose name ends in [.md]
    and is not [README.md]. *)
Lemma docs_root_offenders_spec fs p :
  In p (Organize.docs_root_offenders ROOT fs) <->
  exists es name x,
    FS.lookup fs (ROOT ++ ["docs"])%list = Some (FS.Dir es)
    /\ In (name, x) es
    /\ p = (ROOT ++ ["docs"; name])%list
    /\ (exists a, name = a ++ ".md")
    /\ name <> "README.md".
Proof.
  unfold Organize.docs_root_offenders, FS.glob.
  change (Path.join ROOT "docs") with (ROOT ++ ["docs"])%list.
  rewrite filter_In. split.
  - intros [Hin Hname].
    destruct (FS.lookup fs (ROOT ++ ["docs"])%list) as [[|es]|]; try contradiction.
    apply in_map_iff in Hin as ([name x] & <- & Hin).
    apply filter_In in Hin as [Hin Hmd]. simpl in *.
    exists es, name, x. repeat split; try assumption.
    + now rewrite <- app_assoc.
    + now apply endswith_spec.
    + unfold Path.name in Hname. rewrite last_last in Hname.
      intros ->. discriminate.
  - intros (es & name & x & -> & Hin & -> & Hmd & Hname). split.
    + apply in_map_iff. exists (name, x). split.
      * simpl. now rewrite <- app_assoc.
      * apply filter_In. split; [assumption|]. now apply endswith_spec.
    + unfold Path.name.
      change (ROOT ++ ["docs"; name])%list with (ROOT ++ ["docs"] ++ [name])%list.
      rewrite app_assoc, last_last.
      destruct (String.eqb_spec name "README.md"); [contradiction|reflexivity].
Qed.

Lemma finish_ok fix_ fs out fs' out' :
  Organize.finish ROOT fix_ fs out = (fs', out', Ok tt) ->
  fs' = fs
  /\ out' = (out ++ ["Docs verification complete."])%list
  /\ Organize.docs_root_offenders ROOT fs = []
  /\ (fix_ = true -> Organize.find_stray_markdown ROOT fs = []).
Proof.
  unfold Organize.finish.
  destruct (Organize.ensure_docs_root_only_index ROOT fs) as [[]|e] eqn:E; [|discriminate].
  apply ensure_docs_root_ok in E.
  destruct fix_.
  - destruct (Organize.find_stray_markdown ROOT fs) eqn:S; simpl; [|discriminate].
    intros [= <- <-]. auto.
  - simpl. intros [= <- <-]. repeat split; auto. discriminate.
Qed.

Lemma finish_clean fix_ fs out :
  Organize.docs_root_offenders ROOT fs = [] ->
  Organize.find_stray_markdown ROOT fs = [] ->
  Organize.finish ROOT fix_ fs out = (fs, (out ++ ["Docs verification complete."])%list, Ok tt).
Proof.
  intros Hd Hs. unfold Organize.finish.
  apply ensure_docs_root_ok in Hd. rewrite Hd, Hs. now destruct fix_.
Qed.

(** A run that succeeds ends in a tree without strays and without
    offenders in the docs root. *)
Lemma main_ok fix_ fs fs' out :
  Organize.main ROOT set_iter fix_ fs = (fs', out, Ok tt) ->
  Organize.docs_root_offenders ROOT fs' = []
  /\ Organize.find_stray_markdown ROOT fs' = [].
Proof.
  unfold Organize.main.
  destruct (Organize.find_stray_markdown ROOT fs) as [|s strays] eqn:S.
  - rewrite andb_false_r. simpl. intros H.
    apply finish_ok in H as (-> & _ & Hd & _). auto.
  - rewrite andb_true_r. simpl. destruct fix_; [|discriminate].
    destruct (Organize.move_stray_files ROOT fs (s :: strays)) as [fs1 [moves|e]];
      [|discriminate].
    destruct (Organize.update_links ROOT set_iter fs1 moves) as [fs2 [updated|e]];
      [|discriminate].
    intros H. apply finish_ok in H as (-> & _ & Hd & Hs). auto.
Qed.

Lemma main_clean fix_ fs :
  Organize.docs_root_offenders ROOT fs = [] ->
  Organize.find_stray_markdown ROOT fs = [] ->
  Organize.main ROOT set_iter fix_ fs
  = (fs, ["No stray Markdown files found."; "Docs verification complete."], Ok tt).
Proof.
  intros Hd Hs. unfold Organize.main. rewrite Hs, andb_false_r. simpl.
  now rewrite finish_clean.
Qed.

End OrganizerMain.

(** ** What a fix run leaves of the docs root *)

Section DocsRootFrame.

Variable ROOT : path.
Variable set_iter : list string -> list string.

Lemma folders_plain :
  forallb plain_subfolder ("docs/misc" :: map snd Organize.patterns) = true.
Proof. vm_compute. reflexivity. Qed.

Lemma plain_subfolder_join (folder : string) :
  plain_subfolder folder = true ->
  exists c rest,
    Path.join ROOT folder = ((ROOT ++ ["docs"]) ++ c :: rest)%list /\ pat_md c = false.
Proof.
  unfold plain_subfolder, Path.join.
  destruct (Path.anchor_of folder); try discriminate.
  destruct (Path.parts folder) as [|c [|d rest]]; try discriminate.
  intros H. apply andb_true_iff in H as [H1 H2]. apply String.eqb_eq in H1 as ->.
  exists d, rest. rewrite <- app_assoc. split; [reflexivity|].
  now destruct (pat_md d).
Qed.

Lemma guess_target_folder_plain (stem : string) :
  exists c rest,
    Organize.guess_target_folder ROOT stem = ((ROOT ++ ["docs"]) ++ c :: rest)%list
    /\ pat_md c = false.
Proof.
  pose proof folders_plain as H. rewrite forallb_forall in H.
  unfold Organize.guess_target_folder.
  destruct (Organize.first_match (Str.upper stem) Organize.patterns) as [folder|] eqn:E.
  - apply plain_subfolder_join, H. right. eapply first_match_in; eassumption.
  - apply plain_subfolder_join, H. now left.
Qed.

Lemma names_of_lookup fs fs' p :
  FS.lookup fs' p = FS.lookup fs p -> names fs' p = names fs p.
Proof. unfold names. now intros ->. Qed.

(** A move from a place away from [ROOT/docs] to a destination that does
    not exist, in a folder that does, leaves the [*.md] names of
    [ROOT/docs]. *)
Lemma shutil_move_md_names fs s fs' :
  let target_dir := Organize.guess_target_folder ROOT (Path.stem s) in
  FS.is_dir fs target_dir = true ->
  FS.exists_ fs (destination_of ROOT s) = false ->
  FS.shutil_move fs s (destination_of ROOT s) = Ok fs' ->
  Path.is_relative_to s (ROOT ++ ["docs"])%list = false ->
  Path.is_relative_to (ROOT ++ ["docs"])%list s = false ->
  md_names fs' (ROOT ++ ["docs"])%list = md_names fs (ROOT ++ ["docs"])%list.
Proof.
  intros target_dir Hdir Hx Hm A1 A2.
  rewrite (shutil_move_fresh _ _ _ Hx) in Hm. unfold FS.rename in Hm.
  destruct (FS.lookup fs s) as [x|]; [|discriminate].
  destruct (Path.is_relative_to (destination_of ROOT s) s); [discriminate|].
  destruct (FS.put (FS.remove fs s) (destination_of ROOT s) x) as [fs2|] eqn:P;
    [|discriminate].
  injection Hm as <-.
  unfold md_names. f_equal.
  transitivity (names (FS.remove fs s) (ROOT ++ ["docs"])%list).
  - revert P Hx. unfold destination_of, Path.child. fold target_dir.
    destruct (Path.name s =? "").
    + intros _ Hx. unfold FS.is_dir, FS.exists_ in *.
      destruct (FS.lookup fs target_dir); discriminate.
    + destruct (guess_target_folder_plain (Path.stem s)) as (c & rest & E & _).
      fold target_dir in E. rewrite E, <- app_assoc. simpl.
      destruct (rest ++ [Path.name s])%list as [|d rest'] eqn:Q.
      { destruct rest; discriminate. }
      intros P _. eapply put_deep_names. eassumption.
  - apply names_of_lookup. now apply remove_elsewhere.
Qed.

Lemma move_loop_md_names fs acc strays fs' r :
  Organize.move_loop ROOT fs acc strays = (fs', r) ->
  (forall s, In s strays ->
     Path.is_relative_to s (ROOT ++ ["docs"])%list = false
     /\ Path.is_relative_to (ROOT ++ ["docs"])%list s = false) ->
  md_names fs' (ROOT ++ ["docs"])%list = md_names fs (ROOT ++ ["docs"])%list.
Proof.
  revert fs acc. induction strays as [|s strays IH]; intros fs acc H Hs.
  - simpl in H. now injection H as <- _.
  - rewrite move_loop_cons in H.
    destruct (FS.mkdir_p fs _) as [fs1|e] eqn:M.
    2:{ now injection H as <- _. }
    assert (E1 : md_names fs1 (ROOT ++ ["docs"])%list = md_names fs (ROOT ++ ["docs"])%list).
    { destruct (guess_target_folder_plain (Path.stem s)) as (c & rest & E & Hc).
      rewrite E in M. eapply mkdir_p_md_names; eassumption. }
    destruct (FS.exists_ fs1 _) eqn:X.
    { now injection H as <- _. }
    destruct (FS.shutil_move fs1 s _) as [fs2|e] eqn:S.
    2:{ now injection H as <- _. }
    rewrite <- E1.
    destruct (Hs s (or_introl eq_refl)) as [A1 A2].
    rewrite <- (shutil_move_md_names fs1 s fs2 (mkdir_p_is_dir _ _ _ M) X S A1 A2).
    eapply IH; [eassumption|]. intros s' Hs'. apply Hs. now right.
Qed.

Lemma update_loop_names fs mapping updated files fs' r p :
  Organize.update_loop ROOT set_iter fs mapping updated files = (fs', r) ->
  names fs' p = names fs p.
Proof.
  revert fs updated. induction files as [|f files IH]; intros fs updated; simpl.
  - now intros [= <- _].
  - destruct (FS.lookup fs f) as [[[original|]|es]|] eqn:L.
    + destruct (_ =? original); [apply IH|].
      unfold FS.write_text. rewrite L.
      destruct (FS.put fs f _) as [fs1|] eqn:P.
      * intros H. apply IH in H. rewrite H.
        eapply put_file_names; eassumption.
      * now intros [= <- _].
    + apply IH.
    + now intros [= <- _].
    + now intros [= <- _].
Qed.

Lemma update_links_names fs moves fs' r p :
  Organize.update_links ROOT set_iter fs moves = (fs', r) ->
  names fs' p = names fs p.
Proof.
  unfold Organize.update_links. destruct moves as [|m moves].
  - now intros [= <- _].
  - destruct (Organize.build_mapping ROOT [] (m :: moves)) as [mapping|e].
    + apply update_loop_names.
    + now intros [= <- _].
Qed.

Lemma docs_root_offenders_names fs :
  Organize.docs_root_offenders ROOT fs =
  filter (fun p => negb (Path.name p =? "README.md"))
         (map (fun n => ((ROOT ++ ["docs"]) ++ [n])%list)
              (md_names fs (ROOT ++ ["docs"])%list)).
Proof.
  unfold Organize.docs_root_offenders. now rewrite glob_names.
Qed.

(** The strays are away from [ROOT/docs]: not at or below it, nor above. *)
Lemma stray_away_from_docs fs s :
  In s (Organize.find_stray_markdown ROOT fs) ->
  Path.is_relative_to s (ROOT ++ ["docs"])%list = false
  /\ Path.is_relative_to (ROOT ++ ["docs"])%list s = false.
Proof.
  unfold Organize.find_stray_markdown, Organize.find_markdown.
  intros H. apply filter_In in H as [H Ha]. apply filter_In in H as [H _].
  apply rglob_below in H as (r & Hr & ->).
  assert (A1 : Path.is_relative_to (ROOT ++ r)%list (ROOT ++ ["docs"])%list = false).
  { destruct (Path.is_relative_to _ _) eqn:E; [|reflexivity].
    apply docs_prefix_allowed in E. rewrite E in Ha. discriminate. }
  split; [exact A1|].
  destruct (Path.is_relative_to (ROOT ++ ["docs"])%list (ROOT ++ r)%list) eqn:E;
    [|reflexivity].
  apply is_relative_to_spec in E as [r' E]. rewrite <- app_assoc in E.
  apply app_inv_head in E.
  destruct r as [|c [|d r]]; [congruence| |discriminate].
  injection E as <- _.
  assert (A : Path.is_relative_to (ROOT ++ ["docs"])%list (ROOT ++ ["docs"])%list = true)
    by (apply is_relative_to_spec; exists []; now rewrite app_nil_r).
  congruence.
Qed.

(** The moves and the link updates of a fix run leave the offenders of the
    docs root as they were. *)
Lemma fix_run_keeps_offenders fs fs1 r1 moves fs2 r2 :
  Organize.move_stray_files ROOT fs (Organize.find_stray_markdown ROOT fs) = (fs1, r1) ->
  Organize.update_links ROOT set_iter fs1 moves = (fs2, r2) ->
  Organize.docs_root_offenders ROOT fs2 = Organize.docs_root_offenders ROOT fs.
Proof.
  intros Hm Hu. rewrite !docs_root_offenders_names. do 2 f_equal.
  unfold md_names at 1. rewrite (update_links_names _ _ _ _ _ Hu).
  fold (md_names fs1 (ROOT ++ ["docs"])%list).
  eapply move_loop_md_names; [exact Hm|].
  intros s Hs. eapply stray_away_from_docs; eassumption.
Qed.

End DocsRootFrame.

Section OrganizerMainClaims.

Variable ROOT : path.
Variable set_iter : list string -> list string.

(** C5.  After a fix run that succeeds the tree holds no stray: every
    Markdown file that the scan yields is in an allowed place.  A second fix
    run on that tree, in whatever order it would enumerate sets, finds no
    stray, prints that, moves nothing, rewrites nothing, and leaves the tree
    as it is. *)
Theorem second_fix_run_changes_nothing fs fs' out :
  Organize.main ROOT set_iter true fs = (fs', out, Ok tt) ->
  Organize.find_stray_markdown ROOT fs' = []
  /\ (forall p, In p (Organize.find_markdown ROOT fs') -> Organize.is_allowed ROOT p = true)
  /\ (forall set_iter',
        Organize.main ROOT set_iter' true fs'
        = (fs', ["No stray Markdown files found."; "Docs verification complete."], Ok tt))
  /\ Organize.move_stray_files ROOT fs' (Organize.find_stray_markdown ROOT fs')
     = (fs', Ok []).
Proof.
  intros H. apply main_ok in H as [Hd Hs].
  split; [assumption|]. split; [|split].
  - intros p Hp. destruct (Organize.is_allowed ROOT p) eqn:A; [reflexivity|].
    assert (Hin : In p (Organize.find_stray_markdown ROOT fs')).
    { unfold Organize.find_stray_markdown. apply filter_In. now rewrite A. }
    rewrite Hs in Hin. contradiction.
  - intros set_iter'. now apply main_clean.
  - now rewrite Hs.
Qed.

(** C7, as the code has it.  The docs-root check raises when an entry of
    [ROOT/docs] has a name that ends in [.md] and is not [README.md], and its
    message holds a line for each such entry.  [main] reaches the check when
    there is no stray, with or without [--fix], and in a fix run whose moves
    and link updates raised nothing; those leave the entries in question as
    they were, so the run ends with the message for the entries of the tree
    it started on.  A run without [--fix] that finds strays ends before the
    check, with the message that counts the strays, and a fix run in which a
    move raises ends there. *)
Theorem docs_root_check_when_reached fs :
  (forall p, In p (Organize.docs_root_offenders ROOT fs) <->
             exists es name x,
               FS.lookup fs (ROOT ++ ["docs"])%list = Some (FS.Dir es)
               /\ In (name, x) es
               /\ p = (ROOT ++ ["docs"; name])%list
               /\ (exists a, name = a ++ ".md")
               /\ name <> "README.md")
  /\ (Organize.docs_root_offenders ROOT fs <> [] ->
      Organize.ensure_docs_root_only_index ROOT fs
      = Raise (SystemExit (Organize.docs_root_message ROOT
                             (Organize.docs_root_offenders ROOT fs)))
      /\ forall p, In p (Organize.docs_root_offenders ROOT fs) ->
           exists a b, Organize.docs_root_message ROOT (Organize.docs_root_offenders ROOT fs)
                       = a ++ (" - " ++ Organize.rel_str ROOT p) ++ b)
  /\ (forall fix_,
        Organize.find_stray_markdown ROOT fs = [] ->
        Organize.docs_root_offenders ROOT fs <> [] ->
        Organize.main ROOT set_iter fix_ fs
        = (fs, ["No stray Markdown files found."],
           Raise (SystemExit (Organize.docs_root_message ROOT
                                (Organize.docs_root_offenders ROOT fs)))))
  /\ (forall fs1 moves fs2 updated,
        Organize.move_stray_files ROOT fs (Organize.find_stray_markdown ROOT fs)
        = (fs1, Ok moves) ->
        Organize.update_links ROOT set_iter fs1 moves = (fs2, Ok updated) ->
        Organize.docs_root_offenders ROOT fs <> [] ->
        exists out,
          Organize.main ROOT set_iter true fs
          = (fs2, out,
             Raise (SystemExit (Organize.docs_root_message ROOT
                                  (Organize.docs_root_offenders ROOT fs)))))
  /\ (Organize.find_stray_markdown ROOT fs <> [] ->
      Organize.main ROOT set_iter false fs
      = (fs, [],
         Raise (SystemExit (Organize.found_message
                              (List.length (Organize.find_stray_markdown ROOT fs))))))
  /\ (forall fs1 e,
        Organize.find_stray_markdown ROOT fs <> [] ->
        Organize.move_stray_files ROOT fs (Organize.find_stray_markdown ROOT fs)
        = (fs1, Raise e) ->
        exists out, Organize.main ROOT set_iter true fs = (fs1, out, Raise e)).
Proof.
  split; [apply docs_root_offenders_spec|].
  split.
  { intros H. split; [now apply ensure_docs_root_raises|].
    intros p Hp. now apply docs_root_message_lists. }
  split.
  { intros fix_ Hs Hd. unfold Organize.main. rewrite Hs, andb_false_r. simpl.
    unfold Organize.finish. now rewrite ensure_docs_root_raises. }
  split.
  { intros fs1 moves fs2 updated Hm Hu Hd.
    pose proof (fix_run_keeps_offenders ROOT set_iter fs fs1 _ moves fs2 _ Hm Hu) as Hk.
    unfold Organize.main.
    destruct (Organize.find_stray_markdown ROOT fs) as [|s strays].
    - injection Hm as <- <-. injection Hu as <- _. simpl.
      unfold Organize.finish. rewrite ensure_docs_root_raises by assumption.
      eexists. reflexivity.
    - simpl. rewrite Hm, Hu. unfold Organize.finish.
      rewrite ensure_docs_root_raises by (now rewrite Hk).
      rewrite Hk. eexists. reflexivity. }
  split.
  { intros Hs. unfold Organize.main.
    destruct (Organize.find_stray_markdown ROOT fs) as [|s strays]; [congruence|].
    reflexivity. }
  intros fs1 e Hs Hm. unfold Organize.main.
  destruct (Organize.find_stray_markdown ROOT fs) as [|s strays]; [congruence|].
  simpl. rewrite Hm. eexists. reflexivity.
Qed.

End OrganizerMainClaims.

(** ** The link checker *)

Section Checker.

Variable ROOT : path.

(** The loop over the links of a file adds the reported links of the file,
    in order, when no link raises. *)
Lemma check_links_ok fs md_file errors hrefs errors' :
  Verify.check_links ROOT fs md_file errors hrefs = Ok errors' ->
  errors' = (errors ++ error_lines ROOT (broken_links_of ROOT fs md_file hrefs))%list.
Proof.
  unfold broken_links_of, error_lines.
  revert errors. induction hrefs as [|href hrefs IH]; intros errors; simpl.
  - intros [= <-]. now rewrite app_nil_r.
  - unfold broken.
    destruct (Verify.should_check href); simpl; [|apply IH].
    destruct (Verify.resolve_target ROOT md_file href) as [[t|]|e]; simpl;
      [| |discriminate].
    + destruct (FS.exists_ fs t); simpl; [apply IH|].
      intros H. apply IH in H. now rewrite <- app_assoc in H.
    + intros H. apply IH in H. now rewrite <- app_assoc in H.
Qed.

Lemma check_files_ok fs errors files errors' :
  Verify.check_files ROOT fs errors files = Ok errors' ->
  errors' =
  (errors ++ error_lines ROOT
     (flat_map (fun md_file =>
                  match FS.lookup fs md_file with
                  | Some (FS.File (FS.Text text)) =>
                      broken_links_of ROOT fs md_file (Verify.finditer text)
                  | _ => []
                  end) files))%list.
Proof.
  unfold error_lines.
  revert errors. induction files as [|f files IH]; intros errors; simpl.
  - intros [= <-]. now rewrite app_nil_r.
  - unfold Verify.read_text.
    destruct (FS.lookup fs f) as [[[text|]|es]|]; simpl; try discriminate.
    + destruct (Verify.check_links ROOT fs f errors (Verify.finditer text))
        as [errs|e] eqn:C; simpl; [|discriminate].
      apply check_links_ok in C. subst errs.
      intros H. apply IH in H. rewrite H.
      unfold error_lines. now rewrite map_app, app_assoc.
    + apply IH.
Qed.

(** When [main] returns, it returns the report of the links to report. *)
Lemma main_returns fs result :
  Verify.main ROOT fs = Ok result ->
  result = match broken_links ROOT fs with
           | [] => (["Markdown link check passed."], 0)
           | pairs => (report ROOT pairs, 1)
           end.
Proof.
  unfold Verify.main.
  destruct (Verify.check_files ROOT fs [] (Verify.iter_markdown ROOT fs))
    as [errors|e] eqn:C; simpl; [|discriminate].
  apply check_files_ok in C. simpl in C. fold (broken_links ROOT fs) in C.
  subst errors. unfold error_lines, report.
  destruct (broken_links ROOT fs) as [|pr pairs]; simpl.
  - now intros [= <-].
  - intros [= <-]. now rewrite map_map.
Qed.

Lemma broken_links_spec fs md_file href :
  In (md_file, href) (broken_links ROOT fs)
  <-> scanned_link ROOT fs md_file href /\ ~ resolves ROOT fs md_file href.
Proof.
  unfold broken_links, scanned_link, resolves, file_at.
  rewrite in_flat_map. split.
  - intros (f & Hf & Hin).
    destruct (FS.lookup fs f) as [[[text|]|es]|] eqn:L; try contradiction.
    unfold broken_links_of in Hin.
    apply in_map_iff in Hin as (h & [= -> ->] & Hin).
    apply filter_In in Hin as [Hin Hb]. apply andb_true_iff in Hb as [Hc Hb].
    split.
    + split; [assumption|]. exists text. auto.
    + intros (t & R & X). unfold broken in Hb. rewrite R, X in Hb. discriminate.
  - intros [(Hf & text & L & Hin & Hc) Hn].
    exists md_file. split; [assumption|]. rewrite L.
    unfold broken_links_of. apply in_map_iff. exists href. split; [reflexivity|].
    apply filter_In. split; [assumption|]. rewrite Hc. simpl.
    unfold broken.
    destruct (Verify.resolve_target ROOT md_file href) as [[t|]|e]; try reflexivity.
    destruct (FS.exists_ fs t) eqn:X; [|reflexivity].
    exfalso. apply Hn. now exists t.
Qed.

(** The loops raise nothing when every scanned entry is a regular file and
    every link in scope has a path to resolve. *)
Lemma check_links_total fs md_file errors hrefs :
  (forall href, In href hrefs -> Verify.should_check href = true ->
                exists t, Verify.target_path ROOT md_file href = Ok t) ->
  exists errors', Verify.check_links ROOT fs md_file errors hrefs = Ok errors'.
Proof.
  revert errors. induction hrefs as [|href hrefs IH]; intros errors H; simpl.
  - eauto.
  - assert (IH' : forall errs, exists errors',
               Verify.check_links ROOT fs md_file errs hrefs = Ok errors').
    { intros errs. apply IH. intros h Hh. apply H. now right. }
    destruct (Verify.should_check href) eqn:C; simpl; [|apply IH'].
    destruct (H href (or_introl eq_refl) C) as [t Ht].
    unfold Verify.resolve_target. rewrite Ht. simpl.
    destruct (Path.relative_to t ROOT); simpl; [|apply IH'].
    destruct (FS.exists_ fs t); apply IH'.
Qed.

Lemma check_files_total fs errors files :
  (forall md_file, In md_file files -> FS.is_file fs md_file = true) ->
  (forall md_file text href,
     In md_file files -> file_at fs md_file (FS.Text text) ->
     In href (Verify.finditer text) -> Verify.should_check href = true ->
     exists t, Verify.target_path ROOT md_file href = Ok t) ->
  exists errors', Verify.check_files ROOT fs errors files = Ok errors'.
Proof.
  revert errors. induction files as [|f files IH]; intros errors H1 H2; simpl.
  - eauto.
  - assert (IH' : forall errs, exists errors',
               Verify.check_files ROOT fs errs files = Ok errors').
    { intros errs. apply IH.
      - intros g Hg. apply H1. now right.
      - intros g text href Hg. apply H2. now right. }
    pose proof (H1 f (or_introl eq_refl)) as Hf.
    unfold FS.is_file in Hf. unfold Verify.read_text.
    destruct (FS.lookup fs f) as [[[text|]|es]|] eqn:L; try discriminate; simpl.
    + destruct (check_links_total fs f errors (Verify.finditer text)) as [errs E].
      { intros href Hin C. apply (H2 f text href); auto. now left. }
      rewrite E. simpl. apply IH'.
    + apply IH'.
Qed.

Lemma main_total fs :
  (forall md_file, In md_file (Verify.iter_markdown ROOT fs) ->
                   FS.is_file fs md_file = true) ->
  (forall md_file href, scanned_link ROOT fs md_file href ->
                        exists t, Verify.target_path ROOT md_file href = Ok t) ->
  exists result, Verify.main ROOT fs = Ok result.
Proof.
  intros H1 H2. unfold Verify.main.
  destruct (check_files_total fs [] (Verify.iter_markdown ROOT fs)) as [errors E].
  - exact H1.
  - intros f text href Hf Ht Hin C. apply H2. split; [assumption|].
    exists text. auto.
  - rewrite E. simpl. destruct (truthy errors); eauto.
Qed.

End Checker.

Section CheckerClaims.

Variable ROOT : path.

Lemma resolves_dec fs md_file href :
  resolves ROOT fs md_file href \/ ~ resolves ROOT fs md_file href.
Proof.
  unfold resolves.
  destruct (Verify.resolve_target ROOT md_file href) as [[t|]|e] eqn:R.
  - destruct (FS.exists_ fs t) eqn:X.
    + left. now exists t.
    + right. intros (t' & [= <-] & X'). congruence.
  - right. intros (t' & [=] & _).
  - right. intros (t' & [=] & _).
Qed.

(** C6, on a tree where the code fails.  [README.md] holds a link to the
    missing [gone.md] and then a link whose path unquotes to [//a.md].  Both
    links are in scope; the first resolves to a path of the repository that
    does not exist, so it is a broken link; the second makes
    [relative_to("/")] raise [ValueError] in [resolve_target].  Nothing
    catches it: [main] ends with the exception, returns no exit code and
    lists no broken link. *)
Theorem checker_raises_and_reports_nothing :
  let readme := (Scenario.R0 ++ ["README.md"])%list in
  Verify.iter_markdown Scenario.R0 Cases.unreported_tree = [readme]
  /\ file_at Cases.unreported_tree readme (FS.Text "[g](gone.md) [l](%2F%2Fa.md)")
  /\ Verify.finditer "[g](gone.md) [l](%2F%2Fa.md)" = ["gone.md"; "%2F%2Fa.md"]
  /\ Verify.should_check "gone.md" = true
  /\ Verify.resolve_target Scenario.R0 readme "gone.md"
     = Ok (Some (Scenario.R0 ++ ["gone.md"])%list)
  /\ FS.exists_ Cases.unreported_tree (Scenario.R0 ++ ["gone.md"])%list = false
  /\ Verify.should_check "%2F%2Fa.md" = true
  /\ Url.unquote (Url.path (Url.urlparse "%2F%2Fa.md")) = "//a.md"
  /\ Verify.resolve_target Scenario.R0 readme "%2F%2Fa.md" = Raise ValueError
  /\ scanned_link Scenario.R0 Cases.unreported_tree readme "gone.md"
  /\ ~ resolves Scenario.R0 Cases.unreported_tree readme "gone.md"
  /\ Verify.main Scenario.R0 Cases.unreported_tree = Raise ValueError.
Proof.
  cbv zeta.
  assert (S : scanned_link Scenario.R0 Cases.unreported_tree
                (Scenario.R0 ++ ["README.md"])%list "gone.md").
  { split; [now left|]. exists "[g](gone.md) [l](%2F%2Fa.md)".
    split; [reflexivity|]. split; [now left|reflexivity]. }
  assert (N : ~ resolves Scenario.R0 Cases.unreported_tree
                  (Scenario.R0 ++ ["README.md"])%list "gone.md").
  { intros (t & T & X). vm_compute in T. injection T as <-. discriminate X. }
  repeat (split; [reflexivity|]).
  split; [exact S|]. split; [exact N|]. reflexivity.
Qed.

End CheckerClaims.

(** ** The resolver *)

Section Resolver.

Variable ROOT : path.

(** [ROOT] comes from [resolve()]: it has no [..] component. *)
Hypothesis ROOT_resolved : ~ In ".." ROOT.

Lemma resolve_from_app acc cs rest :
  ~ In ".." cs ->
  Path.resolve_from acc (cs ++ rest)%list = Path.resolve_from (rev cs ++ acc)%list rest.
Proof.
  revert acc. induction cs as [|c cs IH]; intros acc H; simpl; [reflexivity|].
  destruct (String.eqb_spec c "..") as [->|_].
  - exfalso. apply H. now left.
  - rewrite IH by (intros Hin; apply H; now right).
    now rewrite <- app_assoc.
Qed.

Lemma resolve_below_root cs :
  Path.resolve (ROOT ++ cs)%list = Path.resolve_from (rev ROOT) cs.
Proof.
  unfold Path.resolve. rewrite resolve_from_app by assumption.
  now rewrite app_nil_r.
Qed.

Lemma parent_of_file (dir : path) (name : string) :
  Path.parent (dir ++ [name])%list = dir.
Proof. apply removelast_last. Qed.

Lemma relative_to_sibling (p : path) (x y : string) :
  x <> y -> Path.relative_to (p ++ [x])%list (p ++ [y])%list = None.
Proof.
  intros H. induction p as [|c p IH]; simpl.
  - destruct (String.eqb_spec x y); [contradiction|reflexivity].
  - now rewrite String.eqb_refl.
Qed.

Ltac finish_resolve :=
  simpl; rewrite ?rev_involutive, <- ?app_assoc; simpl;
  rewrite relative_to_app; reflexivity.

(** What [resolve_target] returns is [ROOT] or below it. *)
Lemma resolve_target_in_tree current_file href target :
  Verify.resolve_target ROOT current_file href = Ok (Some target) ->
  exists r, target = (ROOT ++ r)%list.
Proof.
  unfold Verify.resolve_target, Verify.target_path.
  destruct (Path.anchor_of _); simpl; try discriminate.
  - destruct (Path.relative_to _ ROOT) as [r|] eqn:E; [|discriminate].
    intros [= <-]. exists r. now apply relative_to_split.
  - destruct (Path.relative_to _ ROOT) as [r|] eqn:E; [|discriminate].
    intros [= <-]. exists r. now apply relative_to_split.
Qed.

(** C2.  The table of the resolver, for the file [docs/a.md] of the
    repository: [./b.md] resolves to [docs/b.md] and [../README.md] to the
    [README.md] of the root; [/docs/c.md] resolves to [docs/c.md] of the
    repository, whatever the file that holds the link; a link to an [https]
    address and a link that is a fragment are not in scope, and a link that
    is not in scope is passed over; a target that is returned lies within
    [ROOT], and a path that is normalized to a place outside [ROOT] resolves
    to no target, as does [../../outside.md], which leads above [ROOT] when
    [ROOT] is not [/] and is not itself named [outside.md]. *)
Theorem resolver_table :
  let a_md := (ROOT ++ ["docs"; "a.md"])%list in
  (Verify.should_check "./b.md" = true
   /\ Verify.resolve_target ROOT a_md "./b.md" = Ok (Some (ROOT ++ ["docs"; "b.md"])%list))
  /\ (Verify.should_check "../README.md" = true
      /\ Verify.resolve_target ROOT a_md "../README.md" = Ok (Some (ROOT ++ ["README.md"])%list))
  /\ (Verify.should_check "/docs/c.md" = true
      /\ forall current_file,
           Verify.resolve_target ROOT current_file "/docs/c.md"
           = Ok (Some (ROOT ++ ["docs"; "c.md"])%list))
  /\ Verify.should_check "https://example.com/x.md" = false
  /\ Verify.should_check "#section" = false
  /\ (forall fs md_file errors href hrefs,
        Verify.should_check href = false ->
        Verify.check_links ROOT fs md_file errors (href :: hrefs)
        = Verify.check_links ROOT fs md_file errors hrefs)
  /\ (forall current_file href target,
        Verify.resolve_target ROOT current_file href = Ok (Some target) ->
        exists r, target = (ROOT ++ r)%list)
  /\ (forall current_file href target,
        Verify.target_path ROOT current_file href = Ok target ->
        Path.is_relative_to target ROOT = false ->
        Verify.resolve_target ROOT current_file href = Ok None)
  /\ (Verify.should_check "../../outside.md" = true
      /\ (ROOT <> [] -> Path.name ROOT <> "outside.md" ->
          Verify.resolve_target ROOT a_md "../../outside.md" = Ok None)).
Proof.
  intros a_md.
  assert (Hparent : Path.parent a_md = (ROOT ++ ["docs"])%list).
  { subst a_md. change (ROOT ++ ["docs"; "a.md"])%list
      with (ROOT ++ ["docs"] ++ ["a.md"])%list.
    rewrite app_assoc. apply parent_of_file. }
  split; [|split; [|split; [|split; [|split; [|split; [|split; [|split]]]]]]].
  - split; [reflexivity|].
    unfold Verify.resolve_target, Verify.target_path.
    change (Str.before "?" (Str.before "#" (Url.unquote (Url.path (Url.urlparse "./b.md")))))
      with "./b.md".
    change (Path.anchor_of "./b.md") with Path.Relative.
    change (Path.parts "./b.md") with ["b.md"].
    rewrite Hparent, <- app_assoc, resolve_below_root. finish_resolve.
  - split; [reflexivity|].
    unfold Verify.resolve_target, Verify.target_path.
    change (Str.before "?" (Str.before "#"
              (Url.unquote (Url.path (Url.urlparse "../README.md")))))
      with "../README.md".
    change (Path.anchor_of "../README.md") with Path.Relative.
    change (Path.parts "../README.md") with [".."; "README.md"].
    rewrite Hparent, <- app_assoc, resolve_below_root. finish_resolve.
  - split; [reflexivity|]. intros current_file.
    unfold Verify.resolve_target, Verify.target_path.
    change (Str.before "?" (Str.before "#"
              (Url.unquote (Url.path (Url.urlparse "/docs/c.md")))))
      with "/docs/c.md".
    change (Path.anchor_of "/docs/c.md") with Path.Slash.
    change (Path.parts "/docs/c.md") with ["docs"; "c.md"].
    rewrite resolve_below_root. finish_resolve.
  - reflexivity.
  - reflexivity.
  - intros fs md_file errors href hrefs H. simpl. now rewrite H.
  - apply resolve_target_in_tree.
  - intros current_file href target Ht Hr. unfold Verify.resolve_target.
    rewrite Ht. simpl. unfold Path.is_relative_to in Hr.
    now destruct (Path.relative_to target ROOT).
  - split; [reflexivity|]. intros Hne Hname.
    unfold Verify.resolve_target, Verify.target_path.
    change (Str.before "?" (Str.before "#"
              (Url.unquote (Url.path (Url.urlparse "../../outside.md")))))
      with "../../outside.md".
    change (Path.anchor_of "../../outside.md") with Path.Relative.
    change (Path.parts "../../outside.md") with [".."; ".."; "outside.md"].
    rewrite Hparent, <- app_assoc, resolve_below_root. simpl.
    destruct (exists_last Hne) as (R' & l & E).
    unfold Path.name in Hname. rewrite E, last_last in Hname.
    rewrite E, rev_app_distr. simpl. rewrite rev_involutive.
    rewrite relative_to_sibling by congruence. reflexivity.
Qed.

End Resolver.

(** ** The link rewriter *)

Section Rewriter.

Variable ROOT : path.
Variable set_iter : list string -> list string.
Hypothesis set_iter_enumerates : enumerates_sets set_iter.

Lemma relpath_parts_below (base p q : path) :
  Path.relpath_parts (base ++ p)%list (base ++ q)%list = Path.relpath_parts p q.
Proof.
  induction base as [|c base IH]; simpl; [reflexivity|].
  now rewrite String.eqb_refl.
Qed.

Lemma relpath_below (p q : path) :
  Path.relpath (ROOT ++ p)%list (ROOT ++ q)%list = Path.as_posix (Path.relpath_parts p q).
Proof. unfold Path.relpath. now rewrite relpath_parts_below. Qed.

Lemma parent_below (dir : path) (name : string) :
  Path.parent (ROOT ++ dir ++ [name])%list = (ROOT ++ dir)%list.
Proof. rewrite app_assoc. apply removelast_last. Qed.


End Rewriter.

Section RewriterScenario.

Import Scenario.

Variable set_iter : list string -> list string.
Hypothesis set_iter_enumerates : enumerates_sets set_iter.

Lemma set_iter_in (l : list string) (x : string) : In x (set_iter l) -> In x l.
Proof.
  intros H. apply (nodup_In string_dec).
  eapply Permutation_in; [|exact H].
  apply Permutation_sym, set_iter_enumerates.
Qed.

Lemma replace_needles_absent new_rel needles text :
  (forall needle, In needle needles -> Str.contains needle text = false) ->
  Organize.replace_needles new_rel needles text = text.
Proof.
  induction needles as [|n needles IH]; intros H; simpl; [reflexivity|].
  rewrite (H n (or_introl eq_refl)). apply IH.
  intros n' Hn'. apply H. now right.
Qed.




End RewriterScenario.

(** ** Replacing the root-relative spelling *)

Section RootSpelling.

Lemma replace_from_skip (old new a s : string) :
  Str.replace_from old new (String.length a) (a ++ s) = Str.replace_from old new 0 s.
Proof. induction a as [|c a IH]; [reflexivity|]. exact IH. Qed.

Lemma replace_x_here (s : string) :
  Str.replace "x.md" "../docs/misc/x.md" ("x.md" ++ s)
  = "../docs/misc/x.md" ++ Str.replace "x.md" "../docs/misc/x.md" s.
Proof.
  unfold Str.replace.
  change (Str.replace_from "x.md" "../docs/misc/x.md" 0 ("x.md" ++ s))
    with ("../docs/misc/x.md"
          ++ Str.replace_from "x.md" "../docs/misc/x.md" (String.length ".md") (".md" ++ s)).
  now rewrite replace_from_skip.
Qed.

Lemma replace_x_later (c : ascii) (s : string) :
  Str.startswith "x.md" (String c s) = false ->
  Str.replace "x.md" "../docs/misc/x.md" (String c s)
  = String c (Str.replace "x.md" "../docs/misc/x.md" s).
Proof.
  intros H. unfold Str.replace. cbn [Str.replace_from]. now rewrite H.
Qed.








Lemma str_length_app (a b : string) :
  String.length (a ++ b) = (String.length a + String.length b)%nat.
Proof. induction a as [|c a IH]; simpl; [reflexivity|]. now rewrite IH. Qed.








Lemma startswith_app_long (q a b : string) :
  (String.length q <= String.length a)%nat ->
  Str.startswith q (a ++ b) = Str.startswith q a.
Proof.
  revert a. induction q as [|c q IH]; intros a L; [reflexivity|].
  destruct a as [|d a]; [simpl in L; lia|].
  cbn [append Str.startswith]. rewrite IH; [reflexivity|simpl in L; lia].
Qed.

(** The first [x.md] of a text and what stands before it. *)
Lemma replace_x_first (pre post : string) :
  Str.contains "x.md" (pre ++ "x.m") = false ->
  Str.replace "x.md" "../docs/misc/x.md" (pre ++ "x.md" ++ post)
  = pre ++ "../docs/misc/x.md" ++ Str.replace "x.md" "../docs/misc/x.md" post.
Proof.
  induction pre as [|c pre IH]; intros H; [apply replace_x_here|].
  change (Str.contains "x.md" (String c (pre ++ "x.m")) = false) in H.
  cbn [Str.contains] in H. apply orb_false_iff in H as [M H].
  change ((String c pre) ++ "x.md" ++ post) with (String c (pre ++ "x.md" ++ post)).
  rewrite replace_x_later.
  - now rewrite (IH H).
  - assert (E : Str.startswith "x.md" (String c (pre ++ "x.md" ++ post))
                = Str.startswith "x.md" (String c (pre ++ "x.m"))).
    { change (String c (pre ++ "x.md" ++ post))
        with (String c pre ++ "x.m" ++ ("d" ++ post)).
      rewrite <- str_app_assoc. apply startswith_app_long.
      cbn [append String.length]. rewrite str_length_app. simpl. lia. }
    now rewrite E.
Qed.

End RootSpelling.


(** ** Replacing around a character that the needle does not hold *)

Section Separator.

Variable c : ascii.





End Separator.





Section RewriterClaims.

Import Scenario.

Variable ROOT : path.
Variable set_iter : list string -> list string.
Hypothesis set_iter_enumerates : enumerates_sets set_iter.







End RewriterClaims.

(** ** The claims on the trees of the examples *)

Section Examples.

Import Scenario.

Lemma nodup_enumerates : enumerates_sets (nodup string_dec).
Proof. intros l. apply Permutation_refl. Defined.



Lemma conflict_is_fatal_and_overwrites_nothing_witness :
  Organize.move_stray_files R0 conflict_tree [] = (conflict_tree, Ok [])
  /\ Path.name x_md <> ""
  /\ FS.exists_ conflict_tree (destination_of R0 x_md) = true
  /\ snd (Organize.move_stray_files R0 conflict_tree ([] ++ x_md :: [y_md])%list)
     = Raise (SystemExit (Organize.conflict_message (destination_of R0 x_md))).
Proof.
  assert (H1 : Organize.move_stray_files R0 conflict_tree [] = (conflict_tree, Ok []))
    by reflexivity.
  assert (H2 : Path.name x_md <> "") by (vm_compute; discriminate).
  assert (H3 : FS.exists_ conflict_tree (destination_of R0 x_md) = true)
    by (vm_compute; reflexivity).
  split; [exact H1|split; [exact H2|split; [exact H3|]]].
  exact (proj1 (conflict_is_fatal_and_overwrites_nothing
                  R0 conflict_tree [] x_md [y_md] conflict_tree [] H1 H2 H3)).
Defined.

(** C8, as stated: no function reads, off the error of a conflict, the
    number of moves made before it.  [conflict_tree] stops at [x.md] with no
    move made, [conflict_tree_2] with one, and the errors are the same. *)
Lemma conflict_message_hides_the_count :
  ~ exists count_of : string -> nat,
      forall fs pre s post fs1 moves fs' msg,
        Organize.move_stray_files R0 fs pre = (fs1, Ok moves) ->
        Organize.move_stray_files R0 fs (pre ++ s :: post)%list
        = (fs', Raise (SystemExit msg)) ->
        count_of msg = List.length moves.
Proof.
  intros [count_of H].
  pose proof (H conflict_tree [] x_md [] conflict_tree [] _ _ eq_refl eq_refl) as H0.
  pose proof (H conflict_tree_2 [y_md] x_md [] _ _ _ _ eq_refl eq_refl) as H1.
  vm_compute in H0, H1. congruence.
Qed.

Lemma conflict_message_names_destination_only_witness :
  Organize.move_stray_files R0 conflict_tree_2 [y_md]
  = (fst (Organize.move_stray_files R0 conflict_tree_2 [y_md]),
     Ok [(y_md, destination_of R0 y_md)])
  /\ Path.name x_md <> ""
  /\ FS.exists_ (fst (Organize.move_stray_files R0 conflict_tree_2 [y_md]))
       (destination_of R0 x_md) = true
  /\ snd (Organize.move_stray_files R0 conflict_tree_2 ([y_md] ++ x_md :: [])%list)
     = Raise (SystemExit ("Refusing to overwrite existing file: "
                          ++ "/srv/repo/docs/misc/x.md"
                          ++ ". Resolve the conflict and rerun the command.")).
Proof.
  assert (H1 : Organize.move_stray_files R0 conflict_tree_2 [y_md]
               = (fst (Organize.move_stray_files R0 conflict_tree_2 [y_md]),
                  Ok [(y_md, destination_of R0 y_md)]))
    by (vm_compute; reflexivity).
  assert (H2 : Path.name x_md <> "") by (vm_compute; discriminate).
  assert (H3 : FS.exists_ (fst (Organize.move_stray_files R0 conflict_tree_2 [y_md]))
                 (destination_of R0 x_md) = true)
    by (vm_compute; reflexivity).
  split; [exact H1|split; [exact H2|split; [exact H3|]]].
  exact (proj1 (conflict_message_names_destination_only
                  R0 conflict_tree_2 [y_md] x_md [] _ _ H1 H2 H3)).
Defined.

Lemma mover_frame_witness :
  Organize.move_stray_files R0 conflict_tree_2 [y_md; x_md]
  = (fst (Organize.move_stray_files R0 conflict_tree_2 [y_md]),
     Raise (SystemExit (Organize.conflict_message misc_x_md)))
  /\ file_at (fst (Organize.move_stray_files R0 conflict_tree_2 [y_md]))
             misc_x_md (FS.Text "old").
Proof.
  assert (H : Organize.move_stray_files R0 conflict_tree_2 [y_md; x_md]
              = (fst (Organize.move_stray_files R0 conflict_tree_2 [y_md]),
                 Raise (SystemExit (Organize.conflict_message misc_x_md))))
    by (vm_compute; reflexivity).
  split; [exact H|].
  apply (proj1 (proj2 (mover_frame R0 conflict_tree_2 [y_md; x_md] _ _ H))).
  - vm_compute. reflexivity.
  - intros q [<-|[<-|[]]]; vm_compute; reflexivity.
Defined.

(** C10, as stated: there is no run that stops on a conflict after it has
    made a directory for the source of the conflict.  Whenever the
    destination of [s] is found after the [mkdir_p] made for [s], that
    [mkdir_p] has left the tree as the earlier moves left it. *)
Lemma conflict_comes_with_no_new_directory :
  ~ exists ROOT fs pre s fs1 moves fs2,
      Organize.move_stray_files ROOT fs pre = (fs1, Ok moves)
      /\ Path.name s <> ""
      /\ FS.mkdir_p fs1 (Organize.guess_target_folder ROOT (Path.stem s)) = Ok fs2
      /\ FS.exists_ fs2 (destination_of ROOT s) = true
      /\ fs2 <> fs1.
Proof.
  intros (ROOT & fs & pre & s & fs1 & moves & fs2 & _ & Hn & M & X & Hne).
  apply Hne. exact (mkdir_p_then_conflict ROOT fs1 s fs2 Hn M X).
Qed.

Lemma resolver_table_witness :
  ~ In ".." R0
  /\ Verify.resolve_target R0 (R0 ++ ["docs"; "a.md"])%list "../README.md"
     = Ok (Some (R0 ++ ["README.md"])%list)
  /\ Verify.resolve_target R0 (R0 ++ ["docs"; "a.md"])%list "../../outside.md" = Ok None.
Proof.
  assert (H : ~ In ".." R0) by (simpl; intuition discriminate).
  split; [exact H|]. split.
  - exact (proj2 (proj1 (proj2 (resolver_table R0 H)))).
  - apply (proj2 (proj2 (proj2 (proj2 (proj2 (proj2 (proj2 (proj2 (resolver_table R0 H))))))))).
    + discriminate.
    + vm_compute. discriminate.
Defined.

Lemma second_fix_run_changes_nothing_witness :
  let first := Organize.main R0 (nodup string_dec) true fixable_tree in
  snd first = Ok tt
  /\ FS.is_file (fst (fst first)) (R0 ++ ["docs"; "misc"; "notes.md"])%list = true
  /\ Organize.main R0 (nodup string_dec) true (fst (fst first))
     = (fst (fst first),
        ["No stray Markdown files found."; "Docs verification complete."], Ok tt).
Proof.
  intros first.
  assert (H : Organize.main R0 (nodup string_dec) true fixable_tree
              = (fst (fst first), snd (fst first), Ok tt))
    by (vm_compute; reflexivity).
  split; [vm_compute; reflexivity|]. split; [vm_compute; reflexivity|].
  exact (proj1 (proj2 (proj2 (second_fix_run_changes_nothing
                                R0 (nodup string_dec) fixable_tree _ _ H)))
           (nodup string_dec)).
Defined.

(** C7, as stated: without [--fix], on a tree with a stray, the run ends
    with the message about the stray, which says nothing of the file that
    does not belong in the docs root. *)
Lemma detect_only_run_skips_docs_root_check :
  In (R0 ++ ["docs"; "EXTRA.md"])%list (Organize.docs_root_offenders R0 stray_and_extra_tree)
  /\ snd (Organize.main R0 (nodup string_dec) false stray_and_extra_tree)
     = Raise (SystemExit
                "Found 1 Markdown file(s) outside docs/. Re-run with --fix to move them automatically.")
  /\ Str.contains "EXTRA.md"
       "Found 1 Markdown file(s) outside docs/. Re-run with --fix to move them automatically."
     = false.
Proof. vm_compute. intuition. Qed.

Lemma docs_root_check_when_reached_witness :
  Organize.find_stray_markdown R0 stray_and_extra_tree <> []
  /\ Organize.main R0 (nodup string_dec) false stray_and_extra_tree
     = (stray_and_extra_tree, [],
        Raise (SystemExit (Organize.found_message
                             (List.length
                                (Organize.find_stray_markdown R0 stray_and_extra_tree))))).
Proof.
  assert (H : Organize.find_stray_markdown R0 stray_and_extra_tree <> [])
    by (vm_compute; discriminate).
  split; [exact H|].
  exact (proj1 (proj2 (proj2 (proj2 (proj2
           (docs_root_check_when_reached R0 (nodup string_dec) stray_and_extra_tree)))))
           H).
Defined.

Lemma guess_target_folder_first_rule_witness :
  Str.all_chars is_ascii "news_Security_2024" = true
  /\ all_occur ["NEWS"; "SECURITY"] (Str.upper "news_Security_2024")
  /\ Organize.guess_target_folder R0 "news_Security_2024"
     = (R0 ++ ["docs"; "news"; "security"])%list.
Proof.
  assert (H : all_occur ["NEWS"; "SECURITY"] (Str.upper "news_Security_2024"))
    by (apply rule_matches_spec; vm_compute; reflexivity).
  split; [reflexivity|]. split; [exact H|].
  exact (proj1 (proj1 (proj2 (proj2
           (guess_target_folder_first_rule R0 "news_Security_2024" eq_refl))) H)).
Defined.

Lemma destination_never_stray_witness :
  Organize.is_allowed R0 (destination_of R0 x_md) = true.
Proof.
  exact (proj1 (proj1 (proj2 (proj2 (proj2 (destination_never_stray R0 "x")))) x_md)).
Defined.

End Examples.

(** ** The operations on small inputs *)

Example upper_ex : Str.upper "news_Security-2" = "NEWS_SECURITY-2".
Proof. reflexivity. Qed.

Example replace_ex : Str.replace "ab" "X" "abcabab-a" = "XcXX-a".
Proof. reflexivity. Qed.

Example replace_empty_ex : Str.replace "" "X" "abc" = "XaXbXcX".
Proof. reflexivity. Qed.

Example split_ex : Str.split "/" "a//b/" = ["a"; ""; "b"; ""].
Proof. reflexivity. Qed.

Example strip_ex : Str.strip "  a b  " = "a b".
Proof. reflexivity. Qed.

Example of_nat_ex : map Str.of_nat [0; 7; 12] = ["0"; "7"; "12"].
Proof. reflexivity. Qed.

Example stem_ex :
  map Path.stem_of_name ["SECURITY_NOTES.md"; "a.b.md"; ".md"; "x."; "..md"]
  = ["SECURITY_NOTES"; "a.b"; ".md"; "x."; "."].
Proof. reflexivity. Qed.

Example parts_ex : Path.parts "/a/./b//../c.md" = ["a"; "b"; ".."; "c.md"].
Proof. reflexivity. Qed.

Example resolve_ex : Path.resolve ["a"; ".."; ".."; "b"] = ["b"].
Proof. reflexivity. Qed.

Example relpath_ex :
  Path.relpath ["r"; "docs"; "misc"; "x.md"] ["r"; "a"] = "../docs/misc/x.md"
  /\ Path.relpath ["r"; "x.md"] ["r"] = "x.md"
  /\ Path.relpath ["r"] ["r"] = ".".
Proof. repeat split. Qed.

Example urlparse_ex :
  Url.urlparse "a/b;c.md?x#y" = Url.Parsed "" "" "a/b" "c.md" "x" "y"
  /\ Url.urlparse "https://example.com/x.md" = Url.Parsed "https" "example.com" "/x.md" "" "" ""
  /\ Url.urlparse "x:////a.md" = Url.Parsed "x" "" "//a.md" "" "" ""
  /\ Url.urlparse "1a:b.md" = Url.Parsed "" "" "1a:b.md" "" "" "".
Proof. repeat split. Qed.

Example unquote_ex : Url.unquote "%41b%2fc%zz%4" = "Ab/c%zz%4".
Proof. reflexivity. Qed.

Example finditer_ex :
  Verify.finditer "hi [a](docs/a.md) [[x](y) [] (z) [p](q" = ["docs/a.md"; "y"].
Proof. reflexivity. Qed.

(** A stem for every rule of the table, in order, and one for the default. *)
Example classifier_rules :
  map (Organize.guess_target_folder [])
      [ "news-security"; "NEWS"; "admin"; "comments"; "design_tokens"; "accessibility";
        "interface"; "optimistic"; "scopes"; "SECURITY_NOTES"; "validation"; "requests";
        "routes"; "ui"; "ux"; "tailwind"; "modal"; "project"; "plan"; "todo"; "tasks";
        "documentation"; "i18n"; "locale"; "livewire"; "volt"; "api"; "misc" ]
  = map (fun folder => Path.parts folder)
      [ "docs/news/security"; "docs/news"; "docs/admin"; "docs/comments";
        "docs/design-tokens"; "docs/accessibility"; "docs/interface";
        "docs/optimistic-ui"; "docs/query-scopes"; "docs/security"; "docs/validation";
        "docs/validation"; "docs/routing"; "docs/ui-ux"; "docs/ui-ux"; "docs/ui-ux";
        "docs/ui-ux"; "docs/project"; "docs/planning"; "docs/planning"; "docs/planning";
        "docs/documentation"; "docs/i18n"; "docs/i18n"; "docs/livewire"; "docs/volt";
        "docs/api"; "docs/misc" ].
Proof. vm_compute. reflexivity. Qed.

(** The rewriter is literal: with [a/b.md] linking to [../x.md], the one
    spelling that is right from [a/], trying [x.md] first yields a link that
    leads out of the repository. *)
Example rewrite_literal_ex :
  Organize.replace_needles "../docs/misc/x.md"
    ["x.md"; "./x.md"; "../x.md"; "./../x.md"] "[x](../x.md)"
  = "[x](../../docs/misc/x.md)".
Proof. reflexivity. Qed.

(** A fix run on a tree with one stray and a link to it. *)
Example fix_run_ex :
  Organize.main Scenario.R0 (nodup string_dec) true Scenario.fixable_tree
  = (Scenario.at_R0
       [ ("README.md", FS.File (FS.Text "See [notes](docs/misc/notes.md)."));
         ("docs", FS.Dir [ ("README.md", FS.File (FS.Text "index"));
                           ("misc", FS.Dir [("notes.md", FS.File (FS.Text "Notes."))]) ]) ],
     [ "Moving 1 Markdown file(s) into docs/... folders";
       "Updated links in 1 file(s)";
       "Docs verification complete." ],
     Ok tt).
Proof. vm_compute. reflexivity. Qed.

(** The checker on a tree without broken links. *)
Example check_run_ex :
  Verify.main Scenario.R0 Scenario.sound_tree = Ok (["Markdown link check passed."], 0).
Proof. vm_compute. reflexivity. Qed.

(** The checker on a tree with a directory named as a Markdown file. *)
Example check_run_directory_ex :
  Verify.main Scenario.R0
    (Scenario.at_R0 [("notes.md", FS.Dir [])]) = Raise IsADirectoryError.
Proof. vm_compute. reflexivity. Qed.

(** * Further properties *)

(** ** Well-formed trees *)

Section WellFormed.

Import FS.

Lemma mem_string_In x l : mem_string x l = true <-> In x l.
Proof.
  unfold mem_string. rewrite existsb_exists. split.
  - intros (y & Hy & E). apply String.eqb_eq in E. now subst.
  - intros H. exists x. split; [assumption|apply String.eqb_refl].
Qed.

Lemma mem_string_false x l : mem_string x l = false <-> ~ In x l.
Proof.
  rewrite <- mem_string_In. destruct (mem_string x l); split; congruence.
Qed.

Lemma unique_cons x l : unique (x :: l) = true <-> ~ In x l /\ unique l = true.
Proof.
  simpl. rewrite andb_true_iff, negb_true_iff, mem_string_false. reflexivity.
Qed.

Lemma unique_snoc l c : unique l = true -> ~ In c l -> unique (l ++ [c])%list = true.
Proof.
  induction l as [|x l IH]; intros U N; [reflexivity|].
  apply unique_cons in U as [Hx U].
  change ((x :: l) ++ [c])%list with (x :: (l ++ [c]))%list.
  apply unique_cons. split.
  - intros H. apply in_app_or in H as [H|[->|[]]]; [contradiction|].
    apply N. now left.
  - apply IH; [assumption|]. intros H. apply N. now right.
Qed.

Lemma assoc_In c x es : assoc c es = Some x -> In (c, x) es.
Proof.
  induction es as [|[d y] es IH]; simpl; [discriminate|].
  destruct (String.eqb_spec c d) as [->|Hn].
  - intros [= ->]. now left.
  - intros H. right. now apply IH.
Qed.

Lemma assoc_none c es : assoc c es = None <-> ~ In c (map fst es).
Proof.
  induction es as [|[d y] es IH]; simpl; [tauto|].
  destruct (String.eqb_spec c d) as [->|Hn].
  - split; [discriminate|]. intros H. exfalso. apply H. now left.
  - rewrite IH. split.
    + intros H [E|E]; [congruence|contradiction].
    + intros H E. apply H. now right.
Qed.

(** In a directory without a repeated name, every entry is the one that its
    name finds. *)
Lemma In_assoc c x es : unique (map fst es) = true -> In (c, x) es -> assoc c es = Some x.
Proof.
  induction es as [|[d y] es IH]; simpl; [contradiction|].
  intros U H. apply andb_true_iff in U as [Hd U]. apply negb_true_iff in Hd.
  apply mem_string_false in Hd.
  destruct H as [[= -> ->]|H].
  - now rewrite String.eqb_refl.
  - destruct (String.eqb_spec c d) as [->|Hn]; [|now apply IH].
    exfalso. apply Hd. apply in_map_iff. now exists (d, x).
Qed.

Lemma well_formed_dir es :
  well_formed (Dir es) = true <->
  unique (map fst es) = true /\ forall e, In e es -> well_formed (snd e) = true.
Proof.
  simpl. rewrite andb_true_iff, forallb_forall. reflexivity.
Qed.

Lemma well_formed_assoc es c x :
  well_formed (Dir es) = true -> assoc c es = Some x -> well_formed x = true.
Proof.
  intros W H. apply well_formed_dir in W as [_ W].
  apply (W (c, x)). now apply assoc_In.
Qed.

Lemma well_formed_lookup fs p n :
  well_formed fs = true -> lookup fs p = Some n -> well_formed n = true.
Proof.
  revert fs. induction p as [|c p IH]; intros fs W; simpl.
  - now intros [= <-].
  - destruct fs as [|es]; [discriminate|].
    destruct (assoc c es) as [x|] eqn:E; [|discriminate].
    apply IH. eapply well_formed_assoc; eassumption.
Qed.

Lemma In_set_entry c x es e : In e (set_entry c x es) -> e = (c, x) \/ In e es.
Proof.
  induction es as [|[d y] es IH]; simpl.
  - intros [<-|[]]. now left.
  - destruct (String.eqb_spec c d) as [->|Hn]; simpl.
    + intros [<-|H]; auto.
    + intros [<-|H]; auto. destruct (IH H); auto.
Qed.

Lemma well_formed_set_entry c x es :
  well_formed (Dir es) = true -> well_formed x = true ->
  well_formed (Dir (set_entry c x es)) = true.
Proof.
  intros W Wx. apply well_formed_dir in W as [U W]. apply well_formed_dir. split.
  - destruct (assoc c es) as [y|] eqn:E.
    + now rewrite (map_fst_set_entry_id c x y es E).
    + rewrite (map_fst_set_entry_new c x es E). apply unique_snoc; [assumption|].
      now apply assoc_none.
  - intros e He. apply In_set_entry in He as [->|He]; [assumption|now apply W].
Qed.

Lemma In_del_entry c es e : In e (del_entry c es) -> In e es /\ fst e <> c.
Proof.
  induction es as [|[d y] es IH]; simpl; [contradiction|].
  destruct (String.eqb_spec c d) as [->|Hn].
  - intros H. destruct (IH H). auto.
  - intros [<-|H]; [simpl; auto|]. destruct (IH H). auto.
Qed.

Lemma well_formed_del_entry c es :
  well_formed (Dir es) = true -> well_formed (Dir (del_entry c es)) = true.
Proof.
  intros W. apply well_formed_dir in W as [U W]. apply well_formed_dir. split.
  - clear W. induction es as [|[d y] es IH]; [reflexivity|].
    simpl in U. apply andb_true_iff in U as [Hd U]. apply negb_true_iff in Hd.
    apply mem_string_false in Hd. simpl.
    destruct (c =? d); [now apply IH|].
    simpl. apply andb_true_iff. split; [|now apply IH].
    apply negb_true_iff, mem_string_false. intros H. apply Hd.
    apply in_map_iff in H as (e & <- & He). apply In_del_entry in He as [He _].
    apply in_map_iff. now exists e.
  - intros e He. apply In_del_entry in He as [He _]. now apply W.
Qed.

Lemma well_formed_fresh_dirs p : well_formed (fresh_dirs p) = true.
Proof.
  induction p as [|c p IH]; [reflexivity|]. simpl. now rewrite IH.
Qed.

Lemma well_formed_mkdir_p fs d fs' :
  well_formed fs = true -> mkdir_p fs d = Ok fs' -> well_formed fs' = true.
Proof.
  revert fs fs'. induction d as [|e d IH]; intros fs fs' W; simpl.
  - destruct fs; [discriminate|]. now intros [= <-].
  - destruct fs as [|es]; [discriminate|].
    destruct (assoc e es) as [x|] eqn:E.
    + destruct (mkdir_p x d) as [x'|] eqn:M; simpl; [|discriminate].
      intros [= <-]. apply well_formed_set_entry; [assumption|].
      eapply IH; [|eassumption]. eapply well_formed_assoc; eassumption.
    + intros [= <-]. apply well_formed_set_entry; [assumption|].
      apply well_formed_fresh_dirs.
Qed.

Lemma well_formed_remove fs src : well_formed fs = true -> well_formed (remove fs src) = true.
Proof.
  revert fs. induction src as [|e src IH]; intros fs W; [assumption|].
  destruct fs as [|es]; [assumption|].
  destruct src as [|e' src]; cbn [remove].
  - now apply well_formed_del_entry.
  - destruct (assoc e es) as [x|] eqn:E; [|assumption].
    apply well_formed_set_entry; [assumption|].
    apply IH. eapply well_formed_assoc; eassumption.
Qed.

Lemma well_formed_put fs dst x fs' :
  well_formed fs = true -> well_formed x = true ->
  put fs dst x = Some fs' -> well_formed fs' = true.
Proof.
  revert fs fs'. induction dst as [|e dst IH]; intros fs fs' W Wx; [discriminate|].
  destruct fs as [|es]; [discriminate|].
  destruct dst as [|e' dst].
  - cbn [put]. intros [= <-]. now apply well_formed_set_entry.
  - rewrite put_deeper.
    destruct (assoc e es) as [y|] eqn:E; [|discriminate].
    destruct (put y (e' :: dst) x) as [y'|] eqn:P; [|discriminate].
    intros [= <-]. apply well_formed_set_entry; [assumption|].
    eapply IH; [|exact Wx|exact P]. eapply well_formed_assoc; eassumption.
Qed.

Lemma well_formed_rename fs src dst fs' :
  well_formed fs = true -> rename fs src dst = Ok fs' -> well_formed fs' = true.
Proof.
  intros W. unfold rename.
  destruct (lookup fs src) as [x|] eqn:L; [|discriminate].
  destruct (put (remove fs src) dst x) as [fs2|] eqn:P; [|discriminate].
  intros [= <-]. eapply well_formed_put; [| |exact P].
  - now apply well_formed_remove.
  - eapply well_formed_lookup; eassumption.
Qed.

Lemma well_formed_shutil_move fs src dst fs' :
  well_formed fs = true -> shutil_move fs src dst = Ok fs' -> well_formed fs' = true.
Proof.
  intros W. unfold shutil_move.
  destruct (lookup fs src) as [x|]; [|discriminate].
  destruct (lookup fs dst) as [[c|es]|].
  - destruct x; [|discriminate]. now apply well_formed_rename.
  - destruct (exists_ fs _); [discriminate|].
    destruct (Path.is_relative_to _ src); [discriminate|]. now apply well_formed_rename.
  - destruct (Path.is_relative_to dst src); [discriminate|]. now apply well_formed_rename.
Qed.

Lemma well_formed_write_text fs p text fs' :
  well_formed fs = true -> write_text fs p text = Ok fs' -> well_formed fs' = true.
Proof.
  intros W. unfold write_text.
  assert (H : forall r, match put fs p (File (Text text)) with
                        | Some fs2 => Ok fs2
                        | None => Raise r
                        end = Ok fs' -> well_formed fs' = true).
  { intros r. destruct (put fs p (File (Text text))) as [fs2|] eqn:P; [|discriminate].
    intros [= <-]. exact (well_formed_put fs p (File (Text text)) fs2 W eq_refl P). }
  destruct (lookup fs p) as [[c|es]|]; try discriminate; apply H.
Qed.

End WellFormed.

(** ** The scan *)

Section Scan.

Import FS.

Lemma last_cons_more (c : string) (r : list string) (d : string) :
  r <> [] -> last (c :: r) d = last r d.
Proof. destruct r; [congruence|reflexivity]. Qed.

Lemma last_app_more (p r : list string) (d : string) :
  r <> [] -> last (p ++ r)%list d = last r d.
Proof.
  intros H. induction p as [|c p IH]; [reflexivity|].
  change ((c :: p) ++ r)%list with (c :: (p ++ r))%list.
  rewrite last_cons_more; [assumption|]. destruct p; simpl; [assumption|discriminate].
Qed.

(** What [rglob] yields has a last component that matches the pattern. *)
Lemma rglob_from_name m n r : In r (rglob_from m n) -> m (last r "") = true.
Proof.
  revert n. induction r as [|c r IH]; intros n H.
  - now apply rglob_from_nonempty in H.
  - destruct n as [|es]; [contradiction|]. simpl in H.
    apply in_app_or in H as [H|H].
    + apply in_map_iff in H as (e & [= <- <-] & He).
      apply filter_In in He as [_ He]. exact He.
    + apply in_flat_map in H as (e & _ & H).
      apply in_map_iff in H as (r' & [= <- <-] & H).
      rewrite last_cons_more by (eapply rglob_from_nonempty; eassumption).
      eapply IH. eassumption.
Qed.

(** In a well-formed tree, what [rglob] yields is there. *)
Lemma rglob_from_sound m n r :
  well_formed n = true -> In r (rglob_from m n) -> exists x, lookup n r = Some x.
Proof.
  revert n. induction r as [|c r IH]; intros n W H.
  - now apply rglob_from_nonempty in H.
  - destruct n as [|es]; [contradiction|]. simpl in H.
    pose proof W as W'. apply well_formed_dir in W' as [U Wes].
    apply in_app_or in H as [H|H].
    + apply in_map_iff in H as ([c' x] & [= <- <-] & He).
      apply filter_In in He as [He _].
      exists x. simpl. now rewrite (In_assoc c' x es U He).
    + apply in_flat_map in H as ([c' x] & He & H).
      apply in_map_iff in H as (r' & [= <- <-] & H). simpl in H.
      cbn [lookup]. rewrite (In_assoc c' x es U He).
      apply IH; [|assumption]. apply (Wes (c', x) He).
Qed.

(** What is there, with a last component that matches, is yielded. *)
Lemma rglob_from_complete m n r x :
  r <> [] -> lookup n r = Some x -> m (last r "") = true -> In r (rglob_from m n).
Proof.
  revert n. induction r as [|c r IH]; intros n Hr L M; [congruence|].
  destruct n as [|es]; [discriminate|]. cbn [lookup] in L.
  destruct (assoc c es) as [y|] eqn:E; [|discriminate].
  apply assoc_In in E. simpl. apply in_or_app.
  destruct r as [|c' r].
  - left. apply in_map_iff. exists (c, y). split; [reflexivity|].
    apply filter_In. split; assumption.
  - right. apply in_flat_map. exists (c, y). split; [assumption|].
    apply in_map_iff. exists (c' :: r). split; [reflexivity|].
    apply IH; [discriminate|assumption|].
    now rewrite last_cons_more in M by discriminate.
Qed.

Lemma rglob_spec m fs p q :
  well_formed fs = true ->
  In q (rglob m fs p) <->
  exists r, r <> [] /\ q = (p ++ r)%list /\ exists_ fs q = true /\ m (Path.name q) = true.
Proof.
  intros W. unfold rglob, exists_, Path.name. split.
  - destruct (lookup fs p) as [n|] eqn:L; [|contradiction].
    intros H. apply in_map_iff in H as (r & <- & H).
    pose proof (rglob_from_nonempty _ _ _ H) as Hr.
    exists r. split; [assumption|]. split; [reflexivity|].
    rewrite lookup_app, L, last_app_more by assumption. split.
    + destruct (rglob_from_sound m n r (well_formed_lookup _ _ _ W L) H) as [x ->].
      reflexivity.
    + eapply rglob_from_name. eassumption.
  - intros (r & Hr & -> & X & M).
    rewrite lookup_app in X. rewrite last_app_more in M by assumption.
    destruct (lookup fs p) as [n|]; [|discriminate].
    apply in_map. destruct (lookup n r) as [x|] eqn:L; [|discriminate].
    eapply rglob_from_complete; eassumption.
Qed.

End Scan.

(** ** The allowed places and the files found *)

Section Places.

Variable ROOT : path.

Lemma parents_prefix (p q : path) : In q (Path.parents p) -> exists r, p = (q ++ r)%list.
Proof.
  revert q. induction p as [|x p IH] using rev_ind; intros q H; [contradiction|].
  rewrite parents_snoc in H. destruct H as [<-|H].
  - now exists [x].
  - destruct (IH q H) as [r ->]. exists (r ++ [x])%list. now rewrite app_assoc.
Qed.

Lemma at_or_below (p prefix : path) :
  mem_path prefix (Path.parents p) || Path.eqb p prefix = true
  <-> Path.is_relative_to p prefix = true.
Proof.
  split; [|apply below_prefix].
  intros H. apply is_relative_to_spec. apply orb_true_iff in H as [H|H].
  - apply mem_path_In in H. now apply parents_prefix.
  - apply path_eqb_eq in H as ->. exists []. now rewrite app_nil_r.
Qed.

(** X1.  [is_allowed]: the [README.md] of the root, and what is at or below
    [docs], [tests], [resources/markdown], [.github] or [.kiro]. *)
Theorem is_allowed_spec (p : path) :
  Organize.is_allowed ROOT p = true <->
  p = (ROOT ++ ["README.md"])%list
  \/ exists d, In d [["docs"]; ["tests"]; ["resources"; "markdown"]; [".github"]; [".kiro"]]
               /\ exists r, p = (ROOT ++ d ++ r)%list.
Proof.
  unfold Organize.is_allowed.
  assert (Hp : Organize.ALLOWED_PREFIXES ROOT =
               map (app ROOT)
                 [["docs"]; ["tests"]; ["resources"; "markdown"]; [".github"]; [".kiro"]]).
  { unfold Organize.ALLOWED_PREFIXES, Path.join. simpl. now rewrite <- app_assoc. }
  assert (Hex : existsb (fun prefix => mem_path prefix (Path.parents p) || Path.eqb p prefix)
                        (Organize.ALLOWED_PREFIXES ROOT) = true
                <-> exists d,
                    In d [["docs"]; ["tests"]; ["resources"; "markdown"]; [".github"]; [".kiro"]]
                    /\ exists r, p = (ROOT ++ d ++ r)%list).
  { rewrite existsb_exists, Hp. split.
    - intros (x & Hx & H). apply in_map_iff in Hx as (d & <- & Hd).
      exists d. split; [assumption|].
      apply at_or_below, is_relative_to_spec in H as [r ->].
      exists r. now rewrite app_assoc.
    - intros (d & Hd & r & ->). exists (ROOT ++ d)%list. split.
      + now apply in_map.
      + apply at_or_below, is_relative_to_spec. exists r. now rewrite app_assoc. }
  destruct (mem_path p (Organize.ALLOWED_ROOT_FILES ROOT)) eqn:M.
  - split; [|reflexivity]. intros _. left.
    apply mem_path_In in M. destruct M as [<-|[]]. reflexivity.
  - rewrite Hex. split; [now right|].
    intros [->|H]; [|assumption].
    exfalso. rewrite <- not_true_iff_false in M. apply M, mem_path_In. now left.
Qed.

Lemma should_skip_app (p q : path) :
  Organize.should_skip (p ++ q)%list = Organize.should_skip p || Organize.should_skip q.
Proof. unfold Organize.should_skip. apply existsb_app. Qed.

Lemma filter_none {A : Type} (f : A -> bool) (l : list A) :
  (forall x, In x l -> f x = false) -> filter f l = [].
Proof.
  induction l as [|x l IH]; intros H; [reflexivity|].
  simpl. rewrite (H x (or_introl eq_refl)). apply IH. intros y Hy. apply H. now right.
Qed.

Lemma rglob_under_skipped m fs q :
  Organize.should_skip ROOT = true -> In q (FS.rglob m fs ROOT) ->
  Organize.should_skip q = true.
Proof.
  intros H Hq. apply rglob_below in Hq as (r & _ & ->).
  now rewrite should_skip_app, H.
Qed.

(** X2.  When a component of [ROOT] itself is one of [SKIP_DIRS], every path
    below [ROOT] is skipped: the organizer finds no Markdown file and no text
    file, whatever the tree holds, a run that makes no change reports that
    there is no stray, and the checker passes without reading a link. *)
Theorem root_in_skipped_directory (fs : FS.node) :
  Organize.should_skip ROOT = true ->
  Organize.find_markdown ROOT fs = []
  /\ Organize.find_stray_markdown ROOT fs = []
  /\ Organize.iter_text_files ROOT fs = []
  /\ Verify.iter_markdown ROOT fs = []
  /\ Verify.main ROOT fs = Ok (["Markdown link check passed."], 0)
  /\ (forall set_iter fix_,
        Organize.docs_root_offenders ROOT fs = [] ->
        Organize.main ROOT set_iter fix_ fs
        = (fs, ["No stray Markdown files found."; "Docs verification complete."], Ok tt)).
Proof.
  intros H.
  assert (H1 : Organize.find_markdown ROOT fs = []).
  { unfold Organize.find_markdown. apply filter_none. intros q Hq.
    now rewrite (rglob_under_skipped _ _ _ H Hq). }
  assert (H2 : Organize.find_stray_markdown ROOT fs = []).
  { unfold Organize.find_stray_markdown. now rewrite H1. }
  assert (H3 : Verify.iter_markdown ROOT fs = []).
  { unfold Verify.iter_markdown. apply filter_none. intros q Hq.
    pose proof (rglob_under_skipped _ _ _ H Hq) as S.
    unfold Organize.should_skip in S.
    change Verify.SKIP_DIRS with Organize.SKIP_DIRS. now rewrite S. }
  repeat split; try assumption.
  - unfold Organize.iter_text_files. apply filter_none. intros q Hq.
    rewrite (rglob_under_skipped _ _ _ H Hq). simpl. now rewrite andb_false_r.
  - unfold Verify.main. now rewrite H3.
  - intros set_iter fix_ Hd. now apply main_clean.
Qed.

(** What [find_markdown] yields in a well-formed tree. *)
Lemma find_markdown_iff (fs : FS.node) (q : path) :
  well_formed fs = true ->
  In q (Organize.find_markdown ROOT fs) <->
  (exists r, r <> [] /\ q = (ROOT ++ r)%list)
  /\ FS.exists_ fs q = true
  /\ pat_md (Path.name q) = true
  /\ Organize.should_skip q = false.
Proof.
  intros W. unfold Organize.find_markdown.
  rewrite filter_In, (rglob_spec pat_md fs ROOT q W), negb_true_iff. split.
  - intros [(r & Hr & E & X & M) S]. repeat split; eauto.
  - intros ((r & Hr & E) & X & M & S). repeat split; eauto.
Qed.

(** X3.  In a well-formed tree, the strays are the entries below [ROOT] whose
    name ends in [.md], none of whose components is one of [SKIP_DIRS], and
    that are not in an allowed place. *)
Theorem find_stray_markdown_spec (fs : FS.node) (q : path) :
  well_formed fs = true ->
  In q (Organize.find_stray_markdown ROOT fs) <->
  (exists r, r <> [] /\ q = (ROOT ++ r)%list)
  /\ FS.exists_ fs q = true
  /\ (exists a, Path.name q = a ++ ".md")
  /\ (forall part, In part q -> ~ In part Organize.SKIP_DIRS)
  /\ Organize.is_allowed ROOT q = false.
Proof.
  intros W. unfold Organize.find_stray_markdown.
  rewrite filter_In, (find_markdown_iff fs q W), negb_true_iff.
  assert (Hs : Organize.should_skip q = false
               <-> forall part, In part q -> ~ In part Organize.SKIP_DIRS).
  { unfold Organize.should_skip. rewrite <- not_true_iff_false, existsb_exists. split.
    - intros H part Hp Hin. apply H. exists part. split; [assumption|].
      now apply mem_string_In.
    - intros H (part & Hp & Hin). apply (H part Hp). now apply mem_string_In. }
  rewrite Hs. unfold pat_md. rewrite endswith_spec. tauto.
Qed.

End Places.

(** ** What an operation leaves at a path *)

Section Lookups.

Import FS.

Lemma below_nil (p : path) : Path.is_relative_to p [] = true.
Proof. apply is_relative_to_spec. now exists p. Qed.

Lemma below_refl (p : path) : Path.is_relative_to p p = true.
Proof. apply is_relative_to_spec. exists []. now rewrite app_nil_r. Qed.

Lemma below_app (p r : path) : Path.is_relative_to (p ++ r)%list p = true.
Proof. apply is_relative_to_spec. now exists r. Qed.

Lemma below_trans (p q r : path) :
  Path.is_relative_to p q = true -> Path.is_relative_to q r = true ->
  Path.is_relative_to p r = true.
Proof.
  rewrite !is_relative_to_spec. intros [a ->] [b ->].
  exists (b ++ a)%list. now rewrite app_assoc.
Qed.

(** A prefix of [a ++ b] is a prefix of [a], or [a] is a prefix of it. *)
Lemma prefix_cases (a b p : path) :
  Path.is_relative_to (a ++ b)%list p = true ->
  Path.is_relative_to a p = true \/ Path.is_relative_to p a = true.
Proof.
  revert p. induction a as [|x a IH]; intros p H.
  - right. apply below_nil.
  - destruct p as [|y p]; [left; apply below_nil|].
    change ((x :: a) ++ b)%list with (x :: (a ++ b))%list in H.
    rewrite relative_to_cons in H. apply andb_true_iff in H as [E H].
    rewrite !relative_to_cons. apply String.eqb_eq in E as ->.
    rewrite String.eqb_refl. simpl. now apply IH.
Qed.

Lemma put_lookup_same fs p x fs' : put fs p x = Some fs' -> lookup fs' p = Some x.
Proof.
  revert fs fs'. induction p as [|c p IH]; intros fs fs'; [discriminate|].
  destruct fs as [|es]; [discriminate|].
  destruct p as [|d p].
  - cbn [put]. intros [= <-]. cbn [lookup]. now rewrite assoc_set_entry_same.
  - rewrite put_deeper. destruct (assoc c es) as [y|]; [|discriminate].
    destruct (put y (d :: p) x) as [y'|] eqn:P; [|discriminate].
    intros [= <-]. change (lookup (Dir (set_entry c y' es)) (c :: d :: p))
      with (match assoc c (set_entry c y' es) with
            | Some z => lookup z (d :: p)
            | None => None
            end).
    rewrite assoc_set_entry_same. now apply (IH y).
Qed.

Lemma lookup_cons es a p :
  lookup (Dir es) (a :: p) =
  match assoc a es with
  | Some x => lookup x p
  | None => None
  end.
Proof. reflexivity. Qed.

Lemma put_elsewhere fs dst x fs' p :
  put fs dst x = Some fs' ->
  Path.is_relative_to p dst = false -> Path.is_relative_to dst p = false ->
  lookup fs' p = lookup fs p.
Proof.
  revert fs fs' p. induction dst as [|c dst IH]; intros fs fs' p; [discriminate|].
  destruct fs as [|es]; [discriminate|].
  destruct p as [|a p]; [intros _ _ H; now rewrite below_nil in H|].
  rewrite !relative_to_cons, !lookup_cons.
  destruct dst as [|d dst].
  - cbn [put]. intros [= <-]. rewrite lookup_cons.
    destruct (String.eqb_spec a c) as [->|Hn].
    + rewrite below_nil. discriminate.
    + intros _ _. now rewrite assoc_set_entry_other.
  - rewrite put_deeper. destruct (assoc c es) as [y|] eqn:E; [|discriminate].
    destruct (put y (d :: dst) x) as [y'|] eqn:P; [|discriminate].
    intros [= <-]. rewrite lookup_cons.
    destruct (String.eqb_spec a c) as [->|Hn].
    + rewrite String.eqb_refl. simpl. intros H1 H2.
      rewrite assoc_set_entry_same, E. now apply (IH y).
    + intros _ _. now rewrite assoc_set_entry_other.
Qed.

Lemma remove_gone fs s r : s <> [] -> lookup (remove fs s) (s ++ r)%list = None.
Proof.
  revert fs. induction s as [|c s IH]; intros fs Hs; [contradiction|].
  destruct fs as [|es]; [reflexivity|].
  change ((c :: s) ++ r)%list with (c :: (s ++ r))%list.
  destruct s as [|d s]; cbn [remove].
  - rewrite lookup_cons. now rewrite assoc_del_entry_same.
  - destruct (assoc c es) as [x|] eqn:E.
    + rewrite lookup_cons, assoc_set_entry_same. apply IH. discriminate.
    + rewrite lookup_cons. now rewrite E.
Qed.

Lemma mkdir_p_elsewhere fs d fs' p :
  mkdir_p fs d = Ok fs' -> Path.is_relative_to d p = false -> lookup fs' p = lookup fs p.
Proof.
  revert fs fs' p. induction d as [|c d IH]; intros fs fs' p; cbn [mkdir_p].
  - destruct fs; [discriminate|]. now intros [= <-].
  - destruct fs as [|es]; [discriminate|].
    destruct p as [|a p]; [intros _ H; now rewrite below_nil in H|].
    rewrite relative_to_cons.
    destruct (assoc c es) as [x|] eqn:E.
    + destruct (mkdir_p x d) as [x'|] eqn:M; cbn [bind]; [|discriminate].
      intros [= <-]. rewrite !lookup_cons.
      destruct (String.eqb_spec c a) as [<-|Hn].
      * cbn [andb]. intros H. rewrite assoc_set_entry_same, E. now apply (IH x).
      * intros _. rewrite assoc_set_entry_other; [reflexivity|congruence].
    + intros [= <-]. rewrite !lookup_cons.
      destruct (String.eqb_spec c a) as [<-|Hn].
      * cbn [andb]. intros H. rewrite assoc_set_entry_same, E.
        destruct (lookup (fresh_dirs d) p) as [y|] eqn:L; [|reflexivity].
        apply fresh_dirs_chain in L. congruence.
      * intros _. rewrite assoc_set_entry_other; [reflexivity|congruence].
Qed.

Lemma put_exists fs p y x :
  lookup fs p = Some y -> p <> [] -> exists fs', put fs p x = Some fs'.
Proof.
  revert fs. induction p as [|c p IH]; intros fs L Hp; [contradiction|].
  destruct fs as [|es]; [discriminate|].
  destruct p as [|d p].
  - cbn [put]. eauto.
  - rewrite put_deeper. rewrite lookup_cons in L.
    destruct (assoc c es) as [z|]; [|discriminate].
    destruct (IH z L) as [z' ->]; [discriminate|]. eauto.
Qed.

Lemma put_in_dir fs p c x :
  is_dir fs p = true -> exists fs', put fs (p ++ [c])%list x = Some fs'.
Proof.
  revert fs. induction p as [|a p IH]; intros fs H.
  - destruct fs as [|es]; [discriminate|]. simpl. eauto.
  - destruct fs as [|es]; [discriminate|]. rewrite is_dir_cons in H.
    change ((a :: p) ++ [c])%list with (a :: (p ++ [c]))%list.
    destruct (p ++ [c])%list as [|d q] eqn:Q; [now destruct p|].
    rewrite put_deeper. destruct (assoc a es) as [z|]; [|discriminate].
    destruct (IH z H) as [z' ->]. eauto.
Qed.

Lemma exists_names fs p c : exists_ fs (p ++ [c])%list = true <-> In c (names fs p).
Proof.
  unfold exists_, names. rewrite lookup_app.
  destruct (lookup fs p) as [[k|es]|]; simpl; try (split; [discriminate|contradiction]).
  destruct (assoc c es) as [x|] eqn:E.
  - split; [|reflexivity]. intros _. apply assoc_In in E.
    apply in_map_iff. now exists (c, x).
  - apply assoc_none in E. split; [discriminate|contradiction].
Qed.

Lemma exists_of_names fs fs' :
  (forall p, names fs' p = names fs p) -> forall q, exists_ fs' q = exists_ fs q.
Proof.
  intros H q. destruct q as [|c q] using rev_ind; [reflexivity|].
  pose proof (exists_names fs' q c) as A. pose proof (exists_names fs q c) as B.
  rewrite H in A.
  destruct (exists_ fs' (q ++ [c])%list), (exists_ fs (q ++ [c])%list); try reflexivity.
  - symmetry. apply B, A. reflexivity.
  - apply A, B. reflexivity.
Qed.

Lemma exists_cases fs p :
  exists_ fs p = true -> (exists c, file_at fs p c) \/ is_dir fs p = true.
Proof.
  unfold exists_, file_at, is_dir.
  destruct (lookup fs p) as [[c|es]|]; [eauto|auto|discriminate].
Qed.

End Lookups.

(** ** The mover: where the files go *)

Section MoverResults.

Variable ROOT : path.

Lemma target_below_docs (stem : string) :
  Path.is_relative_to (Organize.guess_target_folder ROOT stem) (ROOT ++ ["docs"])%list = true.
Proof.
  destruct (guess_target_folder_under_docs ROOT stem) as [rest ->].
  apply is_relative_to_spec. exists rest. now rewrite <- app_assoc.
Qed.

Lemma destination_below_docs (s : path) :
  Path.is_relative_to (destination_of ROOT s) (ROOT ++ ["docs"])%list = true.
Proof.
  unfold destination_of, Path.child. destruct (Path.name s =? "").
  - apply target_below_docs.
  - eapply below_trans; [apply below_app|apply target_below_docs].
Qed.

Lemma away_extend (p r : path) : away_from_docs ROOT p -> away_from_docs ROOT (p ++ r)%list.
Proof.
  intros [A1 A2]. split.
  - destruct (Path.is_relative_to (p ++ r)%list _) eqn:E; [|reflexivity].
    apply is_relative_to_spec in E as [t E].
    destruct (prefix_cases (ROOT ++ ["docs"])%list t p) as [H|H]; [|congruence|congruence].
    rewrite <- E. apply below_app.
  - destruct (Path.is_relative_to _ (p ++ r)%list) eqn:E; [|reflexivity].
    rewrite <- A2. symmetry. eapply below_trans; [exact E|apply below_app].
Qed.

Lemma away_nonempty (p : path) : away_from_docs ROOT p -> p <> [].
Proof. intros [_ A] ->. now rewrite below_nil in A. Qed.

(** A path away from [docs] is neither below nor above what is below
    [docs]. *)
Lemma away_not_below (p t : path) :
  away_from_docs ROOT p ->
  Path.is_relative_to t (ROOT ++ ["docs"])%list = true ->
  Path.is_relative_to p t = false.
Proof.
  intros [A1 _] T. destruct (Path.is_relative_to p t) eqn:E; [|reflexivity].
  rewrite <- A1. symmetry. eapply below_trans; eassumption.
Qed.

Lemma away_not_above (p t : path) :
  away_from_docs ROOT p ->
  Path.is_relative_to t (ROOT ++ ["docs"])%list = true ->
  Path.is_relative_to t p = false.
Proof.
  intros [A1 A2] T. destruct (Path.is_relative_to t p) eqn:E; [|reflexivity].
  apply is_relative_to_spec in T as [r ->].
  destruct (prefix_cases _ _ _ E); congruence.
Qed.

Lemma stray_is_away fs s :
  In s (Organize.find_stray_markdown ROOT fs) -> away_from_docs ROOT s.
Proof. apply stray_away_from_docs. Qed.

(** A path away from [docs] that does not exist is not brought about by
    the mover. *)
Lemma move_loop_keeps_missing fs acc strays fs' r p :
  Organize.move_loop ROOT fs acc strays = (fs', r) ->
  away_from_docs ROOT p -> FS.exists_ fs p = false -> FS.exists_ fs' p = false.
Proof.
  intros M A X. destruct (FS.exists_ fs' p) eqn:X'; [|reflexivity].
  apply exists_cases in X' as [[c F]|D].
  - destruct (move_loop_brings ROOT _ _ _ _ _ _ _ M F) as [F0|(s & _ & B)].
    + unfold FS.exists_ in X. unfold file_at in F0. rewrite F0 in X. discriminate.
    + rewrite (away_not_below p _ A (destination_below_docs s)) in B. discriminate.
  - destruct (move_loop_brings_dir ROOT _ _ _ _ _ _ M D) as [D0|(s & _ & [B|B])].
    + unfold FS.exists_, FS.is_dir in *. destruct (FS.lookup fs p); congruence.
    + rewrite (away_not_above p _ A (target_below_docs _)) in B. discriminate.
    + rewrite (away_not_below p _ A (destination_below_docs s)) in B. discriminate.
Qed.

(** One turn of the loop that does not raise. *)
Lemma move_loop_cons_ok fs acc s rest fs' moves :
  Organize.move_loop ROOT fs acc (s :: rest) = (fs', Ok moves) ->
  exists fs1 fs2 x,
    FS.mkdir_p fs (Organize.guess_target_folder ROOT (Path.stem s)) = Ok fs1
    /\ FS.exists_ fs1 (destination_of ROOT s) = false
    /\ FS.lookup fs1 s = Some x
    /\ FS.put (FS.remove fs1 s) (destination_of ROOT s) x = Some fs2
    /\ FS.shutil_move fs1 s (destination_of ROOT s) = Ok fs2
    /\ Organize.move_loop ROOT fs2 (acc ++ [(s, destination_of ROOT s)])%list rest
       = (fs', Ok moves).
Proof.
  rewrite move_loop_cons.
  destruct (FS.mkdir_p fs _) as [fs1|e] eqn:K; [|discriminate].
  destruct (FS.exists_ fs1 _) eqn:X; [discriminate|].
  destruct (FS.shutil_move fs1 s _) as [fs2|e] eqn:S; [|discriminate].
  intros M. exists fs1, fs2.
  pose proof S as S'. rewrite (shutil_move_fresh _ _ _ X) in S'.
  destruct (FS.lookup fs1 s) as [x|] eqn:L; [|discriminate].
  destruct (Path.is_relative_to _ s); [discriminate|].
  unfold FS.rename in S'. rewrite L in S'.
  destruct (FS.put _ _ x) as [fs2'|] eqn:P; [|discriminate].
  injection S' as ->. exists x. auto 10.
Qed.

Lemma moved_source_gone fs1 s x fs2 r :
  away_from_docs ROOT s ->
  FS.put (FS.remove fs1 s) (destination_of ROOT s) x = Some fs2 ->
  FS.lookup fs2 (s ++ r)%list = None.
Proof.
  intros A P.
  rewrite (put_elsewhere _ _ _ _ (s ++ r)%list P).
  - apply remove_gone. now apply away_nonempty.
  - apply away_not_below; [now apply away_extend|apply destination_below_docs].
  - apply away_not_above; [now apply away_extend|apply destination_below_docs].
Qed.

(** A source that the loop moves exists when the loop comes to it. *)
Lemma move_loop_head_exists fs acc s rest fs' moves :
  Organize.move_loop ROOT fs acc (s :: rest) = (fs', Ok moves) ->
  away_from_docs ROOT s -> FS.exists_ fs s = true.
Proof.
  intros M A. apply move_loop_cons_ok in M as (fs1 & fs2 & x & K & _ & L & _).
  unfold FS.exists_. rewrite <- (mkdir_p_elsewhere _ _ _ s K), L; [reflexivity|].
  apply away_not_above; [assumption|apply target_below_docs].
Qed.

Lemma move_loop_gone fs acc strays fs' moves :
  Organize.move_loop ROOT fs acc strays = (fs', Ok moves) ->
  (forall s, In s strays -> away_from_docs ROOT s) ->
  forall s r, In s strays -> FS.exists_ fs' (s ++ r)%list = false.
Proof.
  revert fs acc. induction strays as [|h strays IH]; intros fs acc M A s r Hs;
    [contradiction|].
  apply move_loop_cons_ok in M as (fs1 & fs2 & x & K & X & L & P & _ & M).
  destruct Hs as [->|Hs].
  - eapply move_loop_keeps_missing; [exact M| |].
    + apply away_extend, A. now left.
    + unfold FS.exists_. rewrite (moved_source_gone _ _ _ _ r (A s (or_introl eq_refl)) P).
      reflexivity.
  - apply (IH _ _ M); [|assumption]. intros t Ht. apply A. now right.
Qed.

Lemma move_loop_split fs acc pre rest fs' moves :
  Organize.move_loop ROOT fs acc (pre ++ rest)%list = (fs', Ok moves) ->
  exists fsA mA,
    Organize.move_loop ROOT fs acc pre = (fsA, Ok mA)
    /\ Organize.move_loop ROOT fsA mA rest = (fs', Ok moves).
Proof.
  rewrite move_loop_app.
  destruct (Organize.move_loop ROOT fs acc pre) as [fsA [mA|e]]; [|discriminate].
  intros M. now exists fsA, mA.
Qed.

Lemma mkdir_p_keeps_exists fs d fs1 p :
  FS.mkdir_p fs d = Ok fs1 -> FS.exists_ fs p = true -> FS.exists_ fs1 p = true.
Proof.
  intros K X. apply exists_cases in X as [[c F]|D].
  - apply (mkdir_p_files _ _ _ p c K) in F. unfold file_at in F.
    unfold FS.exists_. now rewrite F.
  - apply (mkdir_p_keeps_dir _ _ _ p K) in D. unfold FS.is_dir in D.
    unfold FS.exists_. destruct (FS.lookup fs1 p); [reflexivity|discriminate].
Qed.

(** What is there and is not below a source is still there after the
    loop. *)
Lemma move_loop_keeps_exists fs acc strays fs' r p :
  Organize.move_loop ROOT fs acc strays = (fs', r) ->
  (forall s, In s strays -> Path.is_relative_to p s = false) ->
  FS.exists_ fs p = true -> FS.exists_ fs' p = true.
Proof.
  intros M N X. apply exists_cases in X as [[c F]|D].
  - pose proof (move_loop_keeps ROOT _ _ _ _ _ _ _ M F N) as F'.
    unfold file_at in F'. unfold FS.exists_. now rewrite F'.
  - pose proof (move_loop_keeps_dir ROOT _ _ _ _ _ _ M D N) as D'.
    unfold FS.is_dir in D'. unfold FS.exists_.
    destruct (FS.lookup fs' p); [reflexivity|discriminate].
Qed.

Lemma move_loop_distinct fs acc strays fs' moves :
  Organize.move_loop ROOT fs acc strays = (fs', Ok moves) ->
  (forall s, In s strays -> away_from_docs ROOT s) ->
  NoDup (map (destination_of ROOT) strays).
Proof.
  revert fs acc. induction strays as [|h strays IH]; intros fs acc M A; [constructor|].
  apply move_loop_cons_ok in M as (fs1 & fs2 & x & K & X & L & P & _ & M).
  simpl. constructor.
  - intros Hin. apply in_map_iff in Hin as (s & E & Hs).
    apply in_split in Hs as (pre & post & ->).
    apply move_loop_split in M as (fsA & mA & M1 & M2).
    apply move_loop_cons_ok in M2 as (fs3 & _ & _ & K3 & X3 & _).
    rewrite E in X3.
    enough (T : FS.exists_ fs3 (destination_of ROOT h) = true) by congruence.
    apply (mkdir_p_keeps_exists _ _ _ _ K3).
    apply (move_loop_keeps_exists _ _ _ _ _ _ M1).
    + intros t Ht. apply away_not_above; [|apply destination_below_docs].
      apply A. right. apply in_or_app. now left.
    + unfold FS.exists_. now rewrite (put_lookup_same _ _ _ _ P).
  - apply (IH _ _ M). intros t Ht. apply A. now right.
Qed.

(** X4.  When the mover returns, it has recorded one move per source, in order,
    to the destination computed for it; every source was there at the start
    and is gone at the end, with everything below it; no two sources went to
    the same destination; and the content of a regular file is at its
    destination. *)
Theorem move_stray_files_moves_every_file fs strays fs' moves :
  (forall s, In s strays -> away_from_docs ROOT s) ->
  Organize.move_stray_files ROOT fs strays = (fs', Ok moves) ->
  moves = map (fun s => (s, destination_of ROOT s)) strays
  /\ NoDup (map snd moves)
  /\ (forall s, In s strays -> FS.exists_ fs s = true)
  /\ (forall s r, In s strays -> FS.exists_ fs' (s ++ r)%list = false)
  /\ (forall s c, In s strays -> file_at fs s c -> file_at fs' (destination_of ROOT s) c).
Proof.
  unfold Organize.move_stray_files. intros A M.
  assert (E : moves = map (fun s => (s, destination_of ROOT s)) strays).
  { now apply (move_loop_moves ROOT) in M. }
  assert (X : forall s, In s strays -> FS.exists_ fs s = true).
  { intros s Hs. apply in_split in Hs as (pre & post & ->).
    apply move_loop_split in M as (fsA & mA & M1 & M2).
    assert (As : away_from_docs ROOT s) by (apply A, in_or_app; right; now left).
    pose proof (move_loop_head_exists _ _ _ _ _ _ M2 As) as H.
    destruct (FS.exists_ fs s) eqn:X0; [reflexivity|].
    now rewrite (move_loop_keeps_missing _ _ _ _ _ _ M1 As X0) in H. }
  split; [exact E|]. split; [|split; [exact X|split]].
  - rewrite E, map_map. simpl. now apply (move_loop_distinct _ _ _ _ _ M).
  - now apply (move_loop_gone _ _ _ _ _ M).
  - intros s c Hs F. apply in_split in Hs as (pre & post & ->).
    apply move_loop_split in M as (fsA & mA & M1 & M2).
    assert (As : away_from_docs ROOT s) by (apply A, in_or_app; right; now left).
    assert (FA : file_at fsA s c).
    { apply (move_loop_keeps ROOT _ _ _ _ _ _ _ M1 F).
      intros h Hh. destruct (Path.is_relative_to s h) eqn:B; [exfalso|reflexivity].
      apply is_relative_to_spec in B as [r B].
      pose proof (move_loop_head_exists _ _ _ _ _ _ M2 As) as H.
      rewrite B, (move_loop_gone _ _ _ _ _ M1) in H; [discriminate| |exact Hh].
      intros t Ht. apply A, in_or_app. now left. }
    apply move_loop_cons_ok in M2 as (fs1 & fs2 & x & K & _ & L & P & _ & M2).
    apply (mkdir_p_files _ _ _ s c K) in FA. unfold file_at in FA.
    rewrite FA in L. injection L as <-.
    apply (move_loop_keeps ROOT _ _ _ _ _ _ _ M2).
    + exact (put_lookup_same _ _ _ _ P).
    + intros h Hh. apply away_not_above; [|apply destination_below_docs].
      apply A, in_or_app. right. now right.
Qed.

Lemma mkdir_p_raises fs d e :
  FS.mkdir_p fs d = Raise e ->
  (e = FileExistsError /\ exists c, file_at fs d c)
  \/ (e = NotADirectoryError
      /\ exists f x rest c, d = (f ++ x :: rest)%list /\ file_at fs f c).
Proof.
  revert fs. induction d as [|a d IH]; intros fs; cbn [FS.mkdir_p].
  - destruct fs as [c|es]; [|discriminate]. intros [= <-]. left. split; [reflexivity|].
    now exists c.
  - destruct fs as [c|es].
    + intros [= <-]. right. split; [reflexivity|]. now exists [], a, d, c.
    + destruct (FS.assoc a es) as [x|] eqn:E; [|discriminate].
      destruct (FS.mkdir_p x d) as [x'|e'] eqn:K; cbn [bind]; [discriminate|].
      intros [= <-]. destruct (IH x K) as [[-> [c F]]|[-> (f & y & rest & c & -> & F)]].
      * left. split; [reflexivity|]. exists c. unfold file_at.
        now rewrite lookup_cons, E.
      * right. split; [reflexivity|]. exists (a :: f), y, rest, c. split; [reflexivity|].
        unfold file_at. now rewrite lookup_cons, E.
Qed.

(** [shutil.move] to a new name in a directory, neither of them below the
    source, moves a source that exists. *)
Lemma shutil_move_into_folder fs s t n x :
  FS.lookup fs s = Some x -> FS.is_dir fs t = true ->
  FS.exists_ fs (t ++ [n])%list = false ->
  Path.is_relative_to t s = false -> Path.is_relative_to (t ++ [n])%list s = false ->
  exists fs', FS.shutil_move fs s (t ++ [n])%list = Ok fs'.
Proof.
  intros L D X N1 N2. rewrite (shutil_move_fresh _ _ _ X), L, N2.
  unfold FS.rename. rewrite L.
  destruct (put_in_dir (FS.remove fs s) t n x) as [fs' ->]; [|eauto].
  now apply remove_keeps_dir.
Qed.

Lemma move_loop_raises fs acc strays fs' e :
  (forall s, In s strays -> away_from_docs ROOT s) ->
  Organize.move_loop ROOT fs acc strays = (fs', Raise e) ->
  exists pre s post fs1 moves,
    strays = (pre ++ s :: post)%list
    /\ Organize.move_loop ROOT fs acc pre = (fs1, Ok moves)
    /\ ((FS.mkdir_p fs1 (Organize.guess_target_folder ROOT (Path.stem s)) = Raise e
         /\ fs' = fs1)
        \/ exists fs2,
             FS.mkdir_p fs1 (Organize.guess_target_folder ROOT (Path.stem s)) = Ok fs2
             /\ fs' = fs2
             /\ ((FS.exists_ fs2 (destination_of ROOT s) = true
                  /\ e = SystemExit (Organize.conflict_message (destination_of ROOT s)))
                 \/ (FS.exists_ fs2 (destination_of ROOT s) = false
                     /\ FS.exists_ fs1 s = false
                     /\ e = FileNotFoundError))).
Proof.
  revert fs acc. induction strays as [|h strays IH]; intros fs acc A; [discriminate|].
  assert (Ah : away_from_docs ROOT h) by (apply A; now left).
  rewrite move_loop_cons.
  destruct (FS.mkdir_p fs _) as [fs1|e0] eqn:K.
  2:{ intros [= <- <-]. exists [], h, strays, fs, acc. auto. }
  destruct (FS.exists_ fs1 _) eqn:X.
  { intros [= <- <-]. exists [], h, strays, fs, acc.
    split; [reflexivity|]. split; [reflexivity|]. right. exists fs1. auto. }
  destruct (FS.shutil_move fs1 h _) as [fs2|e0] eqn:S.
  - intros M. destruct (IH _ _ (fun s Hs => A s (or_intror Hs)) M)
      as (pre & s & post & fsA & mA & -> & M1 & C).
    exists (h :: pre), s, post, fsA, mA. split; [reflexivity|]. split; [|exact C].
    now rewrite move_loop_cons, K, X, S.
  - intros [= <- <-]. exists [], h, strays, fs, acc.
    split; [reflexivity|]. split; [reflexivity|]. right. exists fs1.
    split; [exact K|]. split; [reflexivity|]. right. split; [exact X|].
    assert (Hn : Path.name h <> "").
    { intros Hn. unfold destination_of, Path.child in X. rewrite Hn in X. simpl in X.
      pose proof (mkdir_p_is_dir _ _ _ K) as D. unfold FS.is_dir in D.
      unfold FS.exists_ in X. destruct (FS.lookup fs1 _); discriminate. }
    assert (L : FS.lookup fs h = FS.lookup fs1 h).
    { symmetry. apply (mkdir_p_elsewhere _ _ _ _ K).
      apply away_not_above; [assumption|apply target_below_docs]. }
    destruct (FS.lookup fs1 h) as [x|] eqn:L1.
    + exfalso. rewrite (destination_of_named ROOT h Hn) in S, X.
      destruct (shutil_move_into_folder fs1 h
                  (Organize.guess_target_folder ROOT (Path.stem h)) (Path.name h) x L1)
        as [fs2 S2].
      * exact (mkdir_p_is_dir _ _ _ K).
      * exact X.
      * apply away_not_above; [assumption|apply target_below_docs].
      * rewrite <- (destination_of_named ROOT h Hn).
        apply away_not_above; [assumption|apply destination_below_docs].
      * congruence.
    + split; [unfold FS.exists_; now rewrite L|].
      rewrite (shutil_move_fresh _ _ _ X), L1 in S. congruence.
Qed.

(** X5.  The mover fails in three ways only, at the first source [s] that
    cannot be moved, the sources before it having been moved: a regular file
    stands where the folder of [s] or one of its parents has to be, and the
    tree is as the earlier moves left it; or the folder is there, created if
    need be, and the destination exists, which is the conflict; or the folder
    is there, created if need be, and [s] itself no longer exists. *)
Theorem move_stray_files_fails_in_three_ways fs strays fs' e :
  (forall s, In s strays -> away_from_docs ROOT s) ->
  Organize.move_stray_files ROOT fs strays = (fs', Raise e) ->
  exists pre s post fs1 moves,
    strays = (pre ++ s :: post)%list
    /\ Organize.move_stray_files ROOT fs pre = (fs1, Ok moves)
    /\ ((fs' = fs1
         /\ ((e = FileExistsError
              /\ exists c, file_at fs1 (Organize.guess_target_folder ROOT (Path.stem s)) c)
             \/ (e = NotADirectoryError
                 /\ exists f x rest c,
                      Organize.guess_target_folder ROOT (Path.stem s) = (f ++ x :: rest)%list
                      /\ file_at fs1 f c)))
        \/ (FS.mkdir_p fs1 (Organize.guess_target_folder ROOT (Path.stem s)) = Ok fs'
            /\ FS.exists_ fs' (destination_of ROOT s) = true
            /\ e = SystemExit (Organize.conflict_message (destination_of ROOT s)))
        \/ (FS.mkdir_p fs1 (Organize.guess_target_folder ROOT (Path.stem s)) = Ok fs'
            /\ FS.exists_ fs' (destination_of ROOT s) = false
            /\ FS.exists_ fs1 s = false
            /\ e = FileNotFoundError)).
Proof.
  unfold Organize.move_stray_files. intros A M.
  destruct (move_loop_raises _ _ _ _ _ A M)
    as (pre & s & post & fs1 & moves & E & M1 & C).
  exists pre, s, post, fs1, moves. split; [exact E|]. split; [exact M1|].
  destruct C as [[K ->]|(fs2 & K & -> & [[X ->]|(X & X1 & ->)])].
  - left. split; [reflexivity|]. exact (mkdir_p_raises _ _ _ K).
  - right. left. auto.
  - right. right. auto.
Qed.

End MoverResults.

(** ** Every entry is found once *)

Section ScanOnce.

Import FS.

Lemma node_induction (P : node -> Prop) :
  (forall c, P (File c)) ->
  (forall es, (forall k x, In (k, x) es -> P x) -> P (Dir es)) ->
  forall n, P n.
Proof.
  intros HF HD. fix IH 1. intros [c|es]; [apply HF|].
  apply HD. induction es as [|[k x] es IHes]; intros k' x' H; [contradiction|].
  destruct H as [[= <- <-]|H]; [apply IH|exact (IHes k' x' H)].
Qed.

Lemma NoDup_map_cons (k : string) (l : list (list string)) :
  NoDup l -> NoDup (map (cons k) l).
Proof.
  induction 1 as [|r l Hr _ IH]; simpl; constructor; [|assumption].
  intros H. apply in_map_iff in H as (r' & [= ->] & H). contradiction.
Qed.

Lemma NoDup_map_app (p : path) (l : list (list string)) :
  NoDup l -> NoDup (map (app p) l).
Proof.
  induction 1 as [|r l Hr _ IH]; simpl; constructor; [|assumption].
  intros H. apply in_map_iff in H as (r' & E & H).
  apply app_inv_head in E as ->. contradiction.
Qed.

Lemma NoDup_singletons (f : string * node -> bool) (es : entries) :
  unique (map fst es) = true -> NoDup (map (fun e => [fst e]) (filter f es)).
Proof.
  induction es as [|[k x] es IH]; [constructor|].
  change (map fst ((k, x) :: es)) with (k :: map fst es).
  intros U. apply unique_cons in U as [Hk U]. simpl.
  destruct (f (k, x)); [|now apply IH]. simpl. constructor; [|now apply IH].
  intros H. apply in_map_iff in H as ([k' x'] & [= ->] & H).
  apply filter_In in H as [H _]. apply Hk. apply in_map_iff. now exists (k, x').
Qed.

Lemma NoDup_below_entries m (es : entries) :
  unique (map fst es) = true ->
  (forall k x, In (k, x) es -> NoDup (rglob_from m x)) ->
  NoDup (flat_map (fun e => map (cons (fst e)) (rglob_from m (snd e))) es).
Proof.
  induction es as [|[k x] es IH]; [constructor|].
  change (map fst ((k, x) :: es)) with (k :: map fst es).
  intros U H. apply unique_cons in U as [Hk U]. simpl. apply NoDup_app.
  - apply NoDup_map_cons. apply (H k x). now left.
  - apply IH; [assumption|]. intros k' x' H'. apply (H k' x'). now right.
  - intros a Ha Hb. apply in_map_iff in Ha as (r & <- & _).
    apply in_flat_map in Hb as ([k' x'] & He & Hb).
    apply in_map_iff in Hb as (r' & [= -> _] & _).
    apply Hk. apply in_map_iff. now exists (k, x').
Qed.

Lemma rglob_from_NoDup m n : well_formed n = true -> NoDup (rglob_from m n).
Proof.
  induction n as [c|es IH] using node_induction; intros W; [constructor|].
  apply well_formed_dir in W as [U W]. cbn [rglob_from]. apply NoDup_app.
  - now apply NoDup_singletons.
  - apply NoDup_below_entries; [assumption|]. intros k x H.
    apply (IH k x H). exact (W (k, x) H).
  - intros a Ha Hb. apply in_map_iff in Ha as (e & <- & _).
    apply in_flat_map in Hb as (e' & _ & Hb).
    apply in_map_iff in Hb as (r & [= _ E] & Hr).
    apply rglob_from_nonempty in Hr. congruence.
Qed.

Lemma rglob_NoDup m fs p : well_formed fs = true -> NoDup (rglob m fs p).
Proof.
  intros W. unfold rglob. destruct (lookup fs p) as [n|] eqn:L; [|constructor].
  apply NoDup_map_app, rglob_from_NoDup. eapply well_formed_lookup; eassumption.
Qed.

End ScanOnce.

(** ** The rewriter: what is written *)

Section RewriterResults.

Variable ROOT : path.
Variable set_iter : list string -> list string.

Lemma file_below_none fs f c a r :
  file_at fs f c -> FS.lookup fs (f ++ a :: r)%list = None.
Proof. unfold file_at. intros F. now rewrite lookup_app, F. Qed.

Lemma is_file_spec fs f : FS.is_file fs f = true <-> exists c, file_at fs f c.
Proof.
  unfold FS.is_file, file_at. destruct (FS.lookup fs f) as [[c|es]|]; split;
    try discriminate; try (intros [c' H]; discriminate); eauto.
Qed.

(** Writing a regular file changes no other regular file. *)
Lemma write_file_frame fs f k x fs1 p c :
  file_at fs f k -> FS.put fs f (FS.File x) = Some fs1 -> p <> f ->
  (file_at fs1 p c <-> file_at fs p c).
Proof.
  intros F P Hp. pose proof (put_lookup_same _ _ _ _ P) as F1.
  destruct (Path.is_relative_to p f) eqn:B1.
  { apply is_relative_to_spec in B1 as [[|a r] ->]; [now rewrite app_nil_r in Hp|].
    unfold file_at. rewrite (file_below_none fs f k a r F).
    rewrite (file_below_none fs1 f x a r F1). reflexivity. }
  destruct (Path.is_relative_to f p) eqn:B2.
  { apply is_relative_to_spec in B2 as [[|a r] E];
      [rewrite app_nil_r in E; congruence|].
    assert (D : FS.is_dir fs p = true).
    { apply (lookup_below_is_dir fs p a r (FS.File k)). now rewrite <- E. }
    assert (D1 : FS.is_dir fs1 p = true).
    { apply (lookup_below_is_dir fs1 p a r (FS.File x)). now rewrite <- E. }
    unfold file_at, FS.is_dir in *.
    destruct (FS.lookup fs p) as [[|]|], (FS.lookup fs1 p) as [[|]|];
      try discriminate; split; discriminate. }
  unfold file_at. now rewrite (put_elsewhere _ _ _ _ p P B1 B2).
Qed.

Lemma rewritten_content_nil mapping p c :
  rewritten_content ROOT set_iter mapping [] p c = c.
Proof. now destruct c. Qed.

Lemma rewritten_content_other mapping f rest p c :
  p <> f ->
  rewritten_content ROOT set_iter mapping (f :: rest) p c
  = rewritten_content ROOT set_iter mapping rest p c.
Proof.
  intros Hp. destruct c as [t|]; [|reflexivity]. unfold rewritten_content.
  unfold mem_path. cbn [existsb].
  destruct (Path.eqb p f) eqn:E; [|reflexivity]. now apply path_eqb_eq in E.
Qed.

Lemma rewritten_content_not_in mapping files p c :
  ~ In p files -> rewritten_content ROOT set_iter mapping files p c = c.
Proof.
  intros H. destruct c as [t|]; [|reflexivity]. unfold rewritten_content.
  destruct (mem_path p files) eqn:E; [|reflexivity]. now apply mem_path_In in E.
Qed.

Lemma rewritten_content_here mapping f rest t :
  rewritten_content ROOT set_iter mapping (f :: rest) f (FS.Text t)
  = FS.Text (Organize.rewrite_text ROOT set_iter f mapping t).
Proof.
  unfold rewritten_content, mem_path. cbn [existsb]. now rewrite path_eqb_refl.
Qed.

(** The step of the induction for a file that the loop leaves as it is. *)
Lemma update_loop_spec_kept mapping fs f rest k fs' :
  file_at fs f k -> ~ In f rest ->
  rewritten_content ROOT set_iter mapping (f :: rest) f k = k ->
  (forall p c, file_at fs' p c <->
     exists c0, file_at fs p c0 /\ c = rewritten_content ROOT set_iter mapping rest p c0) ->
  forall p c, file_at fs' p c <->
    exists c0, file_at fs p c0
               /\ c = rewritten_content ROOT set_iter mapping (f :: rest) p c0.
Proof.
  intros F N E H p c. rewrite H.
  assert (S : forall c0, file_at fs p c0 ->
                rewritten_content ROOT set_iter mapping (f :: rest) p c0
                = rewritten_content ROOT set_iter mapping rest p c0).
  { intros c0 F0. destruct (list_eq_dec string_dec p f) as [->|Hp].
    - unfold file_at in *. rewrite F in F0. injection F0 as <-.
      now rewrite E, rewritten_content_not_in.
    - now apply rewritten_content_other. }
  split; intros (c0 & F0 & ->); exists c0; (split; [assumption|]);
    [symmetry|]; now apply S.
Qed.

Lemma update_loop_spec mapping files :
  forall fs updated,
    NoDup files ->
    (forall f, In f files -> FS.is_file fs f = true /\ f <> []) ->
    exists fs',
      Organize.update_loop ROOT set_iter fs mapping updated files
      = (fs', Ok (updated ++ filter (text_changes ROOT set_iter mapping fs) files)%list)
      /\ (forall p c, file_at fs' p c <->
            exists c0, file_at fs p c0
                       /\ c = rewritten_content ROOT set_iter mapping files p c0).
Proof.
  induction files as [|f rest IH]; intros fs updated ND Hf.
  - exists fs. split; [simpl; now rewrite app_nil_r|].
    intros p c. split.
    + intros F. exists c. now rewrite rewritten_content_nil.
    + intros (c0 & F & ->). now rewrite rewritten_content_nil.
  - apply NoDup_cons_iff in ND as [Nf ND].
    destruct (Hf f (or_introl eq_refl)) as [Ff Hne].
    apply is_file_spec in Ff as [k F].
    assert (Hrest : forall g, In g rest -> FS.is_file fs g = true /\ g <> []).
    { intros g Hg. apply Hf. now right. }
    cbn [Organize.update_loop filter]. unfold text_changes at 1.
    pose proof F as L. unfold file_at in L. rewrite L.
    destruct k as [original|].
    + destruct (Organize.rewrite_text ROOT set_iter f mapping original =? original) eqn:T.
      * destruct (IH fs updated ND Hrest) as (fs' & -> & H). exists fs'.
        split; [reflexivity|].
        apply (update_loop_spec_kept mapping fs f rest (FS.Text original) fs' F Nf);
          [|exact H].
        rewrite rewritten_content_here. apply String.eqb_eq in T. now rewrite T.
      * unfold FS.write_text. rewrite L.
        destruct (put_exists fs f _
                    (FS.File (FS.Text (Organize.rewrite_text ROOT set_iter f mapping original)))
                    L Hne) as [fs1 P].
        rewrite P.
        assert (Fr : forall p c, p <> f -> (file_at fs1 p c <-> file_at fs p c)).
        { intros p c Hp. exact (write_file_frame fs f _ _ fs1 p c F P Hp). }
        assert (Hrest1 : forall g, In g rest -> FS.is_file fs1 g = true /\ g <> []).
        { intros g Hg. destruct (Hrest g Hg) as [G Gne]. split; [|exact Gne].
          apply is_file_spec in G as [c G]. apply is_file_spec. exists c.
          apply Fr; [|exact G]. intros ->. contradiction. }
        destruct (IH fs1 (updated ++ [f])%list ND Hrest1) as (fs' & -> & H).
        exists fs'. split.
        { cbn [negb]. rewrite <- app_assoc. cbn [app]. do 4 f_equal.
          apply filter_ext_in. intros g Hg. unfold text_changes.
          destruct (Hrest g Hg) as [G _]. apply is_file_spec in G as [c G].
          assert (G1 : file_at fs1 g c) by (apply Fr; [intros ->; contradiction|exact G]).
          unfold file_at in G, G1. now rewrite G, G1. }
        intros p c. rewrite H. destruct (list_eq_dec string_dec p f) as [->|Hp].
        { pose proof (put_lookup_same _ _ _ _ P) as F1. split.
          - intros (c1 & F1' & ->). unfold file_at in F1'. rewrite F1 in F1'.
            injection F1' as <-. exists (FS.Text original). split; [exact F|].
            now rewrite rewritten_content_here, rewritten_content_not_in.
          - intros (c0 & F0 & ->). unfold file_at in F0. rewrite L in F0.
            injection F0 as <-. eexists. split; [exact F1|].
            now rewrite rewritten_content_here, rewritten_content_not_in. }
        { split; intros (c0 & F0 & ->); exists c0.
          - split; [now apply Fr|]. now rewrite rewritten_content_other.
          - split; [now apply Fr|]. now rewrite rewritten_content_other. }
    + destruct (IH fs updated ND Hrest) as (fs' & -> & H). exists fs'.
      split; [reflexivity|].
      now apply (update_loop_spec_kept mapping fs f rest FS.Binary fs' F Nf).
Qed.

Lemma iter_text_files_files fs f :
  In f (Organize.iter_text_files ROOT fs) -> FS.is_file fs f = true /\ f <> [].
Proof.
  unfold Organize.iter_text_files. intros H. apply filter_In in H as [H T].
  apply andb_true_iff in T as [T _]. apply andb_true_iff in T as [T _].
  split; [exact T|]. apply rglob_below in H as (r & Hr & ->).
  intros E. apply app_eq_nil in E as [_ E]. contradiction.
Qed.

Lemma iter_text_files_NoDup fs :
  well_formed fs = true -> NoDup (Organize.iter_text_files ROOT fs).
Proof. intros W. apply NoDup_filter. now apply rglob_NoDup. Qed.

Lemma build_mapping_ok d moves :
  (forall src dst, In (src, dst) moves -> Path.is_relative_to src ROOT = true) ->
  exists mapping, Organize.build_mapping ROOT d moves = Ok mapping.
Proof.
  revert d. induction moves as [|[src dst] moves IH]; intros d H; simpl; [eauto|].
  pose proof (H src dst (or_introl eq_refl)) as B. unfold Path.is_relative_to in B.
  destruct (Path.relative_to src ROOT); [|discriminate].
  apply IH. intros s t Hin. apply (H s t). now right.
Qed.

Lemma build_mapping_raises d moves e :
  Organize.build_mapping ROOT d moves = Raise e ->
  e = ValueError
  /\ exists src dst, In (src, dst) moves /\ Path.is_relative_to src ROOT = false.
Proof.
  revert d. induction moves as [|[src dst] moves IH]; intros d; simpl; [discriminate|].
  destruct (Path.relative_to src ROOT) as [rel|] eqn:R.
  - intros H. destruct (IH _ H) as (-> & s & t & Hin & B).
    split; [reflexivity|]. exists s, t. auto.
  - intros [= <-]. split; [reflexivity|]. exists src, dst. split; [now left|].
    unfold Path.is_relative_to. now rewrite R.
Qed.

Lemma build_mapping_outside d moves src dst :
  In (src, dst) moves -> Path.is_relative_to src ROOT = false ->
  Organize.build_mapping ROOT d moves = Raise ValueError.
Proof.
  revert d. induction moves as [|[s t] moves IH]; intros d Hin B; [contradiction|].
  simpl. destruct (Path.relative_to s ROOT) as [rel|] eqn:R; [|reflexivity].
  destruct Hin as [[= -> ->]|Hin].
  - unfold Path.is_relative_to in B. now rewrite R in B.
  - now apply IH.
Qed.

Lemma is_dir_exists_not_file fs p :
  FS.is_dir fs p = FS.exists_ fs p && negb (FS.is_file fs p).
Proof.
  unfold FS.is_dir, FS.exists_, FS.is_file. now destruct (FS.lookup fs p) as [[|]|].
Qed.

Lemma update_links_as_loop fs moves mapping :
  Organize.build_mapping ROOT [] moves = Ok mapping ->
  Organize.update_links ROOT set_iter fs moves
  = Organize.update_loop ROOT set_iter fs mapping [] (Organize.iter_text_files ROOT fs)
  \/ (moves = [] /\ mapping = []
      /\ Organize.update_links ROOT set_iter fs moves = (fs, Ok [])).
Proof.
  intros B. destruct moves as [|m moves].
  - right. simpl in B. injection B as <-. auto.
  - left. unfold Organize.update_links. now rewrite B.
Qed.

Lemma text_changes_nil fs f : text_changes ROOT set_iter [] fs f = false.
Proof.
  unfold text_changes. destruct (FS.lookup fs f) as [[[t|]|]|]; try reflexivity.
  simpl. now rewrite String.eqb_refl.
Qed.

Lemma rewritten_content_no_moves files p c :
  rewritten_content ROOT set_iter [] files p c = c.
Proof.
  destruct c as [t|]; [|reflexivity]. unfold rewritten_content.
  now destruct (mem_path p files).
Qed.

Lemma update_links_spec fs moves mapping :
  well_formed fs = true ->
  Organize.build_mapping ROOT [] moves = Ok mapping ->
  exists fs',
    Organize.update_links ROOT set_iter fs moves
    = (fs', Ok (filter (text_changes ROOT set_iter mapping fs)
                       (Organize.iter_text_files ROOT fs)))
    /\ (forall p c,
          file_at fs' p c <->
          exists c0, file_at fs p c0
                     /\ c = rewritten_content ROOT set_iter mapping
                               (Organize.iter_text_files ROOT fs) p c0).
Proof.
  intros W B.
  destruct (update_links_as_loop fs moves mapping B) as [->|(-> & -> & ->)].
  - apply (update_loop_spec mapping (Organize.iter_text_files ROOT fs) fs []).
    + now apply iter_text_files_NoDup.
    + apply iter_text_files_files.
  - exists fs. split.
    + f_equal. f_equal. symmetry. apply filter_none. intros f _.
      apply text_changes_nil.
    + intros p c. split.
      * intros F. exists c. now rewrite rewritten_content_no_moves.
      * intros (c0 & F & ->). now rewrite rewritten_content_no_moves.
Qed.

(** X6.  In a well-formed tree, and when every source of [moves] is below
    [ROOT], [update_links] returns, having rewritten the text of each file of
    [iter_text_files] once: a regular file holds afterwards what
    [rewrite_text] makes of its text if it is one of them, and what it held
    otherwise; the files reported are those whose text changed, in the order
    of the scan; and no entry appears, disappears or changes its kind. *)
Theorem update_links_rewrites_each_text_file_once fs moves mapping :
  well_formed fs = true ->
  Organize.build_mapping ROOT [] moves = Ok mapping ->
  exists fs',
    Organize.update_links ROOT set_iter fs moves
    = (fs', Ok (filter (text_changes ROOT set_iter mapping fs)
                       (Organize.iter_text_files ROOT fs)))
    /\ (forall p c,
          file_at fs' p c <->
          exists c0, file_at fs p c0
                     /\ c = rewritten_content ROOT set_iter mapping
                               (Organize.iter_text_files ROOT fs) p c0)
    /\ (forall p, FS.exists_ fs' p = FS.exists_ fs p)
    /\ (forall p, FS.is_dir fs' p = FS.is_dir fs p).
Proof.
  intros W B. destruct (update_links_spec fs moves mapping W B) as (fs' & E & H).
  exists fs'. split; [exact E|]. split; [exact H|].
  assert (X : forall p, FS.exists_ fs' p = FS.exists_ fs p).
  { apply exists_of_names. intros p. eapply update_links_names. exact E. }
  split; [exact X|]. intros p. rewrite !is_dir_exists_not_file, X. f_equal. f_equal.
  destruct (FS.is_file fs p) eqn:F.
  - apply is_file_spec in F as [c F]. apply is_file_spec. eexists. apply H. eauto.
  - destruct (FS.is_file fs' p) eqn:F'; [|reflexivity].
    apply is_file_spec in F' as [c F']. apply H in F' as (c0 & F0 & _).
    rewrite <- F. symmetry. apply is_file_spec. eauto.
Qed.

(** X7.  [update_links] raises for one reason only: a source of [moves] that is
    not below [ROOT], for which [relative_to] raises [ValueError] before any
    file is read; the tree is then as it was. *)
Theorem update_links_raises_for_a_source_outside_root fs moves :
  well_formed fs = true ->
  (forall src dst,
     In (src, dst) moves -> Path.is_relative_to src ROOT = false ->
     Organize.update_links ROOT set_iter fs moves = (fs, Raise ValueError))
  /\ (forall fs' e,
        Organize.update_links ROOT set_iter fs moves = (fs', Raise e) ->
        fs' = fs /\ e = ValueError
        /\ exists src dst, In (src, dst) moves /\ Path.is_relative_to src ROOT = false).
Proof.
  intros W. split.
  - intros src dst Hin B. unfold Organize.update_links.
    destruct moves as [|m moves]; [contradiction|].
    now rewrite (build_mapping_outside [] (m :: moves) src dst Hin B).
  - intros fs' e E.
    destruct (Organize.build_mapping ROOT [] moves) as [mapping|e0] eqn:B.
    + destruct (update_links_spec fs moves mapping W B) as (fs2 & E2 & _). congruence.
    + destruct (build_mapping_raises _ _ _ B) as (-> & src & dst & Hin & Bs).
      unfold Organize.update_links in E. destruct moves as [|m moves]; [contradiction|].
      rewrite B in E. injection E as <- <-. split; [reflexivity|].
      split; [reflexivity|]. now exists src, dst.
Qed.

Lemma rewrite_text_untouched f mapping t :
  enumerates_sets set_iter ->
  mentions_none ROOT f mapping t ->
  Organize.rewrite_text ROOT set_iter f mapping t = t.
Proof.
  intros S. induction mapping as [|[old_rel new_abs] mapping IH]; intros M; [reflexivity|].
  cbn [Organize.rewrite_text]. rewrite replace_needles_absent.
  - apply IH. intros o n needle Hin. apply (M o n needle). now right.
  - intros needle Hn. apply (set_iter_in set_iter S) in Hn.
    apply (M old_rel new_abs needle); [now left|exact Hn].
Qed.

Lemma update_loop_unchanged mapping files fs updated :
  (forall f, In f files -> FS.is_file fs f = true) ->
  (forall f t, In f files -> file_at fs f (FS.Text t) ->
               Organize.rewrite_text ROOT set_iter f mapping t = t) ->
  Organize.update_loop ROOT set_iter fs mapping updated files = (fs, Ok updated).
Proof.
  induction files as [|f rest IH]; intros Hf H; [reflexivity|].
  cbn [Organize.update_loop].
  pose proof (Hf f (or_introl eq_refl)) as F. apply is_file_spec in F as [k F].
  pose proof F as L. unfold file_at in L. rewrite L.
  assert (R : Organize.update_loop ROOT set_iter fs mapping updated rest = (fs, Ok updated)).
  { apply IH.
    - intros g Hg. apply Hf. now right.
    - intros g t Hg. apply H. now right. }
  destruct k as [original|]; [|exact R].
  rewrite (H f original (or_introl eq_refl) F), String.eqb_refl. exact R.
Qed.

(** X8.  The text of a file that holds none of the four spellings of any moved
    path comes out of the rewriting as it went in; and when no text file
    holds one, [update_links] writes nothing and reports no file. *)
Theorem update_links_leaves_files_without_spellings fs moves mapping :
  enumerates_sets set_iter ->
  Organize.build_mapping ROOT [] moves = Ok mapping ->
  (forall f t, mentions_none ROOT f mapping t ->
               Organize.rewrite_text ROOT set_iter f mapping t = t)
  /\ ((forall f t, In f (Organize.iter_text_files ROOT fs) -> file_at fs f (FS.Text t) ->
                   mentions_none ROOT f mapping t) ->
      Organize.update_links ROOT set_iter fs moves = (fs, Ok [])).
Proof.
  intros S B. split.
  - intros f t. now apply rewrite_text_untouched.
  - intros H. destruct (update_links_as_loop fs moves mapping B) as [->|(_ & _ & E)];
      [|exact E].
    apply update_loop_unchanged.
    + intros f Hf. now apply iter_text_files_files.
    + intros f t Hf F. apply rewrite_text_untouched; [exact S|]. now apply H.
Qed.

End RewriterResults.

(** ** The organizer as a whole *)

Section OrganizerResults.

Variable ROOT : path.
Variable set_iter : list string -> list string.

Lemma well_formed_move_loop fs acc strays fs' r :
  well_formed fs = true ->
  Organize.move_loop ROOT fs acc strays = (fs', r) -> well_formed fs' = true.
Proof.
  revert fs acc. induction strays as [|s strays IH]; intros fs acc W.
  - now intros [= <- _].
  - rewrite move_loop_cons.
    destruct (FS.mkdir_p fs _) as [fs1|e] eqn:K; [|now intros [= <- _]].
    pose proof (well_formed_mkdir_p _ _ _ W K) as W1.
    destruct (FS.exists_ fs1 _); [now intros [= <- _]|].
    destruct (FS.shutil_move fs1 s _) as [fs2|e] eqn:S; [|now intros [= <- _]].
    apply IH. exact (well_formed_shutil_move _ _ _ _ W1 S).
Qed.

Lemma well_formed_update_loop fs mapping updated files fs' r :
  well_formed fs = true ->
  Organize.update_loop ROOT set_iter fs mapping updated files = (fs', r) ->
  well_formed fs' = true.
Proof.
  revert fs updated. induction files as [|f files IH]; intros fs updated W;
    cbn [Organize.update_loop].
  - now intros [= <- _].
  - destruct (FS.lookup fs f) as [[[original|]|es]|] eqn:L;
      try (now intros [= <- _]); [|now apply IH].
    destruct (_ =? original); [now apply IH|].
    destruct (FS.write_text fs f _) as [fs1|e] eqn:Wr; [|now intros [= <- _]].
    apply IH. exact (well_formed_write_text _ _ _ _ W Wr).
Qed.

Lemma well_formed_update_links fs moves fs' r :
  well_formed fs = true ->
  Organize.update_links ROOT set_iter fs moves = (fs', r) -> well_formed fs' = true.
Proof.
  intros W. unfold Organize.update_links. destruct moves as [|m moves].
  - now intros [= <- _].
  - destruct (Organize.build_mapping ROOT [] (m :: moves)); [|now intros [= <- _]].
    now apply well_formed_update_loop.
Qed.

(** A source that was moved is at its destination when the loop ends. *)
Lemma move_loop_arrived fs acc strays fs' moves :
  Organize.move_loop ROOT fs acc strays = (fs', Ok moves) ->
  (forall s, In s strays -> away_from_docs ROOT s) ->
  forall s, In s strays -> FS.exists_ fs' (destination_of ROOT s) = true.
Proof.
  intros M A s Hs. apply in_split in Hs as (pre & post & ->).
  apply (move_loop_split ROOT) in M as (fsA & mA & _ & M).
  apply (move_loop_cons_ok ROOT) in M as (fs1 & fs2 & x & _ & _ & _ & P & _ & M).
  apply (move_loop_keeps_exists ROOT _ _ _ _ _ _ M).
  - intros t Ht. apply (away_not_above ROOT); [|apply destination_below_docs].
    apply A, in_or_app. right. now right.
  - unfold FS.exists_. now rewrite (put_lookup_same _ _ _ _ P).
Qed.

(** After the strays have been moved, none is found. *)
Lemma no_stray_after_moves fs fs1 moves fs2 :
  well_formed fs = true -> well_formed fs2 = true ->
  Organize.move_stray_files ROOT fs (Organize.find_stray_markdown ROOT fs) = (fs1, Ok moves) ->
  (forall p, FS.exists_ fs2 p = FS.exists_ fs1 p) ->
  Organize.find_stray_markdown ROOT fs2 = [].
Proof.
  intros W W2 M X.
  destruct (Organize.find_stray_markdown ROOT fs2) as [|q l] eqn:E; [reflexivity|].
  exfalso. assert (Hq : In q (Organize.find_stray_markdown ROOT fs2)).
  { rewrite E. now left. }
  pose proof (stray_is_away ROOT fs2 q Hq) as A.
  unfold Organize.find_stray_markdown in Hq. apply filter_In in Hq as [Hq Al].
  apply (find_markdown_iff ROOT fs2 q W2) in Hq as (B & X2 & N & S).
  rewrite X in X2. unfold Organize.move_stray_files in M.
  assert (X0 : FS.exists_ fs q = true).
  { destruct (FS.exists_ fs q) eqn:X0; [reflexivity|].
    now rewrite (move_loop_keeps_missing ROOT _ _ _ _ _ _ M A X0) in X2. }
  assert (Hq : In q (Organize.find_stray_markdown ROOT fs)).
  { unfold Organize.find_stray_markdown. apply filter_In. split; [|exact Al].
    apply (find_markdown_iff ROOT fs q W). auto. }
  pose proof (move_loop_gone ROOT _ _ _ _ _ M (stray_is_away ROOT fs) q [] Hq) as G.
  rewrite app_nil_r in G. congruence.
Qed.

Lemma stray_below_root fs s :
  In s (Organize.find_stray_markdown ROOT fs) -> Path.is_relative_to s ROOT = true.
Proof.
  unfold Organize.find_stray_markdown, Organize.find_markdown. intros H.
  apply filter_In in H as [H _]. apply filter_In in H as [H _].
  apply rglob_below in H as (r & _ & ->). apply below_app.
Qed.

Lemma finish_without_strays fs out :
  Organize.find_stray_markdown ROOT fs = [] ->
  Organize.finish ROOT true fs out
  = (fs,
     match Organize.ensure_docs_root_only_index ROOT fs with
     | Ok _ => (out ++ ["Docs verification complete."])%list
     | Raise _ => out
     end,
     Organize.ensure_docs_root_only_index ROOT fs).
Proof.
  intros E. unfold Organize.finish. rewrite E. cbn [truthy].
  unfold Organize.ensure_docs_root_only_index.
  now destruct (truthy (Organize.docs_root_offenders ROOT fs)).
Qed.

Lemma ensure_docs_root_of_offenders fs fs' :
  Organize.docs_root_offenders ROOT fs' = Organize.docs_root_offenders ROOT fs ->
  Organize.ensure_docs_root_only_index ROOT fs'
  = Organize.ensure_docs_root_only_index ROOT fs.
Proof. unfold Organize.ensure_docs_root_only_index. now intros ->. Qed.

(** X9.  A run with [--fix] on a well-formed tree ends in one of two ways.
    Either the mover raises, and the run ends with that exception and the
    tree as the mover left it.  Or every stray was moved: none of them exists
    any more, each destination exists, no stray is found in the tree at the
    end, so that the error for files that are still outside [docs] is not
    raised, and the run ends as the check of the docs root ends on the tree
    of the start. *)
Theorem fix_run_leaves_no_stray fs fs' out r :
  well_formed fs = true ->
  Organize.main ROOT set_iter true fs = (fs', out, r) ->
  (exists e,
      r = Raise e
      /\ Organize.move_stray_files ROOT fs (Organize.find_stray_markdown ROOT fs)
         = (fs', Raise e))
  \/ (Organize.find_stray_markdown ROOT fs' = []
      /\ r = Organize.ensure_docs_root_only_index ROOT fs
      /\ well_formed fs' = true
      /\ forall s, In s (Organize.find_stray_markdown ROOT fs) ->
            FS.exists_ fs' s = false
            /\ FS.exists_ fs' (destination_of ROOT s) = true).
Proof.
  intros W. unfold Organize.main.
  destruct (Organize.find_stray_markdown ROOT fs) as [|s0 l] eqn:E.
  - cbn [truthy andb]. rewrite (finish_without_strays fs _ E).
    intros [= <- _ <-]. right. rewrite E. repeat split; try assumption; contradiction.
  - cbn [truthy andb]. rewrite <- E.
    destruct (Organize.move_stray_files ROOT fs _) as [fs1 [moves|e]] eqn:M.
    2:{ intros [= <- _ <-]. left. now exists e. }
    pose proof (well_formed_move_loop _ _ _ _ _ W M) as W1.
    assert (Em : moves = map (fun s => (s, destination_of ROOT s))
                             (Organize.find_stray_markdown ROOT fs)).
    { now apply (move_loop_moves ROOT) in M. }
    destruct (build_mapping_ok ROOT [] moves) as [mapping B].
    { intros src dst Hin. rewrite Em in Hin. apply in_map_iff in Hin as (s & [= <- _] & Hs).
      now apply (stray_below_root fs). }
    destruct (update_links_spec ROOT set_iter fs1 moves mapping W1 B) as (fs2 & U & _).
    assert (X : forall p, FS.exists_ fs2 p = FS.exists_ fs1 p).
    { apply exists_of_names. intros p. eapply update_links_names. exact U. }
    rewrite U.
    pose proof (well_formed_update_links _ _ _ _ W1 U) as W2.
    pose proof (no_stray_after_moves fs fs1 moves fs2 W W2 M X) as N.
    rewrite (finish_without_strays fs2 _ N).
    rewrite (ensure_docs_root_of_offenders fs fs2
               (fix_run_keeps_offenders ROOT set_iter _ _ _ _ _ _ M U)).
    intros [= <- _ <-]. right. split; [exact N|]. split; [reflexivity|].
    split; [exact W2|]. intros s Hs. rewrite !X. split.
    + pose proof (move_loop_gone ROOT _ _ _ _ _ M (stray_is_away ROOT fs) s [] Hs) as G.
      now rewrite app_nil_r in G.
    + exact (move_loop_arrived _ _ _ _ _ M (stray_is_away ROOT fs) s Hs).
Qed.

(** X10.  A run without [--fix] leaves the tree as it is; it succeeds exactly
    when there is no stray and the docs root holds no Markdown file other
    than [README.md], and then prints the two lines of a clean run. *)
Theorem check_run_changes_nothing fs :
  fst (fst (Organize.main ROOT set_iter false fs)) = fs
  /\ (snd (Organize.main ROOT set_iter false fs) = Ok tt
      <-> Organize.find_stray_markdown ROOT fs = []
          /\ Organize.docs_root_offenders ROOT fs = [])
  /\ (snd (Organize.main ROOT set_iter false fs) = Ok tt ->
      snd (fst (Organize.main ROOT set_iter false fs))
      = ["No stray Markdown files found."; "Docs verification complete."]).
Proof.
  unfold Organize.main. cbn [andb].
  destruct (Organize.find_stray_markdown ROOT fs) as [|s l] eqn:E; cbn [truthy].
  - unfold Organize.finish. cbn [truthy].
    destruct (Organize.ensure_docs_root_only_index ROOT fs) as [[]|e] eqn:D; cbn [fst snd].
    + apply ensure_docs_root_ok in D. repeat split; auto.
    + split; [reflexivity|]. split; [|discriminate]. split; [discriminate|].
      intros [_ O]. apply ensure_docs_root_ok in O. congruence.
  - cbn [fst snd]. split; [reflexivity|]. split; [|discriminate].
    split; [discriminate|]. intros [? _]. discriminate.
Qed.

End OrganizerResults.

(** ** Links written by the rewriter, read by the checker *)

Section LinkStrings.

Lemma all_chars_impl (p q : ascii -> bool) (s : string) :
  (forall c, p c = true -> q c = true) ->
  Str.all_chars p s = true -> Str.all_chars q s = true.
Proof.
  intros H. induction s as [|c s IH]; simpl; [reflexivity|].
  intros A. apply andb_true_iff in A as [A1 A2]. now rewrite (H c A1), IH.
Qed.

Lemma all_chars_app (p : ascii -> bool) (a b : string) :
  Str.all_chars p (a ++ b) = Str.all_chars p a && Str.all_chars p b.
Proof.
  induction a as [|c a IH]; simpl; [reflexivity|]. now rewrite IH, andb_assoc.
Qed.

Lemma break_at_none (p : ascii -> bool) (s : string) :
  Str.all_chars (fun c => negb (p c)) s = true -> Url.break_at p s = (s, "").
Proof.
  induction s as [|c s IH]; simpl; [reflexivity|].
  intros A. apply andb_true_iff in A as [A1 A2]. apply negb_true_iff in A1.
  now rewrite A1, IH.
Qed.

Lemma find_char_none (c : ascii) (s : string) :
  Str.all_chars (fun d => negb (Ascii.eqb d c)) s = true -> Str.find_char c s = None.
Proof.
  induction s as [|d s IH]; simpl; [reflexivity|].
  intros A. apply andb_true_iff in A as [A1 A2]. apply negb_true_iff in A1.
  rewrite Ascii.eqb_sym, A1, IH by assumption. reflexivity.
Qed.

Lemma contains_char_none (c : ascii) (s : string) :
  Str.all_chars (fun d => negb (Ascii.eqb d c)) s = true ->
  Str.contains (String c "") s = false.
Proof.
  induction s as [|d s IH]; simpl; [reflexivity|].
  intros A. apply andb_true_iff in A as [A1 A2]. apply negb_true_iff in A1.
  rewrite Ascii.eqb_sym, A1, IH by assumption. reflexivity.
Qed.

Lemma filter_chars_all (p : ascii -> bool) (s : string) :
  Str.all_chars p s = true -> Str.filter_chars p s = s.
Proof.
  induction s as [|c s IH]; simpl; [reflexivity|].
  intros A. apply andb_true_iff in A as [A1 A2]. now rewrite A1, IH.
Qed.

Lemma lstrip_head (p : ascii -> bool) (s : string) :
  Url.head_is p s = false -> Str.lstrip_by p s = s.
Proof. destruct s as [|c s]; simpl; [reflexivity|]. now intros ->. Qed.

Lemma unquote_plain (s : string) :
  Str.all_chars (fun c => negb (Ascii.eqb c "%")) s = true -> Url.unquote s = s.
Proof.
  unfold Url.unquote. induction s as [|c s IH]; simpl; [reflexivity|].
  intros A. apply andb_true_iff in A as [A1 A2]. apply negb_true_iff in A1.
  now rewrite A1, IH.
Qed.

Lemma before_none (sep : ascii) (s : string) :
  Str.all_chars (fun c => negb (Ascii.eqb c sep)) s = true -> Str.before sep s = s.
Proof.
  induction s as [|c s IH]; simpl; [reflexivity|].
  intros A. apply andb_true_iff in A as [A1 A2]. apply negb_true_iff in A1.
  now rewrite A1, IH.
Qed.

(** The characters of a link made of plain names. *)
Lemma link_char_not (c d : ascii) :
  In d ["/"; ":"; "?"; "#"; ";"; "%"]%char ->
  d <> "/"%char ->
  link_char c || Ascii.eqb c "/" = true -> negb (Ascii.eqb c d) = true.
Proof.
  intros Hd Hn H. apply negb_true_iff. destruct (Ascii.eqb_spec c d) as [->|]; [|reflexivity].
  exfalso. simpl in Hd.
  destruct Hd as [<-|[<-|[<-|[<-|[<-|[<-|[]]]]]]]; try contradiction; discriminate.
Qed.

Lemma link_char_safe (c : ascii) :
  link_char c || Ascii.eqb c "/" = true -> negb (Url.is_unsafe c) = true.
Proof.
  intros H. apply orb_true_iff in H as [H|H].
  - unfold link_char in H. now apply andb_true_iff in H as [H _].
  - apply Ascii.eqb_eq in H as ->. reflexivity.
Qed.

Lemma urlparse_plain (s : string) :
  Str.all_chars (fun c => link_char c || Ascii.eqb c "/") s = true ->
  Url.head_is Url.is_c0_or_space s = false ->
  Str.startswith "//" s = false ->
  Url.urlparse s = Url.Parsed "" "" s "" "" "".
Proof.
  intros A H S. unfold Url.urlparse.
  rewrite (lstrip_head _ _ H).
  rewrite (filter_chars_all _ s (all_chars_impl _ _ s link_char_safe A)).
  unfold Url.split_scheme.
  rewrite (find_char_none ":" s)
    by (apply (all_chars_impl _ _ s (fun c => link_char_not c ":"%char
               ltac:(simpl; tauto) ltac:(discriminate)) A)).
  unfold Url.split_netloc. rewrite S. unfold Url.split1.
  rewrite (break_at_none (Ascii.eqb "#") s).
  2:{ apply (all_chars_impl _ _ s) with (2 := A). intros c Hc. rewrite Ascii.eqb_sym.
      apply (link_char_not c "#"%char); [simpl; tauto|discriminate|exact Hc]. }
  cbn [Str.drop].
  rewrite (break_at_none (Ascii.eqb "?") s).
  2:{ apply (all_chars_impl _ _ s) with (2 := A). intros c Hc. rewrite Ascii.eqb_sym.
      apply (link_char_not c "?"%char); [simpl; tauto|discriminate|exact Hc]. }
  cbn [Str.drop].
  rewrite (contains_char_none ";" s).
  2:{ apply (all_chars_impl _ _ s) with (2 := A). intros c Hc.
      apply (link_char_not c ";"%char); [simpl; tauto|discriminate|exact Hc]. }
  rewrite andb_false_r. reflexivity.
Qed.


Lemma split_plain (w : string) :
  Str.all_chars (fun c => negb (Ascii.eqb c "/")) w = true -> Str.split "/" w = [w].
Proof.
  induction w as [|c w IH]; simpl; [reflexivity|].
  intros A. apply andb_true_iff in A as [A1 A2]. apply negb_true_iff in A1.
  now rewrite A1, IH.
Qed.

Lemma split_app_sep (w rest : string) :
  Str.all_chars (fun c => negb (Ascii.eqb c "/")) w = true ->
  Str.split "/" (w ++ "/" ++ rest) = w :: Str.split "/" rest.
Proof.
  induction w as [|c w IH]; simpl; [reflexivity|].
  intros A. apply andb_true_iff in A as [A1 A2]. apply negb_true_iff in A1.
  rewrite A1. simpl in IH. now rewrite IH.
Qed.

Lemma split_join (l : list string) :
  l <> [] ->
  (forall w, In w l -> Str.all_chars (fun c => negb (Ascii.eqb c "/")) w = true) ->
  Str.split "/" (Str.join "/" l) = l.
Proof.
  induction l as [|w l IH]; intros Hl H; [contradiction|].
  destruct l as [|v l].
  - simpl. apply split_plain, H. now left.
  - change (Str.join "/" (w :: v :: l)) with (w ++ "/" ++ Str.join "/" (v :: l)).
    rewrite split_app_sep by (apply H; now left). f_equal.
    apply IH; [discriminate|]. intros u Hu. apply H. now right.
Qed.

Lemma join_cons (w : string) (l : list string) :
  l <> [] -> Str.join "/" (w :: l) = w ++ "/" ++ Str.join "/" l.
Proof. destruct l; [contradiction|reflexivity]. Qed.

Lemma all_chars_join (p : ascii -> bool) (l : list string) :
  p "/"%char = true -> (forall w, In w l -> Str.all_chars p w = true) ->
  Str.all_chars p (Str.join "/" l) = true.
Proof.
  intros Hs. induction l as [|w l IH]; intros H; [reflexivity|].
  destruct l as [|v l].
  - simpl. apply H. now left.
  - rewrite join_cons by discriminate. rewrite !all_chars_app.
    rewrite (H w (or_introl eq_refl)). simpl. rewrite Hs. simpl.
    apply IH. intros u Hu. apply H. now right.
Qed.

(** A component that a link can spell: a plain name, or [..]. *)
Lemma segment_chars (w : string) :
  w = ".." \/ plain_name w = true ->
  Str.all_chars link_char w = true
  /\ w <> "" /\ w <> "."
  /\ Url.head_is Url.is_c0_or_space w = false.
Proof.
  intros [->|H]; [repeat split; discriminate|].
  unfold plain_name in H. repeat (apply andb_true_iff in H as [H ?]).
  rewrite !negb_true_iff in *. repeat split; try assumption.
  - intros ->. discriminate.
  - intros ->. discriminate.
Qed.

Lemma link_char_no_slash (c : ascii) : link_char c = true -> negb (Ascii.eqb c "/") = true.
Proof.
  unfold link_char. intros H. apply andb_true_iff in H as [_ H].
  apply negb_true_iff in H. cbn [existsb] in H. apply orb_false_iff in H as [H _].
  now rewrite H.
Qed.

Lemma parts_as_posix (l : list string) :
  (forall w, In w l -> w = ".." \/ plain_name w = true) ->
  Path.parts (Path.as_posix l) = l.
Proof.
  intros H. destruct l as [|w l]; [reflexivity|].
  unfold Path.as_posix, Path.parts. rewrite split_join.
  - apply forallb_filter_id. apply forallb_forall. intros u Hu.
    destruct (segment_chars u (H u Hu)) as (_ & N1 & N2 & _).
    apply String.eqb_neq in N1, N2. now rewrite N1, N2.
  - discriminate.
  - intros u Hu. destruct (segment_chars u (H u Hu)) as (A & _).
    exact (all_chars_impl _ _ u link_char_no_slash A).
Qed.

Lemma head_of_join (p : ascii -> bool) (w : string) (l : list string) :
  w <> "" -> Url.head_is p (Str.join "/" (w :: l)) = Url.head_is p w.
Proof.
  intros Hw. destruct w as [|c w]; [contradiction|]. now destruct l.
Qed.

Lemma as_posix_link (l : list string) :
  (forall w, In w l -> w = ".." \/ plain_name w = true) ->
  Str.all_chars (fun c => link_char c || Ascii.eqb c "/") (Path.as_posix l) = true
  /\ Url.head_is Url.is_c0_or_space (Path.as_posix l) = false
  /\ Url.head_is (Ascii.eqb "/") (Path.as_posix l) = false
  /\ Url.head_is (Ascii.eqb "#") (Path.as_posix l) = false
  /\ Url.head_is Str.is_space (Path.as_posix l) = false
  /\ Path.as_posix l <> "".
Proof.
  intros H. destruct l as [|w l]; [repeat split; discriminate|].
  unfold Path.as_posix.
  destruct (segment_chars w (H w (or_introl eq_refl))) as (A & N1 & _ & Hh).
  split.
  { apply all_chars_join; [reflexivity|]. intros u Hu.
    destruct (segment_chars u (H u Hu)) as (Au & _).
    apply (all_chars_impl _ _ u) with (2 := Au). intros c ->. reflexivity. }
  rewrite !head_of_join by assumption.
  destruct w as [|c w]; [contradiction|]. cbn [Url.head_is Str.all_chars] in *.
  apply andb_true_iff in A as [A _].
  split; [exact Hh|].
  assert (forall d, In d ["/"; "#"]%char -> Ascii.eqb d c = false) as Hd.
  { intros d Hd. destruct (Ascii.eqb_spec d c) as [<-|]; [|reflexivity].
    destruct Hd as [<-|[<-|[]]]; discriminate. }
  rewrite !Hd by (simpl; tauto).
  repeat split; try discriminate.
  - unfold Url.is_c0_or_space in Hh. unfold Str.is_space.
    apply Nat.leb_gt in Hh.
    destruct (Nat.leb_spec 9 (nat_of_ascii c)), (Nat.leb_spec (nat_of_ascii c) 13),
    (Nat.leb_spec 28 (nat_of_ascii c)), (Nat.leb_spec (nat_of_ascii c) 32);
    simpl; try reflexivity; try lia.
  - now destruct l.
Qed.


Lemma startswith_head (c : ascii) (pre s : string) :
  Url.head_is (Ascii.eqb c) s = false -> Str.startswith (String c pre) s = false.
Proof.
  destruct s as [|d s]; simpl; [reflexivity|]. now intros ->.
Qed.

Lemma rstrip_keeps (p : ascii -> bool) (a b : string) :
  b <> "" -> Str.rstrip_by p b = b -> Str.rstrip_by p (a ++ b) = a ++ b.
Proof.
  intros Hb E. induction a as [|c a IH]; [exact E|].
  simpl. rewrite IH. destruct (a ++ b) eqn:Q; [|reflexivity].
  destruct a; [simpl in Q; contradiction|discriminate].
Qed.

Lemma join_last (l : list string) :
  l <> [] -> exists a, Str.join "/" l = a ++ last l "".
Proof.
  induction l as [|w l IH]; intros Hl; [contradiction|].
  destruct l as [|v l].
  - now exists "".
  - destruct IH as [a E]; [discriminate|].
    exists (w ++ "/" ++ a). rewrite join_cons by discriminate.
    rewrite E. change (last (w :: v :: l) "") with (last (v :: l) "").
    now rewrite !str_app_assoc.
Qed.

Lemma relpath_parts_shape (p start : path) :
  exists c s' p',
    start = (c ++ s')%list /\ p = (c ++ p')%list
    /\ Path.relpath_parts p start = (repeat ".." (List.length s') ++ p')%list
    /\ (p' = [] -> Path.is_relative_to start p = true).
Proof.
  revert start. induction p as [|x p IH]; intros start.
  - exists [], start, []. repeat split; try apply below_nil; now destruct start.
  - destruct start as [|d start].
    + exists [], [], (x :: p). repeat split; discriminate.
    + simpl. destruct (String.eqb_spec x d) as [->|Hn].
      * destruct (IH start) as (c & s' & p' & -> & -> & E & B).
        exists (d :: c), s', p'. repeat split; [exact E|].
        intros Hp. change (Path.is_relative_to (d :: (c ++ s')) (d :: (c ++ p')) = true).
        rewrite relative_to_cons, String.eqb_refl. now apply B.
      * exists [], (d :: start), (x :: p). repeat split; discriminate.
Qed.

Lemma resolve_from_ups (acc : list string) (n : nat) (rest : list string) :
  Path.resolve_from acc (repeat ".." n ++ rest)%list = Path.resolve_from (skipn n acc) rest.
Proof.
  revert acc. induction n as [|n IH]; intros acc; [reflexivity|].
  simpl. rewrite IH. destruct acc; [now rewrite skipn_nil|reflexivity].
Qed.

Lemma resolve_from_plain (acc cs : list string) :
  ~ In ".." cs -> Path.resolve_from acc cs = (rev acc ++ cs)%list.
Proof.
  intros H. rewrite <- (app_nil_r cs) at 1. rewrite resolve_from_app by assumption.
  simpl. now rewrite rev_app_distr, rev_involutive.
Qed.

Lemma plain_names_resolved (l : list string) :
  forallb plain_name l = true -> ~ In ".." l.
Proof.
  intros H Hin. rewrite forallb_forall in H. now specialize (H _ Hin).
Qed.

(** Up from [dir] to the common part and down to [dst]. *)
Lemma resolve_relpath (ROOT dir dst : path) :
  ~ In ".." ROOT -> ~ In ".." dir -> ~ In ".." dst ->
  Path.resolve ((ROOT ++ dir) ++ Path.relpath_parts dst dir)%list = (ROOT ++ dst)%list.
Proof.
  intros HR Hdir Hdst.
  destruct (relpath_parts_shape dst dir) as (c & s' & p' & Ed & Ep & -> & _).
  rewrite <- app_assoc, (resolve_below_root ROOT HR).
  rewrite resolve_from_app by assumption. rewrite resolve_from_ups.
  subst dir dst. rewrite rev_app_distr, <- app_assoc.
  rewrite skipn_app, length_rev, Nat.sub_diag, skipn_all2 by (rewrite length_rev; lia).
  cbn [skipn app]. rewrite resolve_from_plain.
  - now rewrite rev_app_distr, !rev_involutive, app_assoc.
  - intros H. apply Hdst. apply in_or_app. now right.
Qed.

Lemma resolve_target_of_link (ROOT : path) (current_file : path) (l : list string) :
  (forall w, In w l -> w = ".." \/ plain_name w = true) ->
  Verify.target_path ROOT current_file (Path.as_posix l)
  = Ok (Path.resolve (Path.parent current_file ++ l)%list).
Proof.
  intros H. destruct (as_posix_link l H) as (A & H0 & Hs & _).
  unfold Verify.target_path.
  rewrite (urlparse_plain _ A H0 (startswith_head "/" "/" _ Hs)). cbn [Url.path].
  rewrite unquote_plain.
  2:{ apply (all_chars_impl _ _ _) with (2 := A). intros c Hc.
      apply (link_char_not c "%"%char); [simpl; tauto|discriminate|exact Hc]. }
  rewrite (before_none "#").
  2:{ apply (all_chars_impl _ _ _) with (2 := A). intros c Hc.
      apply (link_char_not c "#"%char); [simpl; tauto|discriminate|exact Hc]. }
  rewrite (before_none "?").
  2:{ apply (all_chars_impl _ _ _) with (2 := A). intros c Hc.
      apply (link_char_not c "?"%char); [simpl; tauto|discriminate|exact Hc]. }
  unfold Path.anchor_of.
  rewrite !(startswith_head "/" _ _ Hs). now rewrite (parts_as_posix l H).
Qed.

Lemma should_check_link (l : list string) (a : string) :
  (forall w, In w l -> w = ".." \/ plain_name w = true) ->
  l <> [] -> last l "" = a ++ ".md" ->
  Verify.should_check (Path.as_posix l) = true.
Proof.
  intros H Hl E. destruct (as_posix_link l H) as (A & H0 & Hs & Hh & Hsp & Hne).
  destruct (join_last l Hl) as [b J].
  assert (Ea : Path.as_posix l = (b ++ a) ++ ".md").
  { unfold Path.as_posix. destruct l; [contradiction|].
    now rewrite J, E, str_app_assoc. }
  assert (St : Str.strip (Path.as_posix l) = Path.as_posix l).
  { unfold Str.strip. rewrite (lstrip_head _ _ Hsp), Ea.
    apply rstrip_keeps; [discriminate|reflexivity]. }
  unfold Verify.should_check. rewrite St.
  apply String.eqb_neq in Hne. rewrite Hne.
  rewrite (startswith_head "#" "" _ Hh), (startswith_head "/" "/" _ Hs). cbn [orb].
  rewrite (urlparse_plain _ A H0 (startswith_head "/" "/" _ Hs)). cbn [Url.scheme Url.path].
  cbn [mem_string existsb Verify.SKIP_SCHEMES String.eqb orb].
  apply endswith_spec. now exists (b ++ a).
Qed.


Lemma below_common_prefix (b p q : path) :
  Path.is_relative_to (b ++ p)%list (b ++ q)%list = Path.is_relative_to p q.
Proof.
  induction b as [|x b IH]; [reflexivity|].
  change ((x :: b) ++ p)%list with (x :: (b ++ p))%list.
  change ((x :: b) ++ q)%list with (x :: (b ++ q))%list.
  now rewrite relative_to_cons, String.eqb_refl.
Qed.

Lemma relpath_parts_segments (dir dst : path) :
  forallb plain_name dst = true ->
  forall w, In w (Path.relpath_parts dst dir) -> w = ".." \/ plain_name w = true.
Proof.
  intros H w Hw. destruct (relpath_parts_shape dst dir) as (c & s' & p' & _ & -> & E & _).
  rewrite E in Hw. apply in_app_or in Hw as [Hw|Hw].
  - left. now apply repeat_spec in Hw.
  - right. rewrite forallb_forall in H. apply H, in_or_app. now right.
Qed.

(** X11.  The link that the rewriter writes in [file_path] for a file moved to
    [new_abs], read by the checker in [file_path], is [new_abs]: the target
    that [resolve_target] returns is the new place, the link is not reported
    when the file is there, and it is one that [should_check] keeps when the
    name of the file ends in [.md]; for a file and a new place below [ROOT]
    whose components are plain names. *)
Theorem rewritten_link_leads_to_new_place (ROOT dir : path) (name : string) (dst : path) :
  ~ In ".." ROOT ->
  forallb plain_name dir = true ->
  forallb plain_name dst = true ->
  let file_path := (ROOT ++ dir ++ [name])%list in
  let new_abs := (ROOT ++ dst)%list in
  let new_rel := Path.relpath new_abs (Path.parent file_path) in
  Verify.resolve_target ROOT file_path new_rel = Ok (Some new_abs)
  /\ (forall fs, FS.exists_ fs new_abs = true -> broken ROOT fs file_path new_rel = false)
  /\ (forall a,
        Path.is_relative_to (Path.parent file_path) new_abs = false ->
        Path.name new_abs = a ++ ".md" ->
        Verify.should_check new_rel = true).
Proof.
  intros HR Hdir Hdst file_path new_abs new_rel.
  assert (En : new_rel = Path.as_posix (Path.relpath_parts dst dir)).
  { unfold new_rel, file_path, new_abs. now rewrite parent_below, relpath_below. }
  pose proof (relpath_parts_segments dir dst Hdst) as Seg.
  assert (T : Verify.resolve_target ROOT file_path new_rel = Ok (Some new_abs)).
  { unfold Verify.resolve_target. rewrite En, (resolve_target_of_link _ _ _ Seg).
    unfold file_path. rewrite parent_below.
    rewrite (resolve_relpath ROOT dir dst HR (plain_names_resolved _ Hdir)
               (plain_names_resolved _ Hdst)).
    cbn [bind]. unfold new_abs. now rewrite relative_to_app. }
  split; [exact T|]. split.
  - intros fs X. unfold broken. now rewrite T, X.
  - intros a B N. rewrite En.
    destruct (relpath_parts_shape dst dir) as (c & s' & p' & Ed & Ep & E & Hp).
    assert (Hp' : p' <> []).
    { intros ->. unfold file_path, new_abs in B.
      rewrite parent_below, below_common_prefix, Hp in B; [discriminate|reflexivity]. }
    apply (should_check_link _ a Seg).
    + rewrite E. destruct p'; [contradiction|]. now destruct (repeat ".." (List.length s')).
    + rewrite E, last_app_more by assumption.
      unfold new_abs, Path.name in N. rewrite Ep in N.
      now rewrite app_assoc, last_app_more in N by assumption.
Qed.

End LinkStrings.

(** ** The checker: what it finds and how it fails *)

Section CheckerResults.

Variable ROOT : path.

Lemma break_at_spec (p : ascii -> bool) (s a b : string) :
  Url.break_at p s = (a, b) ->
  s = a ++ b
  /\ Str.all_chars (fun c => negb (p c)) a = true
  /\ (b = "" \/ Url.head_is p b = true).
Proof.
  revert a b. induction s as [|c s IH]; intros a b; simpl.
  - intros [= <- <-]. auto.
  - destruct (p c) eqn:P.
    + intros [= <- <-]. simpl. auto.
    + destruct (Url.break_at p s) as [a' b']. intros [= <- <-].
      destruct (IH a' b' eq_refl) as (-> & A & B). simpl. rewrite P. auto.
Qed.

Lemma head_is_eqb (c : ascii) (s : string) :
  Url.head_is (Ascii.eqb c) s = true -> exists s', s = String c s'.
Proof.
  destruct s as [|d s]; simpl; [discriminate|].
  intros H. apply Ascii.eqb_eq in H as ->. now exists s.
Qed.

Lemma match_link_spec (s href : string) (len : nat) :
  Verify.match_link s = Some (href, len) ->
  exists label rest,
    s = "[" ++ label ++ "](" ++ href ++ ")" ++ rest
    /\ label <> "" /\ href <> ""
    /\ Str.all_chars (fun c => negb (Ascii.eqb "]" c)) label = true
    /\ Str.all_chars (fun c => negb (Ascii.eqb ")" c)) href = true.
Proof.
  unfold Verify.match_link. destruct s as [|c s1]; [discriminate|].
  destruct (Ascii.eqb_spec c "[") as [->|Hc].
  2:{ destruct c as [[] [] [] [] [] [] [] []]; try discriminate. now contradiction Hc. }
  destruct (Url.break_at (Ascii.eqb "]") s1) as [label s2] eqn:B1.
  apply break_at_spec in B1 as (-> & A1 & H1).
  destruct label as [|l0 label]; [discriminate|].
  destruct s2 as [|c2 s2]; [discriminate|].
  destruct H1 as [H1|H1]; [discriminate|]. apply head_is_eqb in H1 as [s2' [= -> <-]].
  destruct s2 as [|c3 s3]; [discriminate|].
  destruct (Ascii.eqb_spec c3 "(") as [->|Hc].
  2:{ destruct c3 as [[] [] [] [] [] [] [] []]; try discriminate. now contradiction Hc. }
  destruct (Url.break_at (Ascii.eqb ")") s3) as [h s4] eqn:B2.
  apply break_at_spec in B2 as (-> & A2 & H2).
  destruct h as [|h0 h]; [discriminate|].
  destruct s4 as [|c4 s4]; [discriminate|].
  destruct H2 as [H2|H2]; [discriminate|]. apply head_is_eqb in H2 as [s4' [= -> <-]].
  intros [= <- _]. exists (String l0 label), s4.
  split.
  { reflexivity. }
  repeat split; try discriminate; assumption.
Qed.

(** X12.  Every link target that [finditer] yields stands in the text between
    [](] and [)], after a label in brackets; the target and the label are
    not empty, the target holds no [)] and the label no []]. *)
Theorem finditer_yields_links_of_the_text (text href : string) :
  In href (Verify.finditer text) ->
  exists a label b,
    text = a ++ "[" ++ label ++ "](" ++ href ++ ")" ++ b
    /\ label <> "" /\ href <> ""
    /\ Str.all_chars (fun c => negb (Ascii.eqb "]" c)) label = true
    /\ Str.all_chars (fun c => negb (Ascii.eqb ")" c)) href = true.
Proof.
  unfold Verify.finditer. generalize 0%nat as skip.
  induction text as [|c text IH]; intros skip; [contradiction|].
  assert (Later : forall k, In href (Verify.finditer_from k text) ->
            exists a label b,
              String c text = a ++ "[" ++ label ++ "](" ++ href ++ ")" ++ b
              /\ label <> "" /\ href <> ""
              /\ Str.all_chars (fun c => negb (Ascii.eqb "]" c)) label = true
              /\ Str.all_chars (fun c => negb (Ascii.eqb ")" c)) href = true).
  { intros k H. destruct (IH k H) as (a & label & b & -> & R).
    now exists (String c a), label, b. }
  cbn [Verify.finditer_from]. destruct skip as [|k]; [|apply Later].
  destruct (Verify.match_link (String c text)) as [[h len]|] eqn:M; [|apply Later].
  intros [<-|H]; [|now apply (Later (len - 1))].
  destruct (match_link_spec _ _ _ M) as (label & rest & E & R).
  now exists "", label, rest.
Qed.

Lemma check_links_reaches fs md_file hrefs href :
  In href hrefs ->
  Verify.should_check href = true ->
  (exists e, Verify.resolve_target ROOT md_file href = Raise e) ->
  forall errors, exists e, Verify.check_links ROOT fs md_file errors hrefs = Raise e.
Proof.
  induction hrefs as [|h hrefs IH]; intros Hin S [e0 T] errors; [contradiction|].
  cbn [Verify.check_links]. destruct Hin as [->|Hin].
  - rewrite S. cbn [negb]. rewrite T. cbn [bind]. now exists e0.
  - pose proof (IH Hin S (ex_intro _ e0 T)) as Later.
    destruct (Verify.should_check h); cbn [negb]; [|apply Later].
    destruct (Verify.resolve_target ROOT md_file h) as [[t|]|e1]; cbn [bind].
    + destruct (FS.exists_ fs t); apply Later.
    + apply Later.
    + now exists e1.
Qed.

Lemma check_files_reaches fs files md_file :
  In md_file files ->
  (exists e, Verify.read_text fs md_file = Raise e)
  \/ (exists text,
        Verify.read_text fs md_file = Ok (Some text)
        /\ forall errors,
             exists e, Verify.check_links ROOT fs md_file errors (Verify.finditer text)
                       = Raise e) ->
  forall errors, exists e, Verify.check_files ROOT fs errors files = Raise e.
Proof.
  induction files as [|f files IH]; intros Hin B errors; [contradiction|].
  cbn [Verify.check_files]. destruct Hin as [->|Hin].
  - destruct B as [[e0 R]|(text & R & C)]; rewrite R; cbn [bind].
    + now exists e0.
    + destruct (C errors) as [e0 C0]. rewrite C0. cbn [bind]. now exists e0.
  - pose proof (IH Hin B) as Later.
    destruct (Verify.read_text fs f) as [[text|]|e1]; cbn [bind].
    + destruct (Verify.check_links ROOT fs f errors (Verify.finditer text))
        as [errors'|e1]; cbn [bind]; [apply Later|now exists e1].
    + apply Later.
    + now exists e1.
Qed.

(** X13.  The checker ends with an exception, and so returns no exit code
    and prints no list, as soon as an entry that [iter_markdown] yields is a
    directory (reading it raises [IsADirectoryError]), or a link in scope of
    a scanned file has a path that, unquoted, starts with exactly two slashes
    ([relative_to] raises [ValueError] in [resolve_target]); nothing catches
    either. *)
Theorem checker_raises_on_a_directory_or_two_slashes (fs : FS.node) :
  (exists md_file,
      In md_file (Verify.iter_markdown ROOT fs) /\ FS.is_dir fs md_file = true)
  \/ (exists md_file href,
         scanned_link ROOT fs md_file href
         /\ Path.anchor_of
              (Str.before "?"
                 (Str.before "#" (Url.unquote (Url.path (Url.urlparse href)))))
            = Path.TwoSlashes) ->
  exists e, Verify.main ROOT fs = Raise e.
Proof.
  intros H.
  assert (C : exists e, Verify.check_files ROOT fs [] (Verify.iter_markdown ROOT fs)
                        = Raise e).
  { destruct H as [(md_file & Hin & D)|(md_file & href & (Hin & text & F & Hh & S) & A)].
    - apply (check_files_reaches fs _ md_file Hin). left.
      exists IsADirectoryError. unfold Verify.read_text. unfold FS.is_dir in D.
      destruct (FS.lookup fs md_file) as [[c|es]|]; try discriminate. reflexivity.
    - apply (check_files_reaches fs _ md_file Hin). right.
      exists text. split.
      + unfold Verify.read_text. unfold file_at in F. now rewrite F.
      + apply (check_links_reaches fs md_file _ href Hh S).
        exists ValueError. unfold Verify.resolve_target, Verify.target_path.
        now rewrite A. }
  destruct C as [e C]. exists e. unfold Verify.main. now rewrite C.
Qed.

End CheckerResults.

(** ** What a run with [--fix] leaves alone *)

Section FixRunFrame.

Variable ROOT : path.
Variable set_iter : list string -> list string.





End FixRunFrame.

(** ** The table of folders *)

Section Table.

Variable ROOT : path.

(** X15.  No rule of the table is shadowed by an earlier one: a name made of the
    keywords of a rule goes to the folder of that rule. *)
Theorem every_rule_can_be_reached (keywords : list string) (folder : string) :
  In (keywords, folder) Organize.patterns ->
  Organize.guess_target_folder ROOT (Str.join "_" keywords) = Path.join ROOT folder.
Proof.
  intros H. unfold Organize.guess_target_folder.
  enough (E : Organize.first_match (Str.upper (Str.join "_" keywords)) Organize.patterns
              = Some folder) by now rewrite E.
  unfold Organize.patterns in H. cbn [In] in H.
  repeat (destruct H as [[= <- <-]|H]; [vm_compute; reflexivity|]). contradiction.
Qed.

End Table.

(** ** Links that are not checked *)

Section ExternalLinks.

Lemma alpha_bounds (c : ascii) :
  Url.is_alpha c = true ->
  (65 <= nat_of_ascii c <= 90 \/ 97 <= nat_of_ascii c <= 122)%nat.
Proof.
  unfold Url.is_alpha, Str.is_lower, Str.is_upper. intros H.
  apply orb_true_iff in H as [H|H]; apply andb_true_iff in H as [H1 H2];
    apply Nat.leb_le in H1, H2; lia.
Qed.

Lemma alpha_is_not (c d : ascii) :
  Url.is_alpha c = true -> Url.is_alpha d = false -> Ascii.eqb c d = false.
Proof.
  intros Hc Hd. destruct (Ascii.eqb_spec c d) as [->|]; [congruence|reflexivity].
Qed.

Lemma alpha_not_space (c : ascii) :
  Url.is_alpha c = true ->
  Str.is_space c = false /\ Url.is_c0_or_space c = false /\ Url.is_unsafe c = false.
Proof.
  intros H. apply alpha_bounds in H.
  unfold Str.is_space, Url.is_c0_or_space, Url.is_unsafe.
  repeat split.
  - apply orb_false_iff. split; apply andb_false_iff;
      destruct (Nat.leb_spec 9 (nat_of_ascii c)), (Nat.leb_spec (nat_of_ascii c) 13),
        (Nat.leb_spec 28 (nat_of_ascii c)), (Nat.leb_spec (nat_of_ascii c) 32);
      auto; lia.
  - apply Nat.leb_gt. lia.
  - repeat (apply orb_false_iff; split); apply Nat.eqb_neq; lia.
Qed.

Lemma rstrip_after (p : ascii -> bool) (a : string) (c : ascii) (rest : string) :
  p c = false ->
  exists rest', Str.rstrip_by p (a ++ String c rest) = a ++ String c rest'.
Proof.
  intros Hc. induction a as [|d a [rest' IH]].
  - simpl. destruct (Str.rstrip_by p rest) as [|e t].
    + rewrite Hc. now exists "".
    + now exists (String e t).
  - exists rest'. simpl. rewrite IH. now destruct a.
Qed.

Lemma find_char_after (c : ascii) (a rest : string) :
  Str.all_chars (fun d => negb (Ascii.eqb d c)) a = true ->
  Str.find_char c (a ++ String c rest) = Some (String.length a).
Proof.
  induction a as [|d a IH]; simpl.
  - now rewrite Ascii.eqb_refl.
  - intros A. apply andb_true_iff in A as [A1 A2]. apply negb_true_iff in A1.
    rewrite Ascii.eqb_sym, A1, IH by assumption. reflexivity.
Qed.

Lemma substring_prefix (a b : string) : String.substring 0 (String.length a) (a ++ b) = a.
Proof.
  induction a as [|c a IH]; simpl; [now destruct b|]. now rewrite IH.
Qed.

Lemma filter_chars_app (p : ascii -> bool) (a b : string) :
  Str.filter_chars p (a ++ b) = Str.filter_chars p a ++ Str.filter_chars p b.
Proof.
  induction a as [|c a IH]; simpl; [reflexivity|].
  destruct (p c); simpl; now rewrite IH.
Qed.

Lemma scheme_of_url (s rest : string) :
  s <> "" -> Str.all_chars Url.is_alpha s = true ->
  Url.scheme (Url.urlparse (s ++ String ":" rest)) = Str.lower s.
Proof.
  intros Hs A.
  assert (Hh : Url.head_is Url.is_alpha (s ++ String ":" rest) = true).
  { destruct s as [|c s]; [contradiction|]. simpl in *. now apply andb_true_iff in A as [A _]. }
  assert (H0 : Url.head_is Url.is_c0_or_space (s ++ String ":" rest) = false).
  { destruct s as [|c s]; [contradiction|]. simpl in *. apply andb_true_iff in A as [A _].
    now apply alpha_not_space in A. }
  unfold Url.urlparse. rewrite (lstrip_head _ _ H0), filter_chars_app.
  rewrite (filter_chars_all _ s).
  2:{ apply (all_chars_impl Url.is_alpha); [|exact A]. intros c Hc.
      apply alpha_not_space in Hc as (_ & _ & ->). reflexivity. }
  cbn [Str.filter_chars Url.is_unsafe nat_of_ascii]. simpl (negb _).
  cbv iota.
  unfold Url.split_scheme. rewrite find_char_after.
  2:{ apply (all_chars_impl Url.is_alpha); [|exact A]. intros c Hc.
      now rewrite (alpha_is_not c ":" Hc). }
  rewrite substring_prefix.
  assert (L : (0 <? String.length s)%nat = true).
  { destruct s; [contradiction|reflexivity]. }
  assert (Hh' : forall t, Url.head_is Url.is_alpha (s ++ t) = true).
  { intros t. destruct s as [|c s]; [contradiction|]. simpl in *.
    now apply andb_true_iff in A as [A _]. }
  rewrite L, Hh'.
  rewrite (all_chars_impl Url.is_alpha Url.is_scheme_char s); [|
    intros c Hc; unfold Url.is_scheme_char; now rewrite Hc | exact A].
  cbn [andb].
  destruct (Url.split_netloc _) as [netloc u1].
  destruct (Url.split1 "#" u1) as [u2 fragment].
  destruct (Url.split1 "?" u2) as [u3 query].
  match goal with |- context [if ?b then ?x else ?y] => destruct (if b then x else y) as [u4 params] end.
  reflexivity.
Qed.

(** X16.  A link with one of the schemes of [SKIP_SCHEMES], in any letter case,
    is not checked, whatever follows the colon among the ASCII characters
    other than the square brackets (with which [urlparse] can raise). *)
Theorem links_with_a_skipped_scheme_are_not_checked (s rest : string) :
  Str.all_chars Url.is_alpha s = true ->
  In (Str.lower s) Verify.SKIP_SCHEMES ->
  Str.all_chars plain_url_char rest = true ->
  Verify.should_check (s ++ ":" ++ rest) = false.
Proof.
  intros A Hin _. change (s ++ ":" ++ rest) with (s ++ String ":" rest).
  assert (Hs : s <> "").
  { intros ->. simpl in Hin. intuition discriminate. }
  assert (Hsp : Url.head_is Str.is_space (s ++ String ":" rest) = false).
  { destruct s as [|c s]; [contradiction|]. simpl in *. apply andb_true_iff in A as [A _].
    now apply alpha_not_space in A. }
  unfold Verify.should_check, Str.strip. rewrite (lstrip_head _ _ Hsp).
  destruct (rstrip_after Str.is_space s ":" rest eq_refl) as [rest' ->].
  destruct (_ || _) eqn:E; [reflexivity|].
  rewrite (scheme_of_url s rest' Hs A).
  apply mem_string_In in Hin. now rewrite Hin.
Qed.

End ExternalLinks.

(** ** The further properties on small inputs *)

Section FurtherExamples.

Import Scenario Cases.

(** X2 on an example. *)
Lemma root_in_skipped_directory_witness :
  Organize.should_skip vendor_root = true
  /\ Organize.find_stray_markdown vendor_root vendor_root_tree = []
  /\ Verify.main vendor_root vendor_root_tree = Ok (["Markdown link check passed."], 0).
Proof.
  pose proof (root_in_skipped_directory vendor_root vendor_root_tree eq_refl)
    as (_ & H2 & _ & _ & H5 & _).
  split; [reflexivity|]. split; [exact H2|exact H5].
Defined.

(** X3 on an example. *)
Lemma find_stray_markdown_spec_witness :
  well_formed fixable_tree = true
  /\ FS.exists_ fixable_tree notes_md = true
  /\ Organize.is_allowed R0 notes_md = false.
Proof.
  assert (H : In notes_md (Organize.find_stray_markdown R0 fixable_tree)).
  { now left. }
  apply (find_stray_markdown_spec R0 fixable_tree notes_md eq_refl) in H
    as (_ & X & _ & _ & A).
  split; [reflexivity|]. split; [exact X|exact A].
Defined.

(** X4 on an example. *)
Lemma move_stray_files_moves_every_file_witness :
  (forall s, In s [notes_md] -> away_from_docs R0 s)
  /\ snd (Organize.move_stray_files R0 fixable_tree [notes_md])
     = Ok [(notes_md, misc_notes_md)]
  /\ file_at (fst (Organize.move_stray_files R0 fixable_tree [notes_md]))
             misc_notes_md (FS.Text "Notes.")
  /\ FS.exists_ (fst (Organize.move_stray_files R0 fixable_tree [notes_md])) notes_md = false.
Proof.
  assert (A : forall s, In s [notes_md] -> away_from_docs R0 s).
  { intros s [<-|[]]. split; reflexivity. }
  assert (M : Organize.move_stray_files R0 fixable_tree [notes_md]
              = (fst (Organize.move_stray_files R0 fixable_tree [notes_md]),
                 Ok [(notes_md, misc_notes_md)])).
  { reflexivity. }
  destruct (move_stray_files_moves_every_file R0 fixable_tree [notes_md] _ _ A M)
    as (_ & _ & _ & G & F).
  split; [exact A|]. split; [reflexivity|]. split.
  - exact (F notes_md (FS.Text "Notes.") (or_introl eq_refl) eq_refl).
  - exact (G notes_md [] (or_introl eq_refl)).
Defined.

(** X5 on an example. *)
Lemma move_stray_files_fails_in_three_ways_witness :
  (forall s, In s [notes_md] -> away_from_docs R0 s)
  /\ Organize.move_stray_files R0 blocked_tree [notes_md]
     = (blocked_tree, Raise FileExistsError)
  /\ exists pre s post fs1 moves,
       [notes_md] = (pre ++ s :: post)%list
       /\ Organize.move_stray_files R0 blocked_tree pre = (fs1, Ok moves)
       /\ ((blocked_tree = fs1
            /\ ((FileExistsError = FileExistsError
                 /\ exists c, file_at fs1 (Organize.guess_target_folder R0 (Path.stem s)) c)
                \/ (FileExistsError = NotADirectoryError
                    /\ exists f x rest c,
                         Organize.guess_target_folder R0 (Path.stem s) = (f ++ x :: rest)%list
                         /\ file_at fs1 f c)))
           \/ (FS.mkdir_p fs1 (Organize.guess_target_folder R0 (Path.stem s)) = Ok blocked_tree
               /\ FS.exists_ blocked_tree (destination_of R0 s) = true
               /\ FileExistsError
                  = SystemExit (Organize.conflict_message (destination_of R0 s)))
           \/ (FS.mkdir_p fs1 (Organize.guess_target_folder R0 (Path.stem s)) = Ok blocked_tree
               /\ FS.exists_ blocked_tree (destination_of R0 s) = false
               /\ FS.exists_ fs1 s = false
               /\ FileExistsError = FileNotFoundError)).
Proof.
  assert (A : forall s, In s [notes_md] -> away_from_docs R0 s).
  { intros s [<-|[]]. split; reflexivity. }
  assert (M : Organize.move_stray_files R0 blocked_tree [notes_md]
              = (blocked_tree, Raise FileExistsError)).
  { reflexivity. }
  split; [exact A|]. split; [exact M|].
  exact (move_stray_files_fails_in_three_ways R0 blocked_tree [notes_md] _ _ A M).
Defined.

(** X6 on an example. *)
Lemma update_links_rewrites_each_text_file_once_witness :
  well_formed (rewrite_tree "[x](x.md)") = true
  /\ Organize.build_mapping R0 [] [(x_md, misc_x_md)] = Ok [("x.md", misc_x_md)]
  /\ exists fs',
       Organize.update_links R0 (nodup string_dec) (rewrite_tree "[x](x.md)")
         [(x_md, misc_x_md)]
       = (fs', Ok [b_md])
       /\ file_at fs' b_md (FS.Text "[x](../docs/misc/x.md)")
       /\ file_at fs' misc_x_md (FS.Text "moved").
Proof.
  split; [reflexivity|]. split; [reflexivity|].
  destruct (update_links_rewrites_each_text_file_once R0 (nodup string_dec)
              (rewrite_tree "[x](x.md)") [(x_md, misc_x_md)] [("x.md", misc_x_md)]
              eq_refl eq_refl) as (fs' & E & H & _).
  exists fs'. split; [exact E|]. split.
  - apply H. exists (FS.Text "[x](x.md)"). split; reflexivity.
  - apply H. exists (FS.Text "moved"). split; reflexivity.
Defined.

(** X7 on an example. *)
Lemma update_links_raises_for_a_source_outside_root_witness :
  well_formed fixable_tree = true
  /\ Organize.update_links R0 (nodup string_dec) fixable_tree
       [(["elsewhere"; "x.md"], misc_x_md)]
     = (fixable_tree, Raise ValueError).
Proof.
  split; [reflexivity|].
  exact (proj1 (update_links_raises_for_a_source_outside_root R0 (nodup string_dec)
                  fixable_tree [(["elsewhere"; "x.md"], misc_x_md)] eq_refl)
               ["elsewhere"; "x.md"] misc_x_md (or_introl eq_refl) eq_refl).
Defined.

(** X8 on an example. *)
Lemma update_links_leaves_files_without_spellings_witness :
  enumerates_sets (nodup string_dec)
  /\ Organize.build_mapping R0 [] [(x_md, misc_x_md)] = Ok [("x.md", misc_x_md)]
  /\ mentions_none R0 b_md [("x.md", misc_x_md)] "See the notes."
  /\ Organize.rewrite_text R0 (nodup string_dec) b_md [("x.md", misc_x_md)] "See the notes."
     = "See the notes.".
Proof.
  assert (M : mentions_none R0 b_md [("x.md", misc_x_md)] "See the notes.").
  { intros old_rel new_abs needle [[= <- <-]|[]] Hn.
    destruct Hn as [<-|[<-|[<-|[<-|[]]]]]; reflexivity. }
  split; [exact nodup_enumerates|]. split; [reflexivity|]. split; [exact M|].
  exact (proj1 (update_links_leaves_files_without_spellings R0 (nodup string_dec)
                  (rewrite_tree "See the notes.") [(x_md, misc_x_md)] [("x.md", misc_x_md)]
                  nodup_enumerates eq_refl)
               b_md "See the notes." M).
Defined.

(** X9 on an example. *)
Lemma fix_run_leaves_no_stray_witness :
  well_formed fixable_tree = true
  /\ Organize.find_stray_markdown R0
       (fst (fst (Organize.main R0 (nodup string_dec) true fixable_tree))) = []
  /\ FS.exists_ (fst (fst (Organize.main R0 (nodup string_dec) true fixable_tree)))
       misc_notes_md = true.
Proof.
  assert (M : Organize.main R0 (nodup string_dec) true fixable_tree
              = (fst (fst (Organize.main R0 (nodup string_dec) true fixable_tree)),
                 snd (fst (Organize.main R0 (nodup string_dec) true fixable_tree)),
                 Ok tt)).
  { reflexivity. }
  split; [reflexivity|].
  destruct (fix_run_leaves_no_stray R0 (nodup string_dec) fixable_tree _ _ _ eq_refl M)
    as [(e & Hr & _)|(N & _ & _ & H)]; [discriminate Hr|].
  split; [exact N|]. exact (proj2 (H notes_md (or_introl eq_refl))).
Defined.

(** X11 on an example. *)
Lemma rewritten_link_leads_to_new_place_witness :
  ~ In ".." R0
  /\ forallb plain_name ["a"] = true
  /\ forallb plain_name ["docs"; "misc"; "x.md"] = true
  /\ Verify.resolve_target R0 b_md "../docs/misc/x.md" = Ok (Some misc_x_md)
  /\ Verify.should_check "../docs/misc/x.md" = true.
Proof.
  assert (H : ~ In ".." R0).
  { intros [H|[H|[]]]; discriminate. }
  pose proof (rewritten_link_leads_to_new_place R0 ["a"] "b.md" ["docs"; "misc"; "x.md"]
                H eq_refl eq_refl) as (T & _ & S).
  split; [exact H|]. split; [reflexivity|]. split; [reflexivity|].
  split; [exact T|]. exact (S "x" eq_refl eq_refl).
Defined.

(** X12 on an example. *)
Lemma finditer_yields_links_of_the_text_witness :
  In "b.md" (Verify.finditer "see [a](b.md) and [c](d)")
  /\ exists a label b,
       "see [a](b.md) and [c](d)" = a ++ "[" ++ label ++ "](" ++ "b.md" ++ ")" ++ b
       /\ label <> "" /\ "b.md" <> ""
       /\ Str.all_chars (fun c => negb (Ascii.eqb "]" c)) label = true
       /\ Str.all_chars (fun c => negb (Ascii.eqb ")" c)) "b.md" = true.
Proof.
  assert (H : In "b.md" (Verify.finditer "see [a](b.md) and [c](d)")).
  { now left. }
  split; [exact H|].
  exact (finditer_yields_links_of_the_text "see [a](b.md) and [c](d)" "b.md" H).
Defined.

(** X13 on an example. *)
Lemma checker_raises_on_a_directory_or_two_slashes_witness :
  (exists md_file,
      In md_file (Verify.iter_markdown R0 directory_named_md)
      /\ FS.is_dir directory_named_md md_file = true)
  /\ exists e, Verify.main R0 directory_named_md = Raise e.
Proof.
  assert (H : exists md_file,
             In md_file (Verify.iter_markdown R0 directory_named_md)
             /\ FS.is_dir directory_named_md md_file = true).
  { exists notes_md. split; [now left|reflexivity]. }
  split; [exact H|].
  exact (checker_raises_on_a_directory_or_two_slashes R0 directory_named_md
           (or_introl H)).
Defined.

(** X15 on an example. *)
Lemma every_rule_can_be_reached_witness :
  In (["NEWS"; "SECURITY"], "docs/news/security") Organize.patterns
  /\ Organize.guess_target_folder R0 "NEWS_SECURITY"
     = (R0 ++ ["docs"; "news"; "security"])%list.
Proof.
  assert (H : In (["NEWS"; "SECURITY"], "docs/news/security") Organize.patterns).
  { now left. }
  split; [exact H|].
  exact (every_rule_can_be_reached R0 ["NEWS"; "SECURITY"] "docs/news/security" H).
Defined.


(** X16 on an example. *)
Lemma links_with_a_skipped_scheme_are_not_checked_witness :
  Str.all_chars Url.is_alpha "HTTPS" = true
  /\ In (Str.lower "HTTPS") Verify.SKIP_SCHEMES
  /\ Str.all_chars plain_url_char "//example.com/x.md" = true
  /\ Verify.should_check "HTTPS://example.com/x.md" = false.
Proof.
  assert (H : In (Str.lower "HTTPS") Verify.SKIP_SCHEMES).
  { right. now left. }
  split; [reflexivity|]. split; [exact H|]. split; [reflexivity|].
  exact (links_with_a_skipped_scheme_are_not_checked "HTTPS" "//example.com/x.md"
           eq_refl H eq_refl).
Defined.

End FurtherExamples.
